(** * Wallet manager of the signing device: a shallow embedding

    This development embeds [src/apps/wallets/manager.py] (class
    [WalletManager]) and proves properties of its request classifier, of the
    asset registry, of the ownership matcher [parse_psbt], of the signing
    pipeline [sign_psbt], of the wallet store and of the address lookup.

    Conventions.
    - The firmware runs on MicroPython, where [str] and [bytes] are both
      sequences of 8-bit characters; both are modelled by [string], and
      [.decode()] / [.encode()] on the ASCII payloads handled here are the
      identity.
    - Python exceptions are values of type [exn]; a computation that may
      raise has type [result A].
    - Collaborators that live outside the file (wallet runtime, keystore,
      codec and crypto libraries, the user interface) are [Variable]s of the
      surrounding [Section]; nothing is assumed about them unless a theorem
      says so in a hypothesis. *)

From Stdlib Require Import ZArith NArith List String Ascii Lia Bool DecimalString DecimalN.
From stdpp Require Import gmap strings list fin_maps sorting.

Local Open Scope string_scope.
Local Open Scope list_scope.

(** ** Python values shared by all components *)

Module Py.

(** An argument of an exception: the code only ever inspects [args[0]]
    and compares it with a string. *)
Inductive pyarg : Type :=
| PStr (s : string)
| PInt (z : Z).

(** An exception object: its class name and its [args] tuple. *)
Record exn : Type := Exn { exn_class : string; exn_args : list pyarg }.

Definition WalletError (msg : string) : exn := Exn "WalletError" [PStr msg].
Definition NameError (name : string) : exn := Exn "NameError" [PStr name].
Definition IndexError : exn := Exn "IndexError" [PStr "index out of range"].
Definition KeyError (k : pyarg) : exn := Exn "KeyError" [k].
Definition AttributeError (name : string) : exn := Exn "AttributeError" [PStr name].
Definition TypeError (msg : string) : exn := Exn "TypeError" [PStr msg].
Definition AssertionError : exn := Exn "AssertionError" [].
Definition ValueError (msg : string) : exn := Exn "ValueError" [PStr msg].

Inductive result (A : Type) : Type :=
| Ok (a : A)
| Raise (e : exn).
Arguments Ok {A} a.
Arguments Raise {A} e.

Definition bind {A B} (m : result A) (k : A -> result B) : result B :=
  match m with
  | Ok a => k a
  | Raise e => Raise e
  end.

Definition pyarg_eqb (a b : pyarg) : bool :=
  match a, b with
  | PStr s, PStr t => String.eqb s t
  | PInt x, PInt y => Z.eqb x y
  | _, _ => false
  end.

(** [s[:n]] and [s[n:]] for a non-negative [n]. *)
Fixpoint str_take (n : nat) (s : string) : string :=
  match n, s with
  | S n', String c s' => String c (str_take n' s')
  | _, _ => EmptyString
  end.

Fixpoint str_drop (n : nat) (s : string) : string :=
  match n, s with
  | S n', String _ s' => str_drop n' s'
  | _, _ => s
  end.

(** [s.startswith(p)] *)
Fixpoint startswith (p s : string) : bool :=
  match p, s with
  | EmptyString, _ => true
  | String a p', String b s' => Ascii.eqb a b && startswith p' s'
  | String _ _, EmptyString => false
  end.

(** [needle in hay] on byte strings: substring search. *)
Fixpoint contains (needle hay : string) : bool :=
  startswith needle hay ||
  match hay with
  | EmptyString => false
  | String _ hay' => contains needle hay'
  end.

(** Truth value of an optional byte string: [None] and [b""] are falsy. *)
Definition truthy (o : option string) : bool :=
  match o with
  | Some (String _ _) => true
  | _ => false
  end.

(** A seekable byte stream (a [BytesIO] or an open file). *)
Record stream : Type := Stream { s_data : string; s_pos : nat }.

(** [stream.read(n)]: at most [n] bytes from the current position. *)
Definition read (n : nat) (s : stream) : string * stream :=
  let d := str_take n (str_drop (s_pos s) (s_data s)) in
  (d, Stream (s_data s) (s_pos s + String.length d)).

(** [stream.read()]: everything from the current position. *)
Definition read_all (s : stream) : string * stream :=
  let d := str_drop (s_pos s) (s_data s) in
  (d, Stream (s_data s) (s_pos s + String.length d)).

(** [stream.seek(n)] from the start of the stream. *)
Definition seek (n : nat) (s : stream) : stream := Stream (s_data s) n.

End Py.

Export Py.

Notation "'try!' x <- m ; k" := (Py.bind m (fun x => k))
  (at level 10, x name, m at level 100, k at level 200,
   format "'[v' 'try!'  x  <-  m ; '/' k ']'").
Notation "'try!' ' pat <- m ; k" :=
  (Py.bind m (fun x => match x with pat => k end))
  (at level 10, pat pattern, m at level 100, k at level 200,
   format "'[v' 'try!'  ' pat  <-  m ; '/' k ']'").

(** ** StreamClassifier: [WalletManager.parse_stream] *)

Module Classifier.

Inductive command : Type :=
| SIGN_PSBT | ADD_WALLET | VERIFY_ADDRESS | DERIVE_ADDRESS
| SIGN_BCUR | ADD_ASSET | DUMP_ASSETS.

(** Numeric codes of the module-level constants. *)
Definition command_code (c : command) : Z :=
  match c with
  | SIGN_PSBT => 1 | ADD_WALLET => 2 | VERIFY_ADDRESS => 3
  | DERIVE_ADDRESS => 4 | SIGN_BCUR => 5 | ADD_ASSET => 6
  | DUMP_ASSETS => 7
  end.

Section ParseStream.
(** [BaseApp.get_prefix]: the first word of the stream, or [None]; it
    reads from the stream, so it also returns the stream it leaves. *)
Variable get_prefix : stream -> option string * stream.
(** [helpers.is_liquid] on the active network name. *)
Variable is_liquid : string -> bool.
(** [binascii.a2b_base64]; [None] stands for a raised exception (the
    bare [except:] swallows every one of them). *)
Variable a2b_base64 : string -> option string.
(** [PSBT.MAGIC] and [PSET.MAGIC]. *)
Variables PSBT_MAGIC PSET_MAGIC : string.

Variable network : string.

Definition parse_stream (s : stream) : option command * option stream :=
  let '(prefix, s) := get_prefix s in
  match prefix with
  | Some prefix =>
      if String.eqb prefix "sign" then (Some SIGN_PSBT, Some s)
      else if String.eqb prefix "showaddr" then (Some DERIVE_ADDRESS, Some s)
      else if String.eqb prefix "addwallet" then (Some ADD_WALLET, Some s)
      else if is_liquid network && String.eqb prefix "addasset"
           then (Some ADD_ASSET, Some s)
      else if is_liquid network && String.eqb prefix "dumpassets"
           then (Some DUMP_ASSETS, Some s)
      else (None, None)
  | None =>
      let '(data, s) := read 40 s in
      if String.eqb (str_take 9 data) "UR:BYTES/" then
        (Some SIGN_BCUR, Some (seek 0 s))
      else
        match a2b_base64 data with
        | Some psbt =>
            let m := str_take (String.length PSBT_MAGIC) psbt in
            if negb (String.eqb m PSBT_MAGIC || String.eqb m PSET_MAGIC)
            then (None, None)
            else (Some SIGN_PSBT, Some (seek 0 s))
        | None =>
            (* the decoder raised: fall through to the other guesses *)
            if contains "&" data && negb (contains "?" data) then
              (Some ADD_WALLET, Some (seek 0 s))
            else if startswith "bitcoin:" data || startswith "BITCOIN:" data
                    || contains "index=" data then
              if startswith "bitcoin:" data || startswith "BITCOIN:" data
              then (Some VERIFY_ADDRESS, Some (seek 8 s))
              else (Some VERIFY_ADDRESS, Some (seek 0 s))
            else (None, None)
        end
  end.

(** [can_process] *)
Definition can_process (s : stream) : bool :=
  match fst (parse_stream s) with Some _ => true | None => false end.

End ParseStream.

(** *** The standard library decoder used to instantiate [a2b_base64]

    [binascii.a2b_base64] is not part of the repository.  The interpreter's
    decoder skips every character outside the base64 alphabet and only
    fails when bits are left over at the end; this is that loop, with the
    accumulator [shift], the number [nbits] of pending bits and the
    [hadpad] flag. *)

Definition sextet (c : ascii) : option N :=
  let n := N_of_ascii c in
  if (65 <=? n)%N && (n <=? 90)%N then Some (n - 65)%N
  else if (97 <=? n)%N && (n <=? 122)%N then Some (n - 97 + 26)%N
  else if (48 <=? n)%N && (n <=? 57)%N then Some (n - 48 + 52)%N
  else if (n =? 43)%N then Some 62%N
  else if (n =? 47)%N then Some 63%N
  else None.

Fixpoint a2b_loop (inp : string) (shift : N) (nbits : nat) (hadpad : bool)
         (out : list ascii) : option (list ascii) :=
  match inp with
  | EmptyString => if Nat.eqb nbits 0 then Some out else None
  | String c rest =>
      if Ascii.eqb c "="%char
         && (Nat.eqb nbits 2 || (Nat.eqb nbits 4 && hadpad))
      then Some out
      else
        let hadpad := if Ascii.eqb c "="%char then true else hadpad in
        match sextet c with
        | None => a2b_loop rest shift nbits hadpad out
        | Some v =>
            let shift := (N.lor (N.shiftl shift 6) v mod 2 ^ 32)%N in
            let nbits := (nbits + 6)%nat in
            if (8 <=? nbits)%nat then
              let nbits := (nbits - 8)%nat in
              let b := N.land (N.shiftr shift (N.of_nat nbits)) 255 in
              a2b_loop rest shift nbits false (out ++ [ascii_of_N b])
            else a2b_loop rest shift nbits false out
        end
  end.

Definition a2b_base64_std (data : string) : option string :=
  option_map string_of_list_ascii (a2b_loop data 0%N 0 false []).

(** The container magics of the transaction library: [b"psbt\xff"] and
    [b"pset\xff"]. *)
Definition PSBT_MAGIC_std : string := "psbt" +:+ String "255"%char "".
Definition PSET_MAGIC_std : string := "pset" +:+ String "255"%char "".

(** A prefix reader for streams that carry no command word: it finds no
    prefix and leaves the stream where it was. *)
Definition no_prefix (s : stream) : option string * stream := (None, s).

(** The classifier on a plain network with the standard decoder. *)
Definition parse_stream_std : stream -> option command * option stream :=
  parse_stream no_prefix (fun _ => false) a2b_base64_std
               PSBT_MAGIC_std PSET_MAGIC_std "main".

End Classifier.


(** ** AssetRegistry: the asset commands, [assets_json], [save_assets] and
       [load_assets] *)

Module Assets.

(** [bytes(reversed(b))] *)
Definition str_rev (s : string) : string :=
  string_of_list_ascii (rev (list_ascii_of_string s)).

(** One lowercase hexadecimal digit, for a value below 16. *)
Definition hex_digit (n : N) : ascii :=
  if (n <? 10)%N then ascii_of_N (48 + n) else ascii_of_N (87 + n).

(** [binascii.hexlify]: two lowercase digits per byte. *)
Fixpoint hexlify (b : string) : string :=
  match b with
  | EmptyString => EmptyString
  | String c r =>
      let n := N_of_ascii c in
      String (hex_digit (n / 16)) (String (hex_digit (n mod 16)) (hexlify r))
  end.

(** The value of a hexadecimal digit; both cases are accepted. *)
Definition hex_value (c : ascii) : option N :=
  let n := N_of_ascii c in
  if (48 <=? n)%N && (n <=? 57)%N then Some (n - 48)%N
  else if (97 <=? n)%N && (n <=? 102)%N then Some (n - 87)%N
  else if (65 <=? n)%N && (n <=? 70)%N then Some (n - 55)%N
  else None.

(** The loop of [binascii.unhexlify] over the digits, two at a time; it
    runs on texts of even length only. *)
Fixpoint unhex_pairs (s : string) : result string :=
  match s with
  | EmptyString => Ok EmptyString
  | String _ EmptyString => Raise (ValueError "odd-length string")
  | String a (String b r) =>
      match hex_value a, hex_value b with
      | Some x, Some y =>
          try! t <- unhex_pairs r;
          Ok (String (ascii_of_N (16 * x + y)) t)
      | _, _ => Raise (ValueError "non-hex digit found")
      end
  end.

(** [binascii.unhexlify]: an odd length is refused before any digit is
    looked at; then the first character that is not a hexadecimal digit
    stops the loop. *)
Definition unhexlify (s : string) : result string :=
  if Nat.odd (String.length s) then Raise (ValueError "odd-length string")
  else unhex_pairs s.

(** [s.split(" ")] with an explicit separator: every separator cuts. *)
Fixpoint split_on (sep : ascii) (s : string) : list string :=
  match s with
  | EmptyString => [EmptyString]
  | String c r =>
      if Ascii.eqb c sep then EmptyString :: split_on sep r
      else match split_on sep r with
           | w :: ws => String c w :: ws
           | [] => [String c EmptyString]
           end
  end.

(** The part of the manager and of its keystore that the asset registry
    reads; [assets] is the label map, keyed by the internal byte order. *)
Record manager : Type := Manager {
  root_path : string;
  keystore_uid : string;
  keystore_userkey : string;
  network : string;
  assets : gmap string string
}.

Definition set_assets (m : manager) (a : gmap string string) : manager :=
  Manager (root_path m) (keystore_uid m) (keystore_userkey m) (network m) a.

(** Persistent storage: file path to file content.  [platform.maybe_mkdir]
    creates directories only and leaves every file as it is. *)
Abbreviation storage := (gmap string string).

Definition file_exists (fs : storage) (path : string) : bool :=
  bool_decide (is_Some (fs !! path)).

(** The loop of [assets_json]: the object handed to [json.dumps]. *)
Definition assets_json_obj (a : gmap string string) : gmap string string :=
  foldl (fun (acc : gmap string string) (kv : string * string) =>
           <[hexlify (str_rev (fst kv)) := snd kv]> acc)
        ∅ (map_to_list a).

(** The two storage paths, as the two methods build them. *)
Definition save_assets_path (m : manager) : string :=
  (root_path m +:+ "/uid" +:+ keystore_uid m) +:+ "/" +:+ network m.

Definition load_assets_path (m : manager) : string :=
  (root_path m +:+ "/" +:+ keystore_uid m) +:+ "/" +:+ network m.

(** The loop of [load_assets] over the decoded JSON object. *)
Fixpoint load_loop (l : list (string * string)) (acc : gmap string string)
  : result (gmap string string) :=
  match l with
  | [] => Ok acc
  | (k, v) :: r =>
      try! b <- unhexlify k;
      load_loop r (<[str_rev b := v]> acc)
  end.

Section Registry.
(** [json.dumps] and [json.loads] on objects from strings to strings. *)
Variable json_dumps : gmap string string -> string.
Variable json_loads : string -> result (gmap string string).
(** The keystore's authenticated encryption: [save_aead] stores
    [aead_seal key plaintext]; [load_aead] returns a pair of which the
    second component is the plaintext. *)
Variable aead_seal : string -> string -> string.
Variable aead_open : string -> string -> result (string * string).
(** The answer of the user to [Prompt("Import asset?", ...)], given the
    asset and the label shown. *)
Variable prompt_import : string -> string -> bool.

Definition assets_json (m : manager) : string :=
  json_dumps (assets_json_obj (assets m)).

Definition save_assets (m : manager) (fs : storage) : storage :=
  <[save_assets_path m := aead_seal (keystore_userkey m) (assets_json m)]> fs.

Definition load_assets (m : manager) (fs : storage) : result manager :=
  if file_exists fs (load_assets_path m) then
    match fs !! load_assets_path m with
    | Some sealed =>
        try! '(_, plain) <- aead_open (keystore_userkey m) sealed;
        try! obj <- json_loads plain;
        try! a <- load_loop (map_to_list obj) (assets m);
        Ok (set_assets m a)
    | None => Raise (Exn "OSError" [PInt 2])
    end
  else Ok m.

(** The [ADD_ASSET] branch of [process_host_command], from the payload that
    follows the command word; it returns the new manager, the new storage
    and the bytes of the reply. *)
Definition add_asset_command (payload : string) (m : manager) (fs : storage)
  : result (manager * storage * string) :=
  match split_on " "%char payload with
  | [hexasset; assetlbl] =>
      if prompt_import hexasset assetlbl then
        try! b <- unhexlify hexasset;
        let m' := set_assets m (<[str_rev b := assetlbl]> (assets m)) in
        Ok (m', save_assets m' fs, "success")
      else Ok (m, fs, "success")
  | _ => Raise (WalletError
           "Invalid number of arguments. Usage: addasset <hex_asset> asset_lbl")
  end.

(** The [DUMP_ASSETS] branch: the reply is [assets_json()]. *)
Definition dump_assets_command (m : manager) : string := assets_json m.

End Registry.

(** Lowercase form of a character and of a string. *)
Definition lower_ascii (c : ascii) : ascii :=
  let n := N_of_ascii c in
  if (65 <=? n)%N && (n <=? 90)%N then ascii_of_N (n + 32) else c.

Fixpoint lower (s : string) : string :=
  match s with
  | EmptyString => EmptyString
  | String c r => String (lower_ascii c) (lower r)
  end.

End Assets.


(** ** Sighash flags and their display names *)

Module Sighash.

(** The flag values of the transaction library ([LSIGHASH]); they are the
    consensus values of the two chains. *)
Definition ALL : Z := 1.
Definition NONE : Z := 2.
Definition SINGLE : Z := 3.
Definition RANGEPROOF : Z := 64.
Definition ANYONECANPAY : Z := 128.

(** One of the two module-level loops that extend [SIGHASH_NAMES]:
    [for sh in list(d): d[sh | flag] = d[sh] + suffix]. *)
Definition extend_names (flag : Z) (suffix : string) (d : gmap Z string)
  : gmap Z string :=
  foldl (fun (acc : gmap Z string) (kv : Z * string) =>
           <[Z.lor (fst kv) flag := snd kv +:+ suffix]> acc)
        d (map_to_list d).

Definition SIGHASH_NAMES : gmap Z string :=
  extend_names RANGEPROOF " | RANGEPROOF"
    (extend_names ANYONECANPAY " | ANYONECANPAY"
       (<[SINGLE := "SINGLE"]> (<[NONE := "NONE"]> (<[ALL := "ALL"]> ∅)))).

(** [SIGHASH_NAMES[sh]] *)
Definition sighash_name (sh : Z) : result string :=
  match SIGHASH_NAMES !! sh with
  | Some n => Ok n
  | None => Raise (KeyError (PInt sh))
  end.

End Sighash.


(** ** The decoded transaction container *)

Module Psbt.

(** A transaction output: amount, script bytes and, on confidential
    networks, the serialized asset (one prefix byte, then the asset id). *)
Record txout : Type := TxOut {
  tx_value : Z;
  script_pubkey : string;
  tx_asset : string
}.

(** Derivation hints: public key to (fingerprint, path). *)
Abbreviation derivations := (list (string * (string * list N))).

(** Per-input scope.  [in_value] and [in_asset] are the unblinded amount
    and asset that confidential inputs carry. *)
Record psbt_input : Type := PsbtInput {
  is_verified : bool;
  witness_utxo : option txout;
  non_witness_utxo : option string;
  sighash_type : option Z;
  partial_sigs : gmap string string;
  in_bip32_derivations : derivations;
  in_witness_script : option string;
  in_redeem_script : option string;
  in_value : Z;
  in_asset : string
}.

(** Per-output scope, together with the transaction output [tx.vout[i]] it
    belongs to (the container keeps one scope per output). *)
Record psbt_output : Type := PsbtOutput {
  vout : txout;
  out_bip32_derivations : derivations;
  out_witness_script : option string;
  out_redeem_script : option string;
  blinding_pubkey : option string;
  unknown : gmap string string;
  range_proof : option string;
  surjection_proof : option string;
  nonce_commitment : option string;
  value_commitment : string;
  value_blinding_factor : string;
  asset_commitment : string;
  asset_blinding_factor : string
}.

(** The container: the scopes and the digest
    [tx._hash_outputs_rangeproofs] once it has been set. *)
Record psbt : Type := Psbt {
  inputs : list psbt_input;
  outputs : list psbt_output;
  hash_outputs_rangeproofs : option string
}.

(** [a or b] on optional scripts. *)
Definition script_or (a b : option string) : option string :=
  match a with Some _ => a | None => b end.

(** The wallet runtime as the manager uses it while matching. *)
Class Wallet (W : Type) : Type := {
  wallet_eq_dec :: EqDecision W;
  w_name : W -> string;
  owns : W -> txout -> derivations -> option string -> option string -> bool;
  get_derivation : W -> derivations -> nat * N;
  gaps : W -> list N;
  GAP_LIMIT : W -> N
}.

(** ["%d" % n] *)
Definition dec (n : N) : string := NilZero.string_of_uint (N.to_uint n).
Definition decZ (z : Z) : string := NilZero.string_of_int (Z.to_int z).

End Psbt.

Export Psbt.

(** ** OwnershipMatcher: [get_address] and [WalletManager.parse_psbt] *)

Module Matcher.

Record input_meta : Type := InputMeta {
  im_asset : option string;
  im_label : option string;
  im_value : option Z;
  im_sighash : option string
}.

Record output_meta : Type := OutputMeta {
  om_address : string;
  om_value : Z;
  om_change : bool;
  om_asset : option string;
  om_label : option string
}.

Record meta : Type := Meta {
  m_inputs : list input_meta;
  m_outputs : list output_meta;
  m_fee : Z;
  m_warnings : list string;
  m_unknown_assets : list string
}.

Definition set_inputs (m : meta) (x : list input_meta) : meta :=
  Meta x (m_outputs m) (m_fee m) (m_warnings m) (m_unknown_assets m).
Definition set_outputs (m : meta) (x : list output_meta) : meta :=
  Meta (m_inputs m) x (m_fee m) (m_warnings m) (m_unknown_assets m).
Definition add_warning (m : meta) (w : string) : meta :=
  Meta (m_inputs m) (m_outputs m) (m_fee m) (m_warnings m ++ [w])
       (m_unknown_assets m).
(** [if a not in meta["unknown_assets"]: meta["unknown_assets"].append(a)] *)
Definition note_unknown (m : meta) (a : string) : meta :=
  if bool_decide (a ∈ m_unknown_assets m) then m
  else Meta (m_inputs m) (m_outputs m) (m_fee m) (m_warnings m)
            (m_unknown_assets m ++ [a]).

(** The branch-qualified index annotation of a label. *)
Definition index_suffix (branch_idx : nat) (idx : N) : string :=
  match branch_idx with
  | 1 => " change " +:+ dec idx
  | 0 => " #" +:+ dec idx
  | _ => " #" +:+ dec idx +:+ " on branch " +:+ dec (N.of_nat branch_idx)
  end.

(** [l.index(x)] for an [x] that is in [l]. *)
Fixpoint index_of {A} `{EqDecision A} (x : A) (l : list A) : nat :=
  match l with
  | [] => 0
  | y :: r => if decide (x = y) then 0 else S (index_of x r)
  end.

(** The spend summary under construction: [wallets] and [amounts]. *)
Definition fold_amount {A} `{EqDecision A} (x : A) (value : Z)
           (wa : list A * list Z) : list A * list Z :=
  let '(wallets, amounts) := wa in
  if bool_decide (x ∈ wallets)
  then (wallets, alter (fun a => (a + value)%Z) (index_of x wallets) amounts)
  else ((wallets ++ [x])%list, (amounts ++ [value])%list).

Section Matching.
Context {W : Type} `{Wallet W}.

(** [psbt.utxo(i)], from the scope of input [i], and [psbt.fee()]. *)
Variable psbt_utxo : psbt_input -> txout.
Variable psbt_fee : psbt -> Z.
(** Library collaborators of [get_address]. *)
Variable is_liquid : string -> bool.
(** [ec.PublicKey.parse] *)
Variable pubkey_parse : string -> string.
(** [liquid_address(script, blinding_key, network)] *)
Variable liquid_address : string -> string -> string -> string.
(** [script.address(network)]; [None] when the script has no address
    representation and the call raises. *)
Variable script_address : string -> string -> option string.

(** The manager: wallet list, label map and active network. *)
Variable self_wallets : list W.
Variable self_assets : gmap string string.
Variable self_network : string.

Definition get_address (vo : txout) (psbtout : psbt_output) (network : string)
  : string :=
  let fallback :=
    match script_address (script_pubkey vo) network with
    | Some a => a
    | None => Assets.hexlify (script_pubkey vo)
    end in
  if is_liquid network then
    if String.eqb (script_pubkey vo) "" then "Fee"
    else match blinding_pubkey psbtout with
         | Some bp => liquid_address (script_pubkey vo) (pubkey_parse bp) network
         | None => fallback
         end
  else fallback.

Definition default_asset : option string :=
  if is_liquid self_network then None
  else Some (if String.eqb self_network "main" then "BTC" else "tBTC").

Definition initial_meta (p : psbt) : meta :=
  Meta (map (fun _ => InputMeta default_asset None None None) (inputs p))
       (map (fun o => OutputMeta (get_address (vout o) o self_network)
                                 (tx_value (vout o)) false default_asset None)
            (outputs p))
       (psbt_fee p) [] [].

(** [for w in self.wallets: if w.owns(...): ...; break]: the first wallet
    of the store that owns the input. *)
Definition first_owner (inp : psbt_input) : option W :=
  List.find (fun w => owns w (psbt_utxo inp) (in_bip32_derivations inp)
                        (script_or (in_witness_script inp) (in_redeem_script inp))
                        None)
            self_wallets.

(** One iteration of the per-input pass. *)
Definition input_step (i : nat) (inp : psbt_input)
           (st : (list (option W) * list Z) * meta)
  : result ((list (option W) * list Z) * meta) :=
  let '(wa, m) := st in
  let value := if negb (is_liquid self_network) then tx_value (psbt_utxo inp)
               else in_value inp in
  let m :=
    if is_liquid self_network then
      match self_assets !! in_asset inp with
      | Some lbl =>
          set_inputs m (alter (fun im => InputMeta (Some lbl) (im_label im)
                                           (im_value im) (im_sighash im))
                              i (m_inputs m))
      | None => note_unknown m (in_asset inp)
      end
    else m in
  let sh := match sighash_type inp with
            | Some 0%Z | None => Sighash.ALL
            | Some x => x
            end in
  try! shname <- Sighash.sighash_name sh;
  let m := set_inputs m
             (alter (fun im => InputMeta (im_asset im) (Some "Unknown wallet")
                                 (Some value) (Some shname))
                    i (m_inputs m)) in
  match first_owner inp with
  | Some w =>
      let '(branch_idx, idx) := get_derivation w (in_bip32_derivations inp) in
      let m := set_inputs m
                 (alter (fun im => InputMeta (im_asset im)
                                     (Some (w_name w +:+ index_suffix branch_idx idx))
                                     (im_value im) (im_sighash im))
                        i (m_inputs m)) in
      Ok (fold_amount (Some w) value wa, m)
  | None => Ok (fold_amount None value wa, m)
  end.

Fixpoint input_pass (i : nat) (ins : list psbt_input)
         (st : (list (option W) * list Z) * meta)
  : result ((list (option W) * list Z) * meta) :=
  match ins with
  | [] => Ok st
  | inp :: r => try! st' <- input_step i inp st; input_pass (S i) r st'
  end.

(** The inner loop of the per-output pass: the first matched wallet that
    owns the output, the unknown bucket being skipped. *)
Fixpoint change_owner (out : psbt_output) (wallets : list (option W))
  : option W :=
  match wallets with
  | [] => None
  | None :: r => change_owner out r
  | Some w :: r =>
      if truthy (blinding_pubkey out) &&
         owns w (vout out) (out_bip32_derivations out)
              (script_or (out_witness_script out) (out_redeem_script out))
              (option_map pubkey_parse (blinding_pubkey out))
      then Some w
      else change_owner out r
  end.

(** One iteration of the per-output pass. *)
Definition output_step (wallets : list (option W)) (i : nat)
           (out : psbt_output) (m : meta) : meta :=
  let m :=
    if is_liquid self_network then
      let a := str_drop 1 (tx_asset (vout out)) in
      match self_assets !! a with
      | Some lbl =>
          set_outputs m (alter (fun om => OutputMeta (om_address om) (om_value om)
                                            (om_change om) (Some lbl) (om_label om))
                               i (m_outputs m))
      | None => note_unknown m a
      end
    else m in
  if is_liquid self_network && String.eqb (script_pubkey (vout out)) "" then m
  else
    match change_owner out wallets with
    | Some w =>
        set_outputs m (alter (fun om => OutputMeta (om_address om) (om_value om)
                                          true (om_asset om) (Some (w_name w)))
                             i (m_outputs m))
    | None => m
    end.

Fixpoint output_pass (wallets : list (option W)) (i : nat)
         (outs : list psbt_output) (m : meta) : meta :=
  match outs with
  | [] => m
  | out :: r => output_pass wallets (S i) r (output_step wallets i out m)
  end.

(** [gaps = [[] + w.gaps if w is not None else [0, 0] for w in wallets]] *)
Definition initial_gaps (wallets : list (option W)) : list (list N) :=
  map (fun w => match w with Some w => gaps w | None => [0; 0]%N end) wallets.

(** The body of the gap loop for input [inp] and the wallet at position
    [i]; an index outside a list raises as Python does. *)
Definition raise_gap (inp : psbt_input) (i : nat) (w : option W)
           (g : list (list N)) : result (list (list N)) :=
  match w with
  | None => Ok g
  | Some w =>
      if owns w (psbt_utxo inp) (in_bip32_derivations inp)
              (script_or (in_witness_script inp) (in_redeem_script inp)) None
      then
        let '(branch_idx, idx) := get_derivation w (in_bip32_derivations inp) in
        match g !! i with
        | None => Raise IndexError
        | Some gi =>
            match gi !! branch_idx with
            | None => Raise IndexError
            | Some bound =>
                if (bound <? idx + GAP_LIMIT w)%N
                then Ok (<[i := <[branch_idx := (idx + GAP_LIMIT w)%N]> gi]> g)
                else Ok g
            end
        end
      else Ok g
  end.

Fixpoint gap_wallets (inp : psbt_input) (i : nat) (ws : list (option W))
         (g : list (list N)) : result (list (list N)) :=
  match ws with
  | [] => Ok g
  | w :: r => try! g' <- raise_gap inp i w g; gap_wallets inp (S i) r g'
  end.

Fixpoint gap_pass (ins : list psbt_input) (wallets : list (option W))
         (g : list (list N)) : result (list (list N)) :=
  match ins with
  | [] => Ok g
  | inp :: r => try! g' <- gap_wallets inp 0 wallets g; gap_pass r wallets g'
  end.

(** [gaps[i][b]], when both indices are in range. *)
Definition cell (g : list (list N)) (i b : nat) : option N :=
  match g !! i with
  | Some gi => gi !! b
  | None => None
  end.

(** The index of [inp] when it is an input of wallet [w] on branch [b]:
    the test and the derivation of the gap loop. *)
Definition spends_from (w : W) (b : nat) (inp : psbt_input) : option N :=
  if owns w (psbt_utxo inp) (in_bip32_derivations inp)
          (script_or (in_witness_script inp) (in_redeem_script inp)) None
  then
    let '(branch_idx, idx) := get_derivation w (in_bip32_derivations inp) in
    if Nat.eqb branch_idx b then Some idx else None
  else None.

(** What one input does to the bound of wallet [w] on branch [b], and what
    a list of inputs does. *)
Definition raised (w : W) (b : nat) (inp : psbt_input) (v : N) : N :=
  match spends_from w b inp with
  | Some idx => N.max v (idx + GAP_LIMIT w)
  | None => v
  end.

Definition bound_after (w : W) (b : nat) (ins : list psbt_input) (v : N) : N :=
  fold_left (fun acc inp => raised w b inp acc) ins v.

(** Every input that a wallet of the list owns lies on a branch for which
    the wallet keeps a bound. *)
Definition branches_in_range (ins : list psbt_input)
           (wallets : list (option W)) : Prop :=
  forall inp w,
    inp ∈ ins -> Some w ∈ wallets ->
    owns w (psbt_utxo inp) (in_bip32_derivations inp)
         (script_or (in_witness_script inp) (in_redeem_script inp)) None = true ->
    (get_derivation w (in_bip32_derivations inp)).1 < length (gaps w).

(** [meta["outputs"][i]["label"] += s] *)
Definition append_label (i : nat) (s : string) (m : meta) : result meta :=
  match m_outputs m !! i with
  | None => Raise IndexError
  | Some om =>
      match om_label om with
      | None => Raise (KeyError (PStr "label"))
      | Some l =>
          Ok (set_outputs m
                (<[i := OutputMeta (om_address om) (om_value om) (om_change om)
                                   (om_asset om) (Some (l +:+ s))]> (m_outputs m)))
      end
  end.

Definition gap_warning (idx : N) : string :=
  "Address index " +:+ dec idx +:+ " is beyond the gap limit!".

(** The inner loop of the last pass, over [enumerate(wallets)] from
    position [j], for the change output [out] at position [i].  The [break]
    after the warning leaves this loop only. *)
Fixpoint check_wallets (i : nat) (out : psbt_output) (j : nat)
         (ws : list (option W)) (g : list (list N)) (m : meta) : result meta :=
  match ws with
  | [] => Ok m
  | None :: _ => Raise (AttributeError "owns")
  | Some w :: r =>
      if owns w (vout out) (out_bip32_derivations out)
              (script_or (out_witness_script out) (out_redeem_script out)) None
      then
        let '(branch_idx, idx) := get_derivation w (out_bip32_derivations out) in
        try! m <- append_label i (index_suffix branch_idx idx) m;
        match g !! j with
        | None => Raise IndexError
        | Some gj =>
            match gj !! branch_idx with
            | None => Raise IndexError
            | Some bound =>
                if (bound <? idx)%N then Ok (add_warning m (gap_warning idx))
                else check_wallets i out (S j) r g m
            end
        end
      else check_wallets i out (S j) r g m
  end.

(** The last pass, over [enumerate(psbt.outputs)] from position [i]. *)
Fixpoint check_pass (i : nat) (outs : list psbt_output)
         (wallets : list (option W)) (g : list (list N)) (m : meta)
  : result meta :=
  match outs with
  | [] => Ok m
  | out :: r =>
      match m_outputs m !! i with
      | None => Raise IndexError
      | Some om =>
          if negb (om_change om) then check_pass (S i) r wallets g m
          else
            try! m' <- check_wallets i out 0 wallets g m;
            check_pass (S i) r wallets g m'
      end
  end.

(** The two global warnings.  The second statement appends to a name,
    [warnings], that is bound neither in the method nor in the module and is
    no builtin: evaluating it raises [NameError]. *)
Definition input_warnings (wallets : list (option W)) (m : meta) : result meta :=
  let m := if bool_decide (None ∈ wallets)
           then add_warning m "Unknown wallet in input!" else m in
  if (1 <? length wallets)%nat then Raise (NameError "warnings")
  else Ok m.

Definition parse_psbt (p : psbt) : result (list (option W * Z) * meta) :=
  try! '((wallets, amounts), m) <-
    input_pass 0 (inputs p) (([], []), initial_meta p);
  try! m <- input_warnings wallets m;
  let m := output_pass wallets 0 (outputs p) m in
  try! g <- gap_pass (inputs p) wallets (initial_gaps wallets);
  try! m <- check_pass 0 (outputs p) wallets g m;
  Ok (zip wallets amounts, m).

End Matching.

(** The gap-limit warnings of a warning list. *)
Definition is_gap_warning (w : string) : bool :=
  startswith "Address index " w && contains " is beyond the gap limit!" w.

Definition gap_warnings (m : meta) : list string :=
  List.filter is_gap_warning (m_warnings m).

End Matcher.

(** ** SigningPipeline and ConfidentialEngine: [WalletManager.sign_psbt] *)

Module Signing.

Import Matcher.

Inductive encoding : Type := BASE64_STREAM | RAW_STREAM.

Definition nl : string := String "010"%char "".

(** [s.strip()]: whitespace removed at both ends. *)
Definition is_space (c : ascii) : bool :=
  let n := N_of_ascii c in
  (n =? 32)%N || ((9 <=? n)%N && (n <=? 13)%N).

Fixpoint lstrip (s : string) : string :=
  match s with
  | String c r => if is_space c then lstrip r else s
  | EmptyString => EmptyString
  end.

Definition strip (s : string) : string :=
  Assets.str_rev (lstrip (Assets.str_rev (lstrip s))).

(** [sep.join(l)] *)
Fixpoint join (sep : string) (l : list string) : string :=
  match l with
  | [] => ""
  | [x] => x
  | x :: r => x +:+ sep +:+ join sep r
  end.

(** The wallet runtime as the signing step uses it.  [world] is the state
    the wallets keep for themselves (gap bounds, files). *)
Class WalletSigner (W world : Type) : Type := {
  update_gaps : W -> psbt -> world -> world;
  save : W -> world -> world;
  fill_psbt : W -> psbt -> string -> psbt;
  has_private_keys : W -> bool;
  wallet_sign_psbt : W -> psbt -> option Z -> psbt
}.

(** The message that the transaction library attaches to a wrong magic. *)
Definition INVALID_MAGIC : string := "Invalid PSBT magic".

Definition switch_network_message (liquid : bool) : string :=
  "Wrong transaction type! Switch to " +:+
  (if liquid then "Bitcoin" else "Liquid") +:+ " network to sign PSBT!".

Definition MISSING_PREV : string := "Invalid PSBT - missing previous transaction".

Definition NO_SIGNATURES : string :=
  "We didn't add any signatures!" +:+ nl +:+ nl +:+
  "Maybe you forgot to import the wallet?" +:+ nl +:+ nl +:+
  "Scan the wallet descriptor to import it.".

(** The default signing mode. *)
Definition default_sighash (liquid : bool) : Z :=
  if liquid then Z.lor Sighash.ALL Sighash.RANGEPROOF else Sighash.ALL.

(** The [except Exception as e] handler of the decoding step. *)
Definition decode_handler (liquid : bool) (e : exn) : exn :=
  match exn_args e with
  | [] => IndexError (* [e.args[0]] on an empty tuple *)
  | a :: _ =>
      if pyarg_eqb a (PStr INVALID_MAGIC)
      then WalletError (switch_network_message liquid)
      else e
  end.

(** The loop that checks the previous outputs and collects the custom
    sighashes, from input position [i]. *)
Fixpoint scan_inputs (sighash : Z) (i : nat) (ins : list psbt_input)
         (custom_sighashes : list (nat * Z)) : result (list (nat * Z)) :=
  match ins with
  | [] => Ok custom_sighashes
  | inp :: r =>
      if negb (is_verified inp)
         && bool_decide (witness_utxo inp = None)
         && bool_decide (non_witness_utxo inp = None)
      then Raise (WalletError MISSING_PREV)
      else
        let custom_sighashes :=
          match sighash_type inp with
          | Some st =>
              if negb (st =? 0)%Z && negb (st =? sighash)%Z
              then custom_sighashes ++ [(i, st)]
              else custom_sighashes
          | None => custom_sighashes
          end in
        scan_inputs sighash (S i) r custom_sighashes
  end.

(** The input at position [i] declares the non-zero type [st], which is
    not [sighash]. *)
Definition is_custom (sighash : Z) (i : nat) (st : Z) (ins : list psbt_input)
  : Prop :=
  exists inp, ins !! i = Some inp /\ sighash_type inp = Some st /\
              st <> 0%Z /\ st <> sighash.

(** [[("Input %d: " % i) + SIGHASH_NAMES[sh] for (i, sh) in custom]] *)
Fixpoint custom_lines (l : list (nat * Z)) : result (list string) :=
  match l with
  | [] => Ok []
  | (i, sh) :: r =>
      try! n <- Sighash.sighash_name sh;
      try! t <- custom_lines r;
      Ok (("Input " +:+ dec (N.of_nat i) +:+ ": " +:+ n) :: t)
  end.

(** The key of the proprietary field that holds the device nonce:
    [b'\xfc\x07specter\x01']. *)
Definition NONCE_KEY : string :=
  String "252"%char (String "007"%char ("specter" +:+ String "001"%char "")).

Definition set_nonce_commitment (o : psbt_output) (c : option string)
  : psbt_output :=
  PsbtOutput (vout o) (out_bip32_derivations o) (out_witness_script o)
             (out_redeem_script o) (blinding_pubkey o) (unknown o)
             (range_proof o) (surjection_proof o) c (value_commitment o)
             (value_blinding_factor o) (asset_commitment o)
             (asset_blinding_factor o).

Definition set_surjection_proof (o : psbt_output) (c : option string)
  : psbt_output :=
  PsbtOutput (vout o) (out_bip32_derivations o) (out_witness_script o)
             (out_redeem_script o) (blinding_pubkey o) (unknown o)
             (range_proof o) c (nonce_commitment o) (value_commitment o)
             (value_blinding_factor o) (asset_commitment o)
             (asset_blinding_factor o).

(** [len(x)] on an optional byte string. *)
Definition len_opt (o : option string) : result (nat * string) :=
  match o with
  | Some s => Ok (String.length s, s)
  | None => Raise (TypeError "object of type 'NoneType' has no len()")
  end.

(** The state of the finalization loop: the bytes fed to the running hash
    [h] so far, the local variable [proof] ([None] while it is unbound) and
    the output scopes already visited, as the loop leaves them. *)
Record fin_state : Type := FinState {
  fed : string;
  proof_var : option string;
  visited : list psbt_output
}.

(** The fresh container of the output-minimization step: [PSBTClass(tx)]
    with the partial signatures copied over. *)
Definition blank_input (sigs : gmap string string) : psbt_input :=
  PsbtInput false None None None sigs [] None None 0 "".

Definition blank_output (vo : txout) : psbt_output :=
  PsbtOutput vo [] None None None ∅ None None None "" "" "" "".

Definition minimal (p : psbt) : psbt :=
  Psbt (map (fun inp => blank_input (partial_sigs inp)) (inputs p))
       (map (fun o => blank_output (vout o)) (outputs p))
       (hash_outputs_rangeproofs p).

(** [sigs += len(list(inp.partial_sigs.keys()))] over all inputs. *)
Definition count_sigs (p : psbt) : nat :=
  fold_left (fun acc inp => acc + size (partial_sigs inp)) (inputs p) 0.

(** The number of partial signatures of one input. *)
Definition sigs_of (inp : psbt_input) : nat := size (partial_sigs inp).

(** Signing never removed a signature: the inputs are the same in number
    and none has fewer signatures than before. *)
Definition only_adds (p p' : psbt) : Prop :=
  Forall2 (fun a b => sigs_of a <= sigs_of b) (inputs p) (inputs p').

(** The input at some position has strictly more signatures than before. *)
Definition some_input_gained (p p' : psbt) : Prop :=
  exists i a b, inputs p !! i = Some a /\ inputs p' !! i = Some b /\
                sigs_of a < sigs_of b.

Section Pipeline.
Context {W world : Type} `{Wallet W} `{WalletSigner W world}.

(** Codec and container library. *)
Variable is_liquid : string -> bool.
(** [a2b_base64_stream(stream, f)]: the decoded content of the scratch
    file. *)
Variable a2b_base64_stream : stream -> result string.
(** [PSBTClass.read_from(f, compress=True)], for the class selected by the
    network family. *)
Variable read_from : bool -> stream -> result psbt.
Variable psbt_verify : psbt -> result psbt.
Variable serialize : psbt -> string.
Variable b2a_base64 : string -> string.

(** Crypto library. *)
Variable compact_to_bytes : nat -> string.
Variable sha256 : string -> string.
(** [ec.PrivateKey(nonce).sec()] *)
Variable nonce_sec : string -> string.
(** parse, tweak-multiply and serialize: the shared point of a blinding
    key and a nonce. *)
Variable ecdh_point : option string -> string -> string.
Variable pedersen_commitment_parse : string -> string.
Variable generator_parse : string -> string.
Variable rangeproof_sign :
  string -> Z -> string -> string -> string -> string -> string -> string.

(** Keystore. *)
Variable keystore_fingerprint : string.
Variable keystore_sign_psbt : psbt -> option Z -> psbt.

(** The body of the [try]: the container is read from the scratch file
    that holds the decoded base64 text, or from the stream itself. *)
Definition attempt (liquid : bool) (enc : encoding) (s : stream) : result psbt :=
  match enc with
  | BASE64_STREAM =>
      try! raw <- a2b_base64_stream s;
      read_from liquid (Stream raw 0)
  | RAW_STREAM => read_from liquid s
  end.

(** The decoding step with its handler. *)
Definition decode (liquid : bool) (enc : encoding) (s : stream) : result psbt :=
  match attempt liquid enc s with
  | Ok p => Ok p
  | Raise e => Raise (decode_handler liquid e)
  end.

(** One iteration of the finalization loop.  The calls into the crypto
    library are functions here: what they raise on malformed fields is not
    modelled, so the loop of the code may stop where this one goes on, and
    never the other way round. *)
Definition finalize_step (out : psbt_output) (st : fin_state) : result fin_state :=
  match unknown out !! NONCE_KEY with
  | None =>
      if truthy (range_proof out) then
        match proof_var st with
        | None => Raise (NameError "proof")
        | Some proof =>
            try! '(n, sp) <- len_opt (surjection_proof out);
            Ok (FinState (fed st +:+ compact_to_bytes (String.length proof)
                          +:+ proof +:+ compact_to_bytes n +:+ sp)
                         (proof_var st) (visited st ++ [out]))
        end
      else
        Ok (FinState (fed st +:+ String "000"%char (String "000"%char ""))
                     (proof_var st) (visited st ++ [out]))
  | Some nonce =>
      try! out <-
        (if truthy (nonce_commitment out) then
           if bool_decide (nonce_commitment out = Some (nonce_sec nonce))
           then Ok out else Raise AssertionError
         else Ok (set_nonce_commitment out (Some (nonce_sec nonce))));
      let sec := ecdh_point (blinding_pubkey out) nonce in
      let ecdh_nonce := sha256 (sha256 sec) in
      let vo := vout out in
      let proof :=
        rangeproof_sign ecdh_nonce (tx_value vo)
          (pedersen_commitment_parse (value_commitment out))
          (value_blinding_factor out)
          (str_drop 1 (tx_asset vo) +:+ asset_blinding_factor out)
          (script_pubkey vo) (generator_parse (asset_commitment out)) in
      try! '(n, sp) <- len_opt (surjection_proof out);
      (* [del proof] unbinds the local again *)
      Ok (FinState (fed st +:+ compact_to_bytes (String.length proof)
                    +:+ proof +:+ compact_to_bytes n +:+ sp)
                   None
                   (visited st ++ [set_surjection_proof out None]))
  end.

Fixpoint finalize_loop (outs : list psbt_output) (st : fin_state)
  : result fin_state :=
  match outs with
  | [] => Ok st
  | out :: r => try! st' <- finalize_step out st; finalize_loop r st'
  end.

(** The confidential finalization pass: the loop, then
    [psbt.tx._hash_outputs_rangeproofs = h.digest()]. *)
Definition finalize (p : psbt) : result psbt :=
  try! st <- finalize_loop (outputs p) (FinState "" None []);
  Ok (Psbt (inputs p) (visited st) (Some (sha256 (fed st)))).

(** [for w, _ in wallets: ...]: every matched wallet advances its gaps, is
    saved, fills its derivations in and signs if it holds keys. *)
Fixpoint sign_with_wallets (wallets : list (option W * Z)) (sighash : option Z)
         (st : world * psbt) : world * psbt :=
  match wallets with
  | [] => st
  | (None, _) :: r => sign_with_wallets r sighash st
  | (Some w, _) :: r =>
      let '(wd, p) := st in
      let wd := save w (update_gaps w p wd) in
      let p := fill_psbt w p keystore_fingerprint in
      let p := if has_private_keys w then wallet_sign_psbt w p sighash else p in
      sign_with_wallets r sighash (wd, p)
  end.

(** The container after the wallets and the keystore have signed. *)
Definition signed (wallets : list (option W * Z)) (sighash : option Z)
           (st : world * psbt) : world * psbt :=
  let '(wd, p) := sign_with_wallets wallets sighash st in
  (wd, keystore_sign_psbt p sighash).

(** The bytes of the reply, in the encoding of the request. *)
Definition encode_result (enc : encoding) (out_psbt : psbt) : string :=
  match enc with
  | BASE64_STREAM => strip (b2a_base64 (serialize out_psbt))
  | RAW_STREAM => serialize out_psbt
  end.

(** The signing step, from [sigsStart = 0] to the end of the method. *)
Definition signing_step (enc : encoding) (wallets : list (option W * Z))
           (sighash : option Z) (st : world * psbt) : world * result string :=
  let sigsStart := count_sigs (snd st) in
  let '(wd, p) := signed wallets sighash st in
  let out_psbt := minimal p in
  let sigsEnd := count_sigs p in
  if Nat.eqb sigsEnd sigsStart then (wd, Raise (WalletError NO_SIGNATURES))
  else (wd, Ok (encode_result enc out_psbt)).

(** *** The whole method

    The pipeline threads the manager (label map), the storage and the
    wallets' own state, and may raise at any step: a small state and
    exception monad. *)

Record pstate : Type := PState {
  mgr : Assets.manager;
  store : gmap string string;
  wstate : world
}.

Definition M (A : Type) : Type := pstate -> pstate * result A.
Definition ret {A} (a : A) : M A := fun st => (st, Ok a).
Definition lift {A} (r : result A) : M A := fun st => (st, r).
Definition bindM {A B} (m : M A) (k : A -> M B) : M B :=
  fun st => match m st with
            | (st', Ok a) => k a st'
            | (st', Raise e) => (st', Raise e)
            end.
Definition get : M pstate := fun st => (st, Ok st).
Definition put (st : pstate) : M unit := fun _ => (st, Ok tt).

Notation "'do!' x <- m ; k" := (bindM m (fun x => k))
  (at level 10, x name, m at level 100, k at level 200).
Notation "'do!' ' pat <- m ; k" :=
  (bindM m (fun x => match x with pat => k end))
  (at level 10, pat pattern, m at level 100, k at level 200).

(** Matching collaborators. *)
Variable psbt_utxo : psbt_input -> txout.
Variable psbt_fee : psbt -> Z.
Variable pubkey_parse : string -> string.
Variable liquid_address : string -> string -> string -> string.
Variable script_address : string -> string -> option string.
Variable self_wallets : list W.
(** Storage collaborators of [save_assets]. *)
Variable json_dumps : gmap string string -> string.
Variable aead_seal : string -> string -> string.

(** The user interface: one answer per screen. *)
Variable ui_custom_sighash : string -> string -> bool.
Variable ui_label_assets : bool.
Variable ui_asset_label : string -> option string.
Variable ui_unknown_wallet : bool.
Variable ui_transaction : string -> meta -> bool.
(** ['%.8f BTC\nfrom "%s"' % (amount / 1e8, name)] *)
Variable format_spend : Z -> string -> string.

Definition run_parse_psbt (m : Assets.manager) (p : psbt)
  : result (list (option W * Z) * meta) :=
  parse_psbt psbt_utxo psbt_fee is_liquid pubkey_parse liquid_address
             script_address self_wallets (Assets.assets m) (Assets.network m) p.

(** The custom-sighash screen.  The outer [None] is the early [return]; the
    inner option is the sighash handed to the signers ([None] after "Sign
    anyway"). *)
Definition custom_choice (sighash : Z) (custom : list (nat * Z))
           (n_inputs : nat) : result (option (option Z)) :=
  if (0 <? length custom)%nat then
    try! txt <- custom_lines custom;
    try! canceltxt <-
      (if negb (length custom =? n_inputs)%nat
       then try! n <- Sighash.sighash_name sighash; Ok ("Only sign " +:+ n)
       else Ok "Cancel");
    if ui_custom_sighash
         (nl +:+ "Custom SIGHASH flags are used!" +:+ nl +:+ nl +:+ join nl txt)
         canceltxt
    then Ok (Some None)
    else if (length custom =? n_inputs)%nat then Ok None
         else Ok (Some (Some sighash))
  else Ok (Some (Some sighash)).

(** The labelling loop; [false] when the user cancels an input screen. *)
Fixpoint label_loop (l : list string) (a : gmap string string)
  : gmap string string * bool :=
  match l with
  | [] => (a, true)
  | asset :: r =>
      match ui_asset_label (Assets.hexlify (Assets.str_rev asset)) with
      | None => (a, false)
      | Some lbl => label_loop r (<[asset := lbl]> a)
      end
  end.

Definition label_unknown (p : psbt) (wm : list (option W * Z) * meta)
  : M (option (list (option W * Z) * meta)) :=
  if (0 <? length (m_unknown_assets (snd wm)))%nat && ui_label_assets then
    do! st <- get;
    let '(a, finished) :=
      label_loop (m_unknown_assets (snd wm)) (Assets.assets (mgr st)) in
    let m' := Assets.set_assets (mgr st) a in
    if finished then
      do! _ <- put (PState m' (Assets.save_assets json_dumps aead_seal m' (store st))
                           (wstate st));
      do! wm' <- lift (run_parse_psbt m' p);
      ret (Some wm')
    else
      do! _ <- put (PState m' (store st) (wstate st));
      ret None
  else ret (Some wm).

Definition spend_line (wa : option W * Z) : string :=
  format_spend (snd wa)
    (match fst wa with None => "Unknown wallet" | Some w => w_name w end).

Definition sign_psbt (s : stream) (enc : encoding) : M (option string) :=
  do! st <- get;
  let liquid := is_liquid (Assets.network (mgr st)) in
  let sighash := default_sighash liquid in
  do! p <- lift (decode liquid enc s);
  do! p <- lift (psbt_verify p);
  do! custom_sighashes <- lift (scan_inputs sighash 0 (inputs p) []);
  do! choice <- lift (custom_choice sighash custom_sighashes (length (inputs p)));
  match choice with
  | None => ret None
  | Some sighash =>
      do! wm <- lift (run_parse_psbt (mgr st) p);
      do! wm <- label_unknown p wm;
      match wm with
      | None => ret None
      | Some (wallets, meta) =>
          if bool_decide (None ∈ (fst <$> wallets)) && negb ui_unknown_wallet
          then ret None
          else
            let title := "Spending:" +:+ nl +:+ join nl (map spend_line wallets) in
            if ui_transaction title meta then
              do! p <- lift (if liquid then finalize p else Ok p);
              do! st <- get;
              let '(wd, r) := signing_step enc wallets sighash (wstate st, p) in
              do! _ <- put (PState (mgr st) (store st) wd);
              do! txt <- lift r;
              ret (Some txt)
            else ret None
      end
  end.

End Pipeline.

End Signing.

(** ** WalletStore: the wallets of the manager and their folders *)

Module Store.

Import Matcher Signing.

(** [name.isdigit()] as MicroPython has it ([os.ilistdir] is
    MicroPython's): a non-empty name of ASCII decimal digits. *)
Definition is_digit (c : ascii) : bool :=
  let n := N_of_ascii c in (48 <=? n)%N && (n <=? 57)%N.

Fixpoint all_digits (s : string) : bool :=
  match s with
  | EmptyString => true
  | String c r => is_digit c && all_digits r
  end.

Definition isdigit (s : string) : bool :=
  match s with
  | EmptyString => false
  | _ => all_digits s
  end.

(** [int(name)] on a name of decimal digits. *)
Fixpoint int_from (acc : N) (s : string) : N :=
  match s with
  | EmptyString => acc
  | String c r => int_from (10 * acc + (N_of_ascii c - 48)) r
  end.

Definition int_of (s : string) : N := int_from 0 s.

(** The type tag of a directory in the entries of [os.ilistdir]: [0x4000]. *)
Definition S_IFDIR : Z := 16384.

(** [sorted([int(f[0]) for f in os.ilistdir(path)
             if f[0].isdigit() and f[1] == 0x4000])] *)
Definition wallet_ids (entries : list (string * Z)) : list N :=
  merge_sort N.le
    (map (fun f => int_of (fst f))
         (List.filter (fun f => isdigit (fst f) && (snd f =? S_IFDIR)%Z)
                      entries)).

(** [max(l)] *)
Definition py_max (l : list N) : result N :=
  match l with
  | [] => Raise (ValueError "max() arg is an empty sequence")
  | x :: r => Ok (foldl N.max x r)
  end.

(** [path + ("/%d" % wid)] *)
Definition folder (path : string) (wid : N) : string :=
  path +:+ "/" +:+ dec wid.

(** The wallet class and the platform as the store uses them.  A value of
    [W] stands for a wallet object; what the objects and the file system
    hold is in [world]. *)
Class WalletFiles (W world : Type) : Type := {
  (** [Wallet.from_path(path, keystore)] *)
  from_path : string -> world -> world * result W;
  (** [w.save(keystore, path=path)] *)
  save_to : W -> string -> world -> world;
  (** [w.wipe()] *)
  wallet_wipe : W -> world -> world;
  (** [os.ilistdir(path)]: the name and the type tag of every entry *)
  ilistdir : string -> world -> result (list (string * Z));
  maybe_mkdir : string -> world -> world;
  (** [platform.delete_recursively(path, include_self=True)] *)
  delete_recursively : string -> world -> world
}.

(** The manager's list of wallets and the world around it. *)
Record state (W world : Type) : Type := State {
  wallets : list W;
  files : world
}.
Arguments State {W world} wallets files.
Arguments wallets {W world} s.
Arguments files {W world} s.

Section Store.
Context {W world K net : Type} `{EqDecision W} `{WalletFiles W world}.
(** [str(e)] *)
Variable exn_str : exn -> string.
(** [self.path] and [self.network] of an initialised manager. *)
Variable self_path : string.
Variable self_network : string.
(** [NETWORKS[name]] and the entry ["name"] of a network. *)
Variable NETWORKS : string -> option net.
Variable net_name : net -> string.
(** The wallet class: [Wallet.parse(desc)], [str(w.descriptor)],
    [w.check_network(net)] and [w.get_key_dicts(network)]. *)
Variable wallet_parse : string -> result W.
Variable descriptor_str : W -> string.
Variable check_network : W -> net -> bool.
Variable get_key_dicts : W -> string -> list K.
Variable keystore_owns : K -> bool.
(** The answers of the user to the warning about foreign keys and to the
    screen that shows the new wallet with its annotated keys. *)
Variable ui_foreign_keys : bool.
Variable ui_confirm_wallet : W -> list (K * bool) -> bool.

Definition load_wallet (path : string) (wd : world) : world * result W :=
  match from_path path wd with
  | (wd', Ok w) => (wd', Ok w)
  | (wd', Raise e) =>
      (delete_recursively path wd',
       Raise (WalletError ("Can't load wallet from " +:+ path +:+ nl +:+ nl
                           +:+ ":" +:+ exn_str e)))
  end.

(** [[self.load_wallet(self.path + ("/%d" % wid)) for wid in wallet_ids]] *)
Fixpoint load_each (ids : list N) (wd : world) : world * result (list W) :=
  match ids with
  | [] => (wd, Ok [])
  | wid :: r =>
      match load_wallet (folder self_path wid) wd with
      | (wd', Ok w) =>
          match load_each r wd' with
          | (wd'', Ok ws) => (wd'', Ok (w :: ws))
          | (wd'', Raise e) => (wd'', Raise e)
          end
      | (wd', Raise e) => (wd', Raise e)
      end
  end.

(** [load_wallets]: the bare [except] turns every failure into [[]]. *)
Definition load_wallets (wd : world) : world * list W :=
  let wd := maybe_mkdir self_path wd in
  match ilistdir self_path wd with
  | Raise _ => (wd, [])
  | Ok entries =>
      match load_each (wallet_ids entries) wd with
      | (wd', Ok ws) => (wd', ws)
      | (wd', Raise _) => (wd', [])
      end
  end.

Definition parse_wallet (desc : string) (ws : list W) : result W :=
  match wallet_parse desc with
  | Raise e =>
      Raise (WalletError ("Can't parse descriptor" +:+ nl +:+ nl +:+ exn_str e))
  | Ok w =>
      if bool_decide (descriptor_str w ∈ map descriptor_str ws)
      then Raise (WalletError "Wallet with this descriptor already exists")
      else
        match NETWORKS self_network with
        | None => Raise (KeyError (PStr self_network))
        | Some n =>
            if negb (check_network w n)
            then Raise (WalletError ("Some keys don't belong to the "
                                     +:+ net_name n +:+ " network!"))
            else Ok w
        end
  end.

(** The keys of a new wallet, each with its flag ["mine"]. *)
Definition annotated_keys (w : W) : list (K * bool) :=
  map (fun k => (k, keystore_owns k)) (get_key_dicts w self_network).

Definition confirm_new_wallet (w : W) : bool :=
  let keys := annotated_keys w in
  if negb (existsb snd keys) && negb ui_foreign_keys then false
  else ui_confirm_wallet w keys.

Definition add_wallet (w : W) (st : state W world)
  : state W world * result unit :=
  (* [self.wallets.append(w)] comes first *)
  let ws := wallets st ++ [w] in
  match ilistdir self_path (files st) with
  | Raise e => (State ws (files st), Raise e)
  | Ok entries =>
      match py_max (wallet_ids entries) with
      | Raise e => (State ws (files st), Raise e)
      | Ok m =>
          let newpath := folder self_path (m + 1) in
          (State ws (save_to w newpath (maybe_mkdir newpath (files st))),
           Ok tt)
      end
  end.

(** [w not in self.wallets] and [self.wallets.index(w)] compare wallet
    objects; here they compare the values of [W] that stand for them. *)
Definition delete_wallet (w : W) (st : state W world)
  : state W world * result unit :=
  if negb (bool_decide (w ∈ wallets st))
  then (st, Raise (WalletError "Wallet not found"))
  else (State (delete (index_of w (wallets st)) (wallets st))
              (wallet_wipe w (files st)),
        Ok tt).

(** The [ADD_WALLET] branch of [process_host_command], from the text of
    the request. *)
Definition add_wallet_command (payload : string) (st : state W world)
  : state W world * result unit :=
  let desc := strip payload in
  match parse_wallet desc (wallets st) with
  | Raise e => (st, Raise e)
  | Ok w =>
      if confirm_new_wallet w then add_wallet w st else (st, Ok tt)
  end.

End Store.

End Store.

(** ** AddressLookup: [find_wallet_from_address], [showaddr] and the
    requests that use them *)

Module Addresses.

(** [s.replace(pat, "")] for a non-empty [pat]: the occurrences are removed
    from left to right; [skip] counts the bytes of an occurrence that are
    still to be dropped. *)
Fixpoint remove_from (pat : string) (skip : nat) (s : string) : string :=
  match s with
  | EmptyString => EmptyString
  | String c r =>
      match skip with
      | S k => remove_from pat k r
      | O =>
          if startswith pat s
          then remove_from pat (String.length pat - 1) r
          else String c (remove_from pat 0 r)
      end
  end.

Definition remove_all (pat s : string) : string := remove_from pat 0 s.

Section Lookup.
Context {W D K Scr net : Type}.
Variable self_wallets : list W.
Variable self_network : string.
Variable keystore_fingerprint : string.
(** The address in [w.get_address(idx, network)] and in
    [w.get_address(idx, network, branch_idx)]. *)
Variable get_address : W -> Z -> string -> option Z -> result string.
(** [w.descriptor.check_derivation(DerivationPath(fingerprint, derivation))] *)
Variable check_derivation : W -> string * D -> option (Z * Z).
Variable parse_path : string -> result D.
Variable get_xpub : D -> result K.
Variable NETWORKS : string -> option net.
(** Scripts and their addresses. *)
Variable script_of : string -> Scr.
Variable p2wsh : Scr -> Scr.
Variable p2sh : Scr -> Scr.
Variable p2wpkh : K -> Scr.
Variable p2pkh : K -> Scr.
Variable address_of : Scr -> net -> string.
(** ["%s" % b] for a byte string [b], and [int(s)]. *)
Variable bytes_repr : string -> string.
Variable py_int : string -> result Z.

(** The first loop of [find_wallet_from_address]. *)
Fixpoint by_index (ws : list W) (addr : string) (index : Z)
  : result (option W) :=
  match ws with
  | [] => Ok None
  | w :: r =>
      try! a <- get_address w index self_network None;
      if String.eqb a addr then Ok (Some w) else by_index r addr index
  end.

(** The second loop. *)
Fixpoint by_path (ws : list W) (addr : string) (dp : string * D)
  : result (option (W * (Z * Z))) :=
  match ws with
  | [] => Ok None
  | w :: r =>
      match check_derivation w dp with
      | None => by_path r addr dp
      | Some (branch_idx, idx) =>
          try! a <- get_address w idx self_network (Some branch_idx);
          if String.eqb a addr then Ok (Some (w, (branch_idx, idx)))
          else by_path r addr dp
      end
  end.

(** The derivation path that the first path of a request stands for. *)
Definition derivation_path (p : string) : result (string * D) :=
  if negb (startswith "m" p) then
    try! fingerprint <- Assets.unhexlify (str_take 8 p);
    try! derivation <- parse_path ("m" +:+ str_drop 8 p);
    Ok (fingerprint, derivation)
  else
    try! derivation <- parse_path p;
    Ok (keystore_fingerprint, derivation).

Definition find_wallet_from_address (addr : string)
           (paths : option (list string)) (index : option Z)
  : result (W * (Z * Z)) :=
  try! found <-
    match index with
    | Some i =>
        try! r <- by_index self_wallets addr i;
        Ok (option_map (fun w => (w, (0%Z, i))) r)
    | None => Ok None
    end;
  match found with
  | Some r => Ok r
  | None =>
      try! found <-
        match paths with
        | Some [] => Raise IndexError
        | Some (p :: _) =>
            try! dp <- derivation_path p;
            by_path self_wallets addr dp
        | None => Ok None
        end;
      match found with
      | Some r => Ok r
      | None =>
          Raise (WalletError ("Can't find wallet owning address " +:+ addr))
      end
  end.

Definition unsupported (script_type : string) : exn :=
  WalletError ("Unsupported script type: " +:+ bytes_repr script_type).

(** [showaddr]: the address, and the wallet, the branch and the index of
    the screen that shows it. *)
Definition showaddr (paths : list string) (script_type : string)
           (redeem_script : option string)
  : result (string * (W * (Z * Z))) :=
  match NETWORKS self_network with
  | None => Raise (KeyError (PStr self_network))
  | Some n =>
      try! redeem <-
        match redeem_script with
        | Some r => try! b <- Assets.unhexlify r; Ok (Some (script_of b))
        | None => Ok None
        end;
      try! address <-
        match redeem with
        | Some rs =>
            if String.eqb script_type "wsh" then Ok (address_of (p2wsh rs) n)
            else if String.eqb script_type "sh-wsh"
            then Ok (address_of (p2sh (p2wsh rs)) n)
            else if String.eqb script_type "sh" then Ok (address_of (p2sh rs) n)
            else Raise (unsupported script_type)
        | None =>
            match paths with
            | [p] =>
                let path :=
                  if negb (startswith "m/" p) then "m" +:+ str_drop 8 p
                  else p in
                try! derivation <- parse_path path;
                try! pub <- get_xpub derivation;
                if String.eqb script_type "wpkh"
                then Ok (address_of (p2wpkh pub) n)
                else if String.eqb script_type "sh-wpkh"
                then Ok (address_of (p2sh (p2wpkh pub)) n)
                else if String.eqb script_type "pkh"
                then Ok (address_of (p2pkh pub) n)
                else Raise (unsupported script_type)
            | _ => Raise (WalletError "Invalid number of paths, expected 1")
            end
        end;
      try! found <- find_wallet_from_address address (Some paths) None;
      Ok (address, found)
  end.

(** The arguments of a [showaddr] request: the script type, the paths and
    the redeem script if there is one. *)
Definition derive_args (payload : string)
  : result (list string * string * option string) :=
  try! '(script_type, path, redeem_script) <-
    match Assets.split_on " "%char payload with
    | [a; b] => Ok (a, b, None)
    | [a; b; c] => Ok (a, b, Some c)
    | _ => Raise (WalletError "Too many arguments")
    end;
  let paths := Assets.split_on ","%char path in
  if (length paths =? 0)%nat
  then Raise (WalletError "Invalid path argument")
  else Ok (paths, script_type, redeem_script).

(** The [DERIVE_ADDRESS] branch of [process_host_command]. *)
Definition derive_address_command (payload : string)
  : result (string * (W * (Z * Z))) :=
  try! '(paths, script_type, redeem_script) <- derive_args payload;
  showaddr paths script_type redeem_script.

(** [for arg in args: if arg.startswith("index="): idx = int(arg[6:]); break] *)
Fixpoint first_index (args : list string) : result (option Z) :=
  match args with
  | [] => Ok None
  | arg :: r =>
      if startswith "index=" arg
      then try! i <- py_int (str_drop 6 arg); Ok (Some i)
      else first_index r
  end.

(** The [VERIFY_ADDRESS] branch: the wallet and the index of the screen
    that is shown. *)
Definition verify_address_command (payload : string)
  : result (W * option Z) :=
  let data := remove_all "bitcoin:" payload in
  if negb (contains "index=" data) || negb (contains "?" data)
  then Raise (WalletError "Can't verify address with unknown index")
  else
    match Assets.split_on "?"%char data with
    | [addr; rest] =>
        try! idx <- first_index (Assets.split_on "&"%char rest);
        try! found <- find_wallet_from_address addr None idx;
        Ok (fst found, idx)
    | _ => Raise (ValueError "too many values to unpack (expected 2)")
    end.

End Lookup.

End Addresses.

(** * Concrete collaborators and requests used to exercise the theorems *)

Module Examples.

Import Classifier.

(** A wallet descriptor as a host sends it to be imported. *)
Definition descriptor_text : string :=
  "Cold&wpkh([f00dbabe/84h/0h/0h]xpub6CUGRUonZSQ4TWtTMmzXdrXDtypWKiKrhko4egpiMZbpiaQL2jkwSB1icqYh2cfDfVxdx4df189oLKnC5fSwqPfgyP3hooxujYzAu3fDVmz/{0,1}/*)".

Definition descriptor_stream : stream := Stream descriptor_text 0.

(** A manager on a confidential network with the built-in label only. *)
Definition tBTC_key : string :=
  Assets.str_rev
    (match Assets.unhexlify
             "230164e2d3ff2c88cc0739e56a3501c979fe131fd07944e8a609323ef26c6918"
     with Ok b => b | Raise _ => "" end).

Definition manager0 : Assets.manager :=
  Assets.Manager "/flash/wallets" "0a1b2c3d" "userkey" "liquidv1"
                 (<[tBTC_key := "tBTC"]> ∅).

(** Stand-ins for the JSON codec and the keystore's sealing: the claims
    about the registry do not depend on what they compute. *)
Definition json_dumps0 (o : gmap string string) : string :=
  foldr (fun kv acc => fst kv +:+ ":" +:+ snd kv +:+ ";" +:+ acc) ""
        (map_to_list o).
Definition json_loads0 (s : string) : result (gmap string string) := Ok ∅.
Definition aead_seal0 (key plain : string) : string := key +:+ plain.
Definition aead_open0 (key sealed : string) : result (string * string) :=
  Ok ("", str_drop (String.length key) sealed).
Definition always_yes (hexasset lbl : string) : bool := true.

(** The payloads of two [addasset] requests: the same asset id, once in
    lowercase and once in uppercase hexadecimal. *)
Definition lbtc_hex : string :=
  "6f0279e9ed041c3d710a9f57d0c02928416460c4b722ae3457a11eec381c526d".
Definition lbtc_HEX : string :=
  "6F0279E9ED041C3D710A9F57D0C02928416460C4B722AE3457A11EEC381C526D".

(** *** A wallet runtime for the examples

    A wallet knows the scripts it can produce; the branch and the index of a
    script are the last two steps of the derivation path in its hints. *)
Record toy_wallet : Type := ToyWallet {
  toy_name : string;
  toy_scripts : list string;
  toy_gaps : list N;
  toy_keys : bool
}.

#[export] Instance toy_wallet_eq_dec : EqDecision toy_wallet.
Proof. solve_decision. Defined.

Definition toy_derivation (d : derivations) : nat * N :=
  match d with
  | (_, (_, path)) :: _ =>
      match rev path with
      | idx :: b :: _ => (N.to_nat b, idx)
      | _ => (0, 0%N)
      end
  | [] => (0, 0%N)
  end.

#[export] Instance toy_runtime : Wallet toy_wallet := {|
  w_name := toy_name;
  owns w utxo _ _ _ := bool_decide (script_pubkey utxo ∈ toy_scripts w);
  get_derivation _ d := toy_derivation d;
  gaps := toy_gaps;
  GAP_LIMIT _ := 20%N
|}.

(** A wallet signs the inputs it owns: one signature per input, under its
    own key.  The wallets of the examples keep no state of their own. *)
Definition toy_sign (utxo : psbt_input -> txout) (w : toy_wallet) (p : psbt)
  : psbt :=
  Psbt (map (fun inp =>
               if bool_decide (script_pubkey (utxo inp) ∈ toy_scripts w)
               then PsbtInput (is_verified inp) (witness_utxo inp)
                      (non_witness_utxo inp) (sighash_type inp)
                      (<["pub-" +:+ toy_name w := "sig"]> (partial_sigs inp))
                      (in_bip32_derivations inp) (in_witness_script inp)
                      (in_redeem_script inp) (in_value inp) (in_asset inp)
               else inp)
            (inputs p))
       (outputs p) (hash_outputs_rangeproofs p).

Definition psbt_utxo0 (inp : psbt_input) : txout :=
  match witness_utxo inp with Some u => u | None => TxOut 0 "" "" end.

#[export] Instance toy_signer : Signing.WalletSigner toy_wallet unit := {|
  Signing.update_gaps _ _ wd := wd;
  Signing.save _ wd := wd;
  Signing.fill_psbt _ p _ := p;
  Signing.has_private_keys := toy_keys;
  Signing.wallet_sign_psbt w p _ := toy_sign psbt_utxo0 w p
|}.

Definition psbt_fee0 (p : psbt) : Z :=
  (fold_right Z.add 0 (map in_value (inputs p))
   - fold_right Z.add 0 (map (fun o => tx_value (vout o)) (outputs p)))%Z.
Definition is_liquid0 (network : string) : bool :=
  startswith "liquid" network || startswith "elements" network.
Definition pubkey_parse0 (b : string) : string := b.
Definition liquid_address0 (script bpub network : string) : string :=
  "lq1" +:+ Assets.hexlify script.
Definition script_address0 (script network : string) : option string :=
  Some ("bc1" +:+ Assets.hexlify script).

(** Two wallets of the store. *)
Definition wallet_A : toy_wallet :=
  ToyWallet "Default" ["A/0/5"; "A/1/50"; "A/1/51"] [20; 20]%N true.
Definition wallet_B : toy_wallet :=
  ToyWallet "Savings" ["B/0/7"] [20; 20]%N false.

Definition hints (branch idx : N) : derivations :=
  [("pub", ("f00dbabe", [84; 0; 0; branch; idx]%N))].

Definition tBTC_asset : string := String "001"%char tBTC_key.

Definition spend (script : string) (branch idx : N) (amount : Z) : psbt_input :=
  PsbtInput false (Some (TxOut amount script tBTC_asset)) None None ∅
            (hints branch idx) None None amount tBTC_key.

Definition pay (script : string) (branch idx : N) (amount : Z) : psbt_output :=
  PsbtOutput (TxOut amount script tBTC_asset) (hints branch idx) None None
             (Some "blinding-key") ∅ None None None "" "" "" "".

Definition fee_output (amount : Z) : psbt_output :=
  PsbtOutput (TxOut amount "" tBTC_asset) [] None None None ∅ None None None
             "" "" "" "".

(** One input of the default wallet and two change outputs far beyond its
    gap limit. *)
Definition two_far_changes : psbt :=
  Psbt [spend "A/0/5" 0 5 1000]
       [pay "A/1/50" 1 50 400; pay "A/1/51" 1 51 500; fee_output 100]
       None.

(** Inputs of two different wallets of the store. *)
Definition mixed_inputs : psbt :=
  Psbt [spend "A/0/5" 0 5 1000; spend "B/0/7" 0 7 2000]
       [pay "A/1/50" 1 50 2900; fee_output 100]
       None.

Definition parse_psbt0 (store : list toy_wallet) (p : psbt)
  : result (list (option toy_wallet * Z) * Matcher.meta) :=
  Matcher.parse_psbt psbt_utxo0 psbt_fee0 is_liquid0 pubkey_parse0
                     liquid_address0 script_address0 store
                     (Assets.assets manager0) (Assets.network manager0) p.

(** Stand-ins for the codec, the container library, the crypto library and
    the keystore. *)
Definition serialize0 (p : psbt) : string :=
  "psbt:" +:+ dec (N.of_nat (Signing.count_sigs p)).
Definition b2a_base64_0 (s : string) : string := s +:+ Signing.nl.
Definition keystore_sign0 (p : psbt) (sighash : option Z) : psbt := p.
Definition compact0 (n : nat) : string := String (ascii_of_nat n) "".
Definition sha256_0 (s : string) : string := "H(" +:+ s +:+ ")".
Definition nonce_sec0 (nonce : string) : string := "G*" +:+ nonce.
Definition ecdh_point0 (bpub : option string) (nonce : string) : string :=
  match bpub with Some b => b | None => "" end +:+ "*" +:+ nonce.
Definition rangeproof_sign0
  (nonce : string) (value : Z) (commit vbf asset_msg script gen : string)
  : string := "rangeproof(" +:+ decZ value +:+ ")".

Definition finalize0 : psbt -> result psbt :=
  Signing.finalize compact0 sha256_0 nonce_sec0 ecdh_point0
                   (fun c => c) (fun g => g) rangeproof_sign0.

Definition signing_step0 :=
  Signing.signing_step (W := toy_wallet) (world := unit)
                       serialize0 b2a_base64_0 "f00dbabe" keystore_sign0.

(** A container that fails to parse: the library raises with the message
    of a wrong magic, with another message, or (a bare [assert]) with no
    argument at all. *)
Definition read_from_wrong_magic (liquid : bool) (s : stream) : result psbt :=
  Raise (ValueError Signing.INVALID_MAGIC).
Definition read_from_truncated (liquid : bool) (s : stream) : result psbt :=
  Raise (ValueError "Failed to read 32 bytes").
Definition read_from_assertion (liquid : bool) (s : stream) : result psbt :=
  Raise AssertionError.
Definition a2b_base64_stream0 (s : stream) : result string :=
  match Classifier.a2b_base64_std (fst (read_all s)) with
  | Some raw => Ok raw
  | None => Raise (ValueError "incorrect padding")
  end.

(** Inputs with a declared sighash type. *)
Definition spend_with (sh : option Z) : psbt_input :=
  PsbtInput false (Some (TxOut 1000 "A/0/5" tBTC_asset)) None sh ∅
            (hints 0 5) None None 1000 tBTC_key.

(** Confidential outputs: one to be blinded by the device (it carries the
    device nonce), one that arrives with its proofs. *)
Definition output_to_blind : psbt_output :=
  PsbtOutput (TxOut 400 "A/1/2" tBTC_asset) (hints 1 2) None None
             (Some "blinding-key") (<[Signing.NONCE_KEY := "nonce"]> ∅)
             None (Some "surjection") None "vc" "vbf" "ac" "abf".
Definition output_with_proofs : psbt_output :=
  PsbtOutput (TxOut 500 "X" tBTC_asset) [] None None
             (Some "blinding-key") ∅
             (Some "their-rangeproof") (Some "their-surjection") None
             "vc" "vbf" "ac" "abf".

Definition already_proved : psbt :=
  Psbt [spend "A/0/5" 0 5 1000]
       [output_to_blind; output_with_proofs; fee_output 100] None.

(** A transaction of the savings wallet, which holds no keys. *)
Definition watch_only_spend : psbt :=
  Psbt [spend "B/0/7" 0 7 2000] [fee_output 2000] None.

(** A toy container format for whole runs of the method: the magic, then
    one letter that selects one of the transactions of this module. *)
Definition read_from0 (liquid : bool) (s : stream) : result psbt :=
  let magic := if liquid then Classifier.PSET_MAGIC_std
               else Classifier.PSBT_MAGIC_std in
  let '(m, s') := read (String.length magic) s in
  if negb (String.eqb m magic) then Raise (ValueError Signing.INVALID_MAGIC)
  else
    match fst (read 1 s') with
    | "t" => Ok two_far_changes
    | "m" => Ok mixed_inputs
    | "w" => Ok watch_only_spend
    | "" => Raise AssertionError
    | _ => Raise (ValueError "Failed to read 32 bytes")
    end.

Definition psbt_verify0 (p : psbt) : result psbt := Ok p.
Definition format_spend0 (amount : Z) (name : string) : string :=
  decZ amount +:+ " sat from " +:+ name.

(** The method on a device whose user accepts every screen. *)
Definition sign_psbt0 (store : list toy_wallet)
  : stream -> Signing.encoding -> Signing.M (world := unit) (option string) :=
  Signing.sign_psbt (W := toy_wallet) (world := unit)
    is_liquid0 a2b_base64_stream0 read_from0 psbt_verify0 serialize0
    b2a_base64_0 compact0 sha256_0 nonce_sec0 ecdh_point0 (fun c => c)
    (fun g => g) rangeproof_sign0 "f00dbabe" keystore_sign0 psbt_utxo0
    psbt_fee0 pubkey_parse0 liquid_address0 script_address0 store
    json_dumps0 aead_seal0 (fun _ _ => true) true (fun _ => Some "LBL") true
    (fun _ _ => true) format_spend0.

Definition device0 (network : string) : Signing.pstate (world := unit) :=
  Signing.PState
    (Assets.Manager "/flash/wallets" "0a1b2c3d" "userkey" network
                    (Assets.assets manager0))
    ∅ tt.

Definition raw_request (liquid : bool) (body : string) : stream :=
  Stream ((if liquid then Classifier.PSET_MAGIC_std
           else Classifier.PSBT_MAGIC_std) +:+ body) 0.

(** The same descriptor under a name with a space: its first forty bytes
    do not decode. *)
Definition descriptor_stream' : stream :=
  Stream ("My wallet&wpkh([f00dbabe/84h/0h/0h]xpub6CUGRUonZSQ4TWtTMmzXdrXDtypWKiKrhko4egpiMZbpiaQL2jkwSB1icqYh2cfDfVxdx4df189oLKnC5fSwqPfgyP3hooxujYzAu3fDVmz/{0,1}/*)") 0.

(** A reader of command words: the bytes before the first space, the
    stream being left after that space; no word when there is no space. *)
Fixpoint take_word (s : string) : option string :=
  match s with
  | EmptyString => None
  | String c r =>
      if Ascii.eqb c " "%char then Some EmptyString
      else option_map (String c) (take_word r)
  end.

Definition word_prefix (s : stream) : option string * stream :=
  match take_word (fst (read_all s)) with
  | Some w => (Some w, Stream (s_data s) (s_pos s + String.length w + 1))
  | None => (None, s)
  end.

(** A label map with one more asset, the JSON codec of a storage that
    holds its dump, and a user who declines. *)
Definition lbtc_map : gmap string string :=
  <[Assets.str_rev
      (match Assets.unhexlify lbtc_hex with Ok b => b | Raise _ => "" end)
    := "L-BTC"]> ∅.
Definition json_loads1 (s : string) : result (gmap string string) :=
  Ok (Assets.assets_json_obj lbtc_map).
Definition always_no (hexasset lbl : string) : bool := false.

(** A transaction in an asset that the label map does not know, and one
    with an input whose sighash type has no name. *)
Definition lbtc_key : string :=
  Assets.str_rev
    (match Assets.unhexlify lbtc_hex with Ok b => b | Raise _ => "" end).
Definition lbtc_asset : string := String "001"%char lbtc_key.

Definition unlabelled_spend : psbt :=
  Psbt [PsbtInput false (Some (TxOut 700 "A/0/5" lbtc_asset)) None None ∅
                  (hints 0 5) None None 700 lbtc_key]
       [PsbtOutput (TxOut 600 "X" lbtc_asset) [] None None
                   (Some "blinding-key") ∅ None None None "" "" "" "";
        PsbtOutput (TxOut 100 "" lbtc_asset) [] None None None ∅ None None None
                   "" "" "" ""]
       None.

Definition unnamed_sighash_spend : psbt :=
  Psbt [spend "A/0/5" 0 5 1000; spend_with (Some 4%Z)] [fee_output 100] None.

(** More requests for whole runs of the method: an input without previous
    output, and a single input with the sighash type [NONE]. *)
Definition unverified_spend : psbt :=
  Psbt [spend "A/0/5" 0 5 1000;
        PsbtInput false None None None ∅ (hints 0 6) None None 500 tBTC_key]
       [fee_output 1500] None.

Definition custom_spend : psbt :=
  Psbt [spend_with (Some 2%Z)] [fee_output 1000] None.

Definition read_from1 (liquid : bool) (s : stream) : result psbt :=
  let magic := if liquid then Classifier.PSET_MAGIC_std
               else Classifier.PSBT_MAGIC_std in
  let '(m, s') := read (String.length magic) s in
  if negb (String.eqb m magic) then Raise (ValueError Signing.INVALID_MAGIC)
  else
    match fst (read 1 s') with
    | "t" => Ok two_far_changes
    | "u" => Ok unverified_spend
    | "c" => Ok custom_spend
    | "l" => Ok unlabelled_spend
    | _ => Raise (ValueError "Failed to read 32 bytes")
    end.

(** The method with the answers of the user as arguments: to the
    custom-sighash screen, to the offer to label, to each label screen, to
    the unknown-wallet screen and to the transaction screen. *)
Definition sign_psbt_ui (ui_custom : string -> string -> bool)
           (ui_label : bool) (ui_asset_label : string -> option string)
           (ui_unknown : bool) (ui_tx : string -> Matcher.meta -> bool)
  : stream -> Signing.encoding -> Signing.M (world := unit) (option string) :=
  Signing.sign_psbt (W := toy_wallet) (world := unit)
    is_liquid0 a2b_base64_stream0 read_from1 psbt_verify0 serialize0
    b2a_base64_0 compact0 sha256_0 nonce_sec0 ecdh_point0 (fun c => c)
    (fun g => g) rangeproof_sign0 "f00dbabe" keystore_sign0 psbt_utxo0
    psbt_fee0 pubkey_parse0 liquid_address0 script_address0
    [wallet_A; wallet_B] json_dumps0 aead_seal0 ui_custom ui_label
    ui_asset_label ui_unknown ui_tx format_spend0.

(** Confidential outputs that arrive without proofs and are not to be
    blinded by the device. *)
Definition unblinded_outputs : psbt :=
  Psbt [spend "A/0/5" 0 5 1000] [pay "X" 0 0 400; pay "Y" 0 0 500; fee_output 100]
       None.

(** A transaction with one output to blind. *)
Definition to_blind : psbt :=
  Psbt [spend "A/0/5" 0 5 1000] [output_to_blind; fee_output 600] None.

(** *** A wallet directory for the examples

    Every entry of the directory has a name, a type tag and, if its content
    can be read, the wallet stored in it. *)
Definition toy_root : string := "/flash/wallets/f00dbabe/main".
Definition toy_dir : Type := list (string * Z * option toy_wallet).
Definition entry_path (e : string * Z * option toy_wallet) : string :=
  toy_root +:+ "/" +:+ fst (fst e).

#[export] Instance toy_files : Store.WalletFiles toy_wallet toy_dir := {|
  Store.from_path path d :=
    (d, match List.find (fun e => String.eqb (entry_path e) path) d with
        | Some (_, _, Some w) => Ok w
        | _ => Raise (ValueError "corrupted wallet file")
        end);
  Store.save_to w path d :=
    d ++ [(str_drop (String.length toy_root + 1) path, Store.S_IFDIR, Some w)];
  Store.wallet_wipe w d :=
    List.filter (fun e => negb (bool_decide (snd e = Some w))) d;
  Store.ilistdir path d := Ok (map fst d);
  Store.maybe_mkdir path d := d;
  Store.delete_recursively path d :=
    List.filter (fun e => negb (String.eqb (entry_path e) path)) d
|}.

Definition healthy_dir : toy_dir :=
  [("1", Store.S_IFDIR, Some wallet_B); ("notes.txt", 32768%Z, None);
   ("0", Store.S_IFDIR, Some wallet_A)].
Definition damaged_dir : toy_dir :=
  [("2", Store.S_IFDIR, Some wallet_B); ("0", Store.S_IFDIR, Some wallet_A);
   ("1", Store.S_IFDIR, None)].
Definition bare_dir : toy_dir := [("notes.txt", 32768%Z, None)].

(** A wallet class for the examples: the text of a descriptor is a name,
    the separator and one script. *)
Definition toy_parse (desc : string) : result toy_wallet :=
  match Assets.split_on "&"%char desc with
  | [name; d] => Ok (ToyWallet name [d] [20; 20]%N false)
  | _ => Raise (ValueError "invalid descriptor")
  end.
Definition toy_descriptor (w : toy_wallet) : string :=
  match toy_scripts w with
  | d :: _ => d
  | [] => ""
  end.
Definition exn_str0 (e : exn) : string :=
  match exn_args e with
  | PStr s :: _ => s
  | _ => ""
  end.
Definition NETWORKS0 (name : string) : option string :=
  if String.eqb name "main" || String.eqb name "liquidv1" then Some name
  else None.
Definition keys_of (w : toy_wallet) (network : string) : list string :=
  toy_scripts w.
Definition owns_key0 (k : string) : bool := startswith "A/" k.

Definition add_wallet_command0 (ui_foreign : bool)
           (ui_confirm : toy_wallet -> list (string * bool) -> bool)
  : string -> Store.state toy_wallet toy_dir
    -> Store.state toy_wallet toy_dir * result unit :=
  Store.add_wallet_command exn_str0 toy_root "main" NETWORKS0 (fun n => n)
                           toy_parse toy_descriptor (fun _ _ => true) keys_of
                           owns_key0 ui_foreign ui_confirm.

(** Addresses for the examples: a wallet with keys recognises one
    derivation, and its address at a branch and an index is a text with its
    name. *)
Definition toy_address (w : toy_wallet) (idx : Z) (network : string)
           (branch : option Z) : result string :=
  Ok ("wpkh(" +:+ toy_name w +:+ "/" +:+ decZ (default 0%Z branch) +:+ "/"
      +:+ decZ idx +:+ ")").
Definition toy_check (w : toy_wallet) (dp : string * string)
  : option (Z * Z) :=
  if toy_keys w && String.eqb (snd dp) "m/84h/0h/0h/0/5"
  then Some (0%Z, 5%Z) else None.
Definition toy_parse_path (p : string) : result string :=
  if startswith "m" p then Ok p else Raise (ValueError "invalid path").
Definition toy_xpub (d : string) : result string := Ok "Default/0/5".
Definition py_int0 (s : string) : result Z :=
  if Store.isdigit s then Ok (Z.of_N (Store.int_of s))
  else Raise (ValueError "invalid syntax for integer").

Definition find_wallet0
  : string -> option (list string) -> option Z
    -> result (toy_wallet * (Z * Z)) :=
  Addresses.find_wallet_from_address [wallet_B; wallet_A] "main" "f00dbabe"
                                     toy_address toy_check toy_parse_path.

Definition derive_address_command0
  : string -> result (string * (toy_wallet * (Z * Z))) :=
  Addresses.derive_address_command
    [wallet_B; wallet_A] "main" "f00dbabe" toy_address toy_check
    toy_parse_path toy_xpub NETWORKS0 (fun b => b)
    (fun s => "wsh(" +:+ s +:+ ")") (fun s => "sh(" +:+ s +:+ ")")
    (fun k => "wpkh(" +:+ k +:+ ")") (fun k => "pkh(" +:+ k +:+ ")")
    (fun s n => s) (fun b => "b'" +:+ b +:+ "'").

Definition verify_address_command0 : string -> result (toy_wallet * option Z) :=
  Addresses.verify_address_command [wallet_B; wallet_A] "main" "f00dbabe"
                                   toy_address toy_check toy_parse_path
                                   py_int0.

(** The classifier of a device on a confidential network. *)
Definition parse_stream_liquid
  : stream -> option Classifier.command * option stream :=
  Classifier.parse_stream word_prefix is_liquid0 Classifier.a2b_base64_std
    Classifier.PSBT_MAGIC_std Classifier.PSET_MAGIC_std "liquidv1".

End Examples.

(** * Properties of the classifier *)

Module ClassifierSpec.

Import Classifier Examples.

Lemma seek_read_rewinds n s : seek 0 (snd (read n s)) = Stream (s_data s) 0.
Proof. reflexivity. Qed.

Section Facts.
Variable get_prefix : stream -> option string * stream.
Variable is_liquid : string -> bool.
Variable a2b_base64 : string -> option string.
Variables PSBT_MAGIC PSET_MAGIC network : string.

Abbreviation classify := (parse_stream get_prefix is_liquid a2b_base64
                                   PSBT_MAGIC PSET_MAGIC network).

(** Whenever the leading bytes decode, the separator guess is never
    tried: the answer is [SIGN_PSBT] or nothing. *)
Lemma parse_stream_decoded s s1 d :
  get_prefix s = (None, s1) ->
  String.eqb (str_take 9 (fst (read 40 s1))) "UR:BYTES/" = false ->
  a2b_base64 (fst (read 40 s1)) = Some d ->
  fst (classify s) = Some SIGN_PSBT \/ classify s = (None, None).
Proof.
  intros Hp Hur Hd. unfold classify, parse_stream. rewrite Hp.
  destruct (read 40 s1) as [data s2] eqn:Hr. cbn [fst snd] in Hur, Hd.
  rewrite Hur, Hd.
  destruct (negb _); [right | left]; reflexivity.
Qed.

(** A stream in which the prefix reader finds no command word, whose
    leading bytes are not the envelope magic, on which base64 decoding
    fails, and whose leading bytes contain the separator [&] but no [?], is
    classified as [ADD_WALLET], and the stream handed back is the same
    stream at position 0. *)
Lemma parse_stream_add_wallet_when_decoding_fails s s1 :
  get_prefix s = (None, s1) ->
  str_take 9 (fst (read 40 s1)) <> "UR:BYTES/" ->
  a2b_base64 (fst (read 40 s1)) = None ->
  contains "&" (fst (read 40 s1)) = true ->
  contains "?" (fst (read 40 s1)) = false ->
  classify s = (Some ADD_WALLET, Some (Stream (s_data s1) 0)).
Proof.
  intros Hp Hur Hd Hamp Hq. unfold classify, parse_stream. rewrite Hp.
  rewrite <- (seek_read_rewinds 40 s1).
  destruct (read 40 s1) as [data s2] eqn:Hr. cbn [fst snd] in *.
  apply String.eqb_neq in Hur. rewrite Hur, Hd, Hamp, Hq. reflexivity.
Qed.

(** C8 (violated by the code): a stream without command word whose leading
    bytes are not the envelope magic, contain the separator [&] and no [?],
    and do not decode to a container magic is not always classified as
    [ADD_WALLET].  When the leading bytes decode at all (the decoder skips
    the characters outside its alphabet), the [return None, None] inside
    the [try] ends the classification: the separator test after it is
    never reached, and the answer is no command. *)
Theorem parse_stream_drops_decodable_descriptor s s1 raw :
  get_prefix s = (None, s1) ->
  str_take 9 (fst (read 40 s1)) <> "UR:BYTES/" ->
  a2b_base64 (fst (read 40 s1)) = Some raw ->
  str_take (String.length PSBT_MAGIC) raw <> PSBT_MAGIC ->
  str_take (String.length PSBT_MAGIC) raw <> PSET_MAGIC ->
  contains "&" (fst (read 40 s1)) = true ->
  contains "?" (fst (read 40 s1)) = false ->
  parse_stream get_prefix is_liquid a2b_base64 PSBT_MAGIC PSET_MAGIC network s
  = (None, None).
Proof.
  intros Hp Hur Hd Hm1 Hm2 _ _. unfold parse_stream. rewrite Hp.
  destruct (read 40 s1) as [data s2] eqn:Hr. cbn [fst snd] in *.
  apply String.eqb_neq in Hur, Hm1, Hm2. rewrite Hur, Hd, Hm1, Hm2.
  reflexivity.
Qed.

End Facts.

(** The descriptor of the examples, as a host sends it without command
    word: the prefix reader finds no word, 36 of the first 40 bytes are in
    the alphabet of the decoder, and they decode to 27 bytes that are no
    container magic. *)
Lemma parse_stream_drops_decodable_descriptor_witness :
  parse_stream word_prefix is_liquid0 a2b_base64_std PSBT_MAGIC_std
               PSET_MAGIC_std "main" descriptor_stream = (None, None) /\
  fst (read 40 descriptor_stream) = "Cold&wpkh([f00dbabe/84h/0h/0h]xpub6CUGRU" /\
  contains "&" (fst (read 40 descriptor_stream)) = true /\
  contains "?" (fst (read 40 descriptor_stream)) = false /\
  option_map String.length (a2b_base64_std (fst (read 40 descriptor_stream)))
  = Some 27.
Proof.
  assert (word_prefix descriptor_stream = (None, descriptor_stream)) as Hp
    by (vm_compute; reflexivity).
  assert (str_take 9 (fst (read 40 descriptor_stream)) <> "UR:BYTES/") as Hur
    by (vm_compute; discriminate).
  assert (contains "&" (fst (read 40 descriptor_stream)) = true) as Hamp
    by (vm_compute; reflexivity).
  assert (contains "?" (fst (read 40 descriptor_stream)) = false) as Hq
    by (vm_compute; reflexivity).
  destruct (a2b_base64_std (fst (read 40 descriptor_stream))) as [raw |] eqn:E;
    [| vm_compute in E; discriminate].
  assert (str_take (String.length PSBT_MAGIC_std) raw <> PSBT_MAGIC_std /\
          str_take (String.length PSBT_MAGIC_std) raw <> PSET_MAGIC_std /\
          String.length raw = 27) as (Hm1 & Hm2 & Hlen).
  { pose proof E as E'. vm_compute in E'. injection E' as <-.
    split; [| split]; vm_compute; (discriminate || reflexivity). }
  split; [| split; [vm_compute; reflexivity |]].
  - exact (parse_stream_drops_decodable_descriptor
             word_prefix is_liquid0 a2b_base64_std PSBT_MAGIC_std
             PSET_MAGIC_std "main" descriptor_stream descriptor_stream raw
             Hp Hur E Hm1 Hm2 Hamp Hq).
  - split; [exact Hamp |]. split; [exact Hq |]. cbn [option_map].
    now rewrite Hlen.
Defined.

(** A descriptor whose name has a character outside the alphabet of the
    decoder does not decode and is recognised. *)
Example parse_stream_hyphenated_descriptor :
  fst (parse_stream word_prefix is_liquid0 a2b_base64_std PSBT_MAGIC_std
                    PSET_MAGIC_std "main"
                    (Stream "Cold-1&wpkh([f00dbabe/84h/0h/0h]xpub6CUGRUonZSQ4TWtTMmzXdrXDtypWKiKrhko4egpiMZbpiaQL2jkwSB1icqYh2cfDfVxdx4df189oLKnC5fSwqPfgyP3hooxujYzAu3fDVmz/{0,1}/*)" 0))
  = Some ADD_WALLET.
Proof. vm_compute. reflexivity. Qed.

End ClassifierSpec.

(** * Properties of the asset registry *)

Module AssetsSpec.

Import Assets Examples.

(** ** Hexadecimal encoding *)

Lemma hex_value_digit c x :
  hex_value c = Some x -> (x < 16)%N /\ hex_digit x = lower_ascii c.
Proof.
  destruct c as [[] [] [] [] [] [] [] []]; vm_compute;
    intros E; try discriminate; injection E as <-; split; reflexivity.
Qed.

Lemma hex_digit_value_high c :
  hex_value (hex_digit (N_of_ascii c / 16)) = Some (N_of_ascii c / 16)%N.
Proof. destruct c as [[] [] [] [] [] [] [] []]; reflexivity. Qed.

Lemma hex_digit_value_low c :
  hex_value (hex_digit (N_of_ascii c mod 16)) = Some (N_of_ascii c mod 16)%N.
Proof. destruct c as [[] [] [] [] [] [] [] []]; reflexivity. Qed.

Lemma byte_of_digits c :
  ascii_of_N (16 * (N_of_ascii c / 16) + N_of_ascii c mod 16) = c.
Proof. destruct c as [[] [] [] [] [] [] [] []]; reflexivity. Qed.

Lemma digits_of_byte x y :
  (x < 16)%N -> (y < 16)%N ->
  N_of_ascii (ascii_of_N (16 * x + y)) = (16 * x + y)%N.
Proof. intros. apply N_ascii_embedding. lia. Qed.

Lemma hexlify_length_even b : Nat.odd (String.length (hexlify b)) = false.
Proof. induction b as [| c r IH]; [reflexivity | exact IH]. Qed.

Lemma unhex_pairs_hexlify b : unhex_pairs (hexlify b) = Ok b.
Proof.
  induction b as [| c r IH]; [reflexivity |].
  cbn [hexlify unhex_pairs].
  rewrite hex_digit_value_high, hex_digit_value_low, IH.
  cbn [bind]. now rewrite byte_of_digits.
Qed.

(** [unhexlify] is a left inverse of [hexlify]. *)
Lemma unhexlify_hexlify b : unhexlify (hexlify b) = Ok b.
Proof.
  unfold unhexlify. now rewrite hexlify_length_even, unhex_pairs_hexlify.
Qed.

Lemma hexlify_inj b1 b2 : hexlify b1 = hexlify b2 -> b1 = b2.
Proof.
  intros E. pose proof (unhexlify_hexlify b1) as H1.
  rewrite E, unhexlify_hexlify in H1. congruence.
Qed.

(** Two characters at a time. *)
Lemma string_pair_ind (P : string -> Prop) :
  P "" -> (forall a, P (String a "")) ->
  (forall a b r, P r -> P (String a (String b r))) ->
  forall s, P s.
Proof.
  intros H0 H1 H2.
  assert (forall s, P s /\ forall a, P (String a s)) as H.
  { induction s as [| c r [IH1 IH2]]; split; auto. }
  intros s. apply H.
Qed.

Lemma hexlify_unhex_pairs h b : unhex_pairs h = Ok b -> hexlify b = lower h.
Proof.
  revert b. induction h as [| a | a c r IH] using string_pair_ind; intros b E.
  - injection E as <-. reflexivity.
  - discriminate.
  - cbn [unhex_pairs] in E.
    destruct (hex_value a) as [x |] eqn:Ea; [| discriminate].
    destruct (hex_value c) as [y |] eqn:Ec; [| discriminate].
    destruct (unhex_pairs r) as [t | e] eqn:Er; [| discriminate].
    cbn [bind] in E. injection E as <-.
    apply hex_value_digit in Ea as [Hx Ha], Ec as [Hy Hc].
    cbn [hexlify lower]. rewrite digits_of_byte by assumption.
    replace ((16 * x + y) / 16)%N with x
      by (apply N.div_unique with y; lia).
    replace ((16 * x + y) mod 16)%N with y
      by (apply N.mod_unique with x; lia).
    rewrite Ha, Hc, (IH t); reflexivity.
Qed.

(** Decoding and encoding again gives the lowercase form of the text. *)
Lemma hexlify_unhexlify h b : unhexlify h = Ok b -> hexlify b = lower h.
Proof.
  unfold unhexlify. destruct (Nat.odd (String.length h)); [discriminate |].
  apply hexlify_unhex_pairs.
Qed.

Lemma str_rev_involutive s : str_rev (str_rev s) = s.
Proof.
  unfold str_rev.
  rewrite list_ascii_of_string_of_list_ascii, rev_involutive.
  apply string_of_list_ascii_of_string.
Qed.

Lemma str_rev_inj s t : str_rev s = str_rev t -> s = t.
Proof.
  intros E. rewrite <- (str_rev_involutive s), E. apply str_rev_involutive.
Qed.

Lemma dump_key_inj k1 k2 :
  hexlify (str_rev k1) = hexlify (str_rev k2) -> k1 = k2.
Proof. intros E. apply str_rev_inj, hexlify_inj, E. Qed.

(** ** The loop of [assets_json] *)

Abbreviation dump_insert :=
  (fun (acc : gmap string string) (kv : string * string) =>
     <[hexlify (str_rev (fst kv)) := snd kv]> acc).

Lemma dump_loop_other (l : list (string * string)) (acc : gmap string string) k :
  k ∉ l.*1 ->
  foldl dump_insert acc l !! hexlify (str_rev k) = acc !! hexlify (str_rev k).
Proof.
  revert acc. induction l as [| [k0 v0] r IH]; intros acc Hk; [reflexivity |].
  cbn [foldl]. rewrite fmap_cons, not_elem_of_cons in Hk.
  destruct Hk as [Hne Hr]. rewrite IH by assumption.
  cbn [fst snd]. rewrite lookup_insert_ne; [reflexivity |].
  intros E. apply Hne. symmetry. apply dump_key_inj, E.
Qed.

Lemma dump_loop_found (l : list (string * string)) (acc : gmap string string) k v :
  NoDup l.*1 -> (k, v) ∈ l ->
  foldl dump_insert acc l !! hexlify (str_rev k) = Some v.
Proof.
  revert acc. induction l as [| [k0 v0] r IH]; intros acc Hnd Hin.
  - inversion Hin.
  - rewrite fmap_cons in Hnd. apply NoDup_cons in Hnd as [Hk0 Hnd].
    cbn [foldl]. apply elem_of_cons in Hin as [E | Hin].
    + injection E as -> ->. rewrite dump_loop_other by assumption.
      cbn [fst snd]. apply lookup_insert_eq.
    + apply IH; assumption.
Qed.

(** The object that is dumped has, under the reversed hexadecimal form of a
    key, exactly what the label map has under that key. *)
Lemma assets_json_obj_lookup (a : gmap string string) k :
  assets_json_obj a !! hexlify (str_rev k) = a !! k.
Proof.
  unfold assets_json_obj. destruct (a !! k) as [v |] eqn:E.
  - apply dump_loop_found; [apply NoDup_fst_map_to_list |].
    now apply elem_of_map_to_list.
  - rewrite dump_loop_other; [apply lookup_empty |].
    intros Hin. apply list_elem_of_fmap in Hin as [[k' v'] [-> Hin]].
    apply elem_of_map_to_list in Hin. cbn in E. congruence.
Qed.

(** ** The add and dump commands *)

Section Flows.
Variable json_dumps : gmap string string -> string.
Variable aead_seal : string -> string -> string.
Variable prompt_import : string -> string -> bool.

(** C9 (as amended): when an asset is imported through the add command
    (two words, the user accepts, the first word decodes as hexadecimal to
    the bytes [b]), the label is stored under the reversed bytes, and the
    object that the dump command serializes maps the lowercase form of the
    hexadecimal text to that very label; this key is the hexadecimal form of
    the stored key with its bytes reversed.  The text itself is the key
    exactly when it was written in lowercase. *)
Theorem add_asset_then_dump payload hexasset lbl b m fs :
  split_on " "%char payload = [hexasset; lbl] ->
  prompt_import hexasset lbl = true ->
  unhexlify hexasset = Ok b ->
  exists m' fs',
    add_asset_command json_dumps aead_seal prompt_import payload m fs
      = Ok (m', fs', "success") /\
    assets m' !! str_rev b = Some lbl /\
    dump_assets_command json_dumps m' = json_dumps (assets_json_obj (assets m')) /\
    assets_json_obj (assets m') !! lower hexasset = Some lbl /\
    lower hexasset = hexlify (str_rev (str_rev b)) /\
    (lower hexasset = hexasset ->
     assets_json_obj (assets m') !! hexasset = Some lbl).
Proof.
  intros Hsplit Hyes Hhex.
  unfold add_asset_command. rewrite Hsplit, Hyes, Hhex. cbn [bind].
  eexists _, _. split; [reflexivity |].
  assert (lower hexasset = hexlify (str_rev (str_rev b))) as Hkey.
  { rewrite str_rev_involutive. symmetry. now apply hexlify_unhexlify. }
  assert (assets_json_obj
            (assets (set_assets m (<[str_rev b := lbl]> (assets m))))
            !! lower hexasset = Some lbl) as Hdump.
  { rewrite Hkey, assets_json_obj_lookup. cbn [assets set_assets].
    apply lookup_insert_eq. }
  repeat split.
  - cbn [assets set_assets]. apply lookup_insert_eq.
  - exact Hdump.
  - exact Hkey.
  - intros <-. exact Hdump.
Qed.

End Flows.

(** The lowercase request comes back under the very text that was sent. *)
Lemma add_asset_then_dump_witness :
  exists m' fs',
    add_asset_command json_dumps0 aead_seal0 always_yes
                      (lbtc_hex +:+ " L-BTC") manager0 ∅
      = Ok (m', fs', "success") /\
    assets_json_obj (assets m') !! lbtc_hex = Some "L-BTC".
Proof.
  destruct (add_asset_then_dump json_dumps0 aead_seal0 always_yes
              (lbtc_hex +:+ " L-BTC") lbtc_hex "L-BTC"
              (match unhexlify lbtc_hex with Ok b => b | Raise _ => "" end)
              manager0 ∅)
    as (m' & fs' & Hrun & _ & _ & _ & _ & Hsame).
  - vm_compute. reflexivity.
  - reflexivity.
  - vm_compute. reflexivity.
  - exists m', fs'. split; [exact Hrun |]. apply Hsame. vm_compute. reflexivity.
Defined.

(** C9 (as stated) fails: an asset id sent in uppercase hexadecimal is
    imported, but the dump has no entry under the text that was sent; the
    label is found under its lowercase form. *)
Lemma uppercase_asset_is_dumped_in_lowercase :
  exists m' fs',
    add_asset_command json_dumps0 aead_seal0 always_yes
                      (lbtc_HEX +:+ " L-BTC") manager0 ∅
      = Ok (m', fs', "success") /\
    assets_json_obj (assets m') !! lbtc_HEX = None /\
    assets_json_obj (assets m') !! lbtc_hex = Some "L-BTC".
Proof.
  eexists _, _. split; [vm_compute; reflexivity |].
  split; vm_compute; reflexivity.
Qed.

(** ** Persistence *)

Lemma length_append s t :
  String.length (s +:+ t) = String.length s + String.length t.
Proof. induction s as [| c r IH]; simpl; [reflexivity | now f_equal]. Qed.

(** The two methods never build the same path. *)
Lemma save_path_ne_load_path m : save_assets_path m <> load_assets_path m.
Proof.
  intros E. apply (f_equal String.length) in E.
  unfold save_assets_path, load_assets_path in E.
  rewrite !length_append in E. cbn in E. lia.
Qed.

Lemma load_path_set_assets m a :
  load_assets_path (set_assets m a) = load_assets_path m.
Proof. reflexivity. Qed.

(** After a save on an empty storage, a load on the same root, uid, key
    and network finds no file. *)
Lemma load_after_save_finds_nothing
    (json_dumps : gmap string string -> string)
    (json_loads : string -> result (gmap string string))
    (aead_seal : string -> string -> string)
    (aead_open : string -> string -> result (string * string))
    (m : manager) (a0 : gmap string string) :
  file_exists (save_assets json_dumps aead_seal m ∅) (save_assets_path m) = true /\
  file_exists (save_assets json_dumps aead_seal m ∅) (load_assets_path m) = false /\
  load_assets json_loads aead_open (set_assets m a0)
              (save_assets json_dumps aead_seal m ∅)
  = Ok (set_assets m a0).
Proof.
  assert (file_exists (save_assets json_dumps aead_seal m ∅)
                      (load_assets_path m) = false) as Hnone.
  { unfold save_assets, file_exists.
    rewrite lookup_insert_ne by apply save_path_ne_load_path.
    rewrite lookup_empty. apply bool_decide_eq_false_2.
    intros [x Hx]. discriminate. }
  split; [| split; [exact Hnone |]].
  - unfold save_assets, file_exists. rewrite lookup_insert_eq.
    apply bool_decide_eq_true_2. eauto.
  - unfold load_assets. rewrite load_path_set_assets, Hnone. reflexivity.
Qed.

(** C10 (violated by the code): [save_assets] writes under
    [root/uid<uid>/<network>] while [load_assets] looks under
    [root/<uid>/<network>].  Starting from an empty storage, whatever label
    map is saved, the next [load_assets] of a manager with the same root,
    uid, key and network finds no file and restores nothing: its label map
    stays what it was. *)
Theorem saved_assets_are_not_restored
    (json_dumps : gmap string string -> string)
    (json_loads : string -> result (gmap string string))
    (aead_seal : string -> string -> string)
    (aead_open : string -> string -> result (string * string))
    (m : manager) (a0 : gmap string string) :
  save_assets_path m <> load_assets_path m /\
  load_assets json_loads aead_open (set_assets m a0)
              (save_assets json_dumps aead_seal m ∅)
  = Ok (set_assets m a0).
Proof.
  split; [apply save_path_ne_load_path |].
  apply load_after_save_finds_nothing.
Qed.

(** The same on a device: the label of L-BTC is saved and, after a restart
    with the built-in label map, it is not there. *)
Example lbtc_label_lost_after_restart :
  exists m' fs',
    add_asset_command json_dumps0 aead_seal0 always_yes
                      (lbtc_hex +:+ " L-BTC") manager0 ∅
      = Ok (m', fs', "success") /\
    file_exists fs' (save_assets_path manager0) = true /\
    file_exists fs' (load_assets_path manager0) = false /\
    load_assets json_loads0 aead_open0 manager0 fs' = Ok manager0.
Proof.
  destruct (unhexlify lbtc_hex) as [b | e] eqn:Hhex;
    [| vm_compute in Hhex; discriminate].
  exists (set_assets manager0 (<[str_rev b := "L-BTC"]> (assets manager0))),
    (save_assets json_dumps0 aead_seal0
       (set_assets manager0 (<[str_rev b := "L-BTC"]> (assets manager0))) ∅).
  split.
  - unfold add_asset_command.
    replace (split_on " "%char (lbtc_hex +:+ " L-BTC"))
      with [lbtc_hex; "L-BTC"] by (vm_compute; reflexivity).
    cbn [always_yes]. rewrite Hhex. reflexivity.
  - apply (load_after_save_finds_nothing json_dumps0 json_loads0 aead_seal0
             aead_open0
             (set_assets manager0 (<[str_rev b := "L-BTC"]> (assets manager0)))
             (assets manager0)).
Qed.

End AssetsSpec.


(** * Properties of the ownership matcher *)

Module MatcherSpec.

Import Matcher Examples.

Section GapBounds.
Context {W : Type} `{Wallet W}.
Variable psbt_utxo : psbt_input -> txout.

Abbreviation raise_gap' := (raise_gap psbt_utxo).
Abbreviation spends_from' := (spends_from psbt_utxo).
Abbreviation raised' := (raised psbt_utxo).
Abbreviation bound_after' := (bound_after psbt_utxo).

Lemma cell_insert_same (g : list (list N)) i gi gi' b :
  g !! i = Some gi -> cell (<[i := gi']> g) i b = gi' !! b.
Proof.
  intros Hg. unfold cell.
  rewrite list_lookup_insert_eq; [reflexivity |].
  now apply lookup_lt_Some in Hg.
Qed.

Lemma cell_insert_other (g : list (list N)) i j gi' b :
  i <> j -> cell (<[j := gi']> g) i b = cell g i b.
Proof. intros Hne. unfold cell. now rewrite list_lookup_insert_ne. Qed.

(** The wallet at position [j] only touches row [j]. *)
Lemma raise_gap_other inp j wj g g1 i b :
  raise_gap' inp j wj g = Ok g1 -> i <> j -> cell g1 i b = cell g i b.
Proof.
  intros Hr Hne. unfold raise_gap in Hr.
  destruct wj as [w |]; [| congruence].
  destruct (owns _ _ _ _ _); [| congruence].
  destruct (get_derivation _ _) as [br idx].
  destruct (g !! j) as [gj |]; [| discriminate].
  destruct (gj !! br) as [bound |]; [| discriminate].
  destruct (_ <? _)%N; injection Hr as <-; [| reflexivity].
  now apply cell_insert_other.
Qed.

(** On its own row, it replaces the bound by [raised]. *)
Lemma raise_gap_same inp j w g g1 b :
  raise_gap' inp j (Some w) g = Ok g1 ->
  cell g1 j b = raised' w b inp <$> cell g j b.
Proof.
  intros Hr. unfold raise_gap in Hr. unfold raised, spends_from.
  destruct (owns _ _ _ _ _).
  2:{ injection Hr as <-. now destruct (cell g j b). }
  destruct (get_derivation _ _) as [br idx].
  destruct (g !! j) as [gj |] eqn:Hgj; [| discriminate].
  destruct (gj !! br) as [bound |] eqn:Hb; [| discriminate].
  destruct (Nat.eqb_spec br b) as [-> | Hne].
  - destruct (N.ltb_spec bound (idx + GAP_LIMIT w)) as [Hlt | Hge];
      injection Hr as <-.
    + rewrite (cell_insert_same _ _ gj) by assumption.
      rewrite list_lookup_insert_eq by now apply lookup_lt_Some in Hb.
      unfold cell. rewrite Hgj, Hb. cbn. f_equal. lia.
    + unfold cell. rewrite Hgj, Hb. cbn. f_equal. lia.
  - destruct (_ <? _)%N; injection Hr as <-.
    + rewrite (cell_insert_same _ _ gj) by assumption.
      rewrite list_lookup_insert_ne by assumption.
      unfold cell. rewrite Hgj. now destruct (gj !! b).
    + now destruct (cell g j b).
Qed.

Lemma gap_wallets_cell inp ws :
  forall j g g1, gap_wallets psbt_utxo inp j ws g = Ok g1 ->
  forall i b,
    cell g1 i b =
    match (if decide (j <= i) then ws !! (i - j) else None) with
    | Some (Some w) => raised' w b inp <$> cell g i b
    | _ => cell g i b
    end.
Proof.
  induction ws as [| w0 r IH]; intros j g g1 Hrun i b.
  - injection Hrun as <-. now destruct (decide _).
  - cbn [gap_wallets] in Hrun.
    destruct (raise_gap' inp j w0 g) as [g0 | e] eqn:Hstep; [| discriminate].
    cbn [bind] in Hrun. rewrite (IH _ _ _ Hrun i b).
    destruct (decide (j <= i)) as [Hle | Hgt].
    + destruct (decide (i = j)) as [-> | Hne].
      * rewrite decide_False by lia. rewrite Nat.sub_diag. cbn [lookup list_lookup].
        destruct w0 as [w |].
        -- now apply raise_gap_same.
        -- cbn in Hstep. congruence.
      * rewrite decide_True by lia.
        replace (i - j) with (S (i - S j)) by lia. cbn [lookup list_lookup].
        rewrite (raise_gap_other _ _ _ _ _ _ _ Hstep Hne). reflexivity.
    + rewrite decide_False by lia.
      apply (raise_gap_other _ _ _ _ _ _ _ Hstep). lia.
Qed.

(** The whole loop computes [bound_after] in every row of a known
    wallet. *)
Lemma gap_pass_cell wallets i w b ins :
  wallets !! i = Some (Some w) ->
  forall g g', gap_pass psbt_utxo ins wallets g = Ok g' ->
  cell g' i b = bound_after' w b ins <$> cell g i b.
Proof.
  intros Hw. induction ins as [| inp r IH]; intros g g' Hrun.
  - injection Hrun as <-. now destruct (cell g i b).
  - cbn [gap_pass] in Hrun.
    destruct (gap_wallets psbt_utxo inp 0 wallets g) as [g0 | e] eqn:Hstep;
      [| discriminate].
    cbn [bind] in Hrun. rewrite (IH _ _ Hrun).
    rewrite (gap_wallets_cell _ _ _ _ _ Hstep i b).
    rewrite decide_True by lia. rewrite Nat.sub_0_r, Hw.
    now destruct (cell g i b).
Qed.

Lemma raised_ge w b inp v : (v <= raised' w b inp v)%N.
Proof. unfold raised. destruct (spends_from' w b inp); lia. Qed.

Lemma bound_after_cons w b inp r v :
  bound_after' w b (inp :: r) v = bound_after' w b r (raised' w b inp v).
Proof. reflexivity. Qed.

Lemma bound_after_ge w b ins : forall v, (v <= bound_after' w b ins v)%N.
Proof.
  induction ins as [| inp r IH]; intros v; [cbn; lia |].
  rewrite bound_after_cons.
  etransitivity; [apply (raised_ge w b inp) | apply IH].
Qed.

Lemma bound_after_mono w b ins :
  forall u v, (u <= v)%N -> (bound_after' w b ins u <= bound_after' w b ins v)%N.
Proof.
  induction ins as [| inp r IH]; intros u v Huv; [assumption |].
  rewrite !bound_after_cons.
  apply IH. unfold raised. destruct (spends_from' w b inp); lia.
Qed.

(** The bound ends at its start or at (index + gap limit) of an input. *)
Lemma bound_after_origin w b ins :
  forall v,
    bound_after' w b ins v = v \/
    exists inp idx, inp ∈ ins /\ spends_from' w b inp = Some idx /\
                    bound_after' w b ins v = (idx + GAP_LIMIT w)%N.
Proof.
  induction ins as [| inp r IH]; intros v; [now left |].
  rewrite bound_after_cons.
  destruct (IH (raised' w b inp v)) as [E | (inp' & idx & Hin & Hs & E)].
  - rewrite E. unfold raised.
    destruct (spends_from' w b inp) as [idx |] eqn:Hs; [| now left].
    destruct (N.max_spec v (idx + GAP_LIMIT w)) as [[_ ->] | [_ ->]];
      [right | now left].
    exists inp, idx. split; [left | now split].
  - right. exists inp', idx. split; [now right | now split].
Qed.

(** It covers every input of the wallet on that branch. *)
Lemma bound_after_covers w b ins :
  forall v inp idx,
    inp ∈ ins -> spends_from' w b inp = Some idx ->
    (idx + GAP_LIMIT w <= bound_after' w b ins v)%N.
Proof.
  induction ins as [| inp0 r IH]; intros v inp idx Hin Hs.
  - inversion Hin.
  - rewrite bound_after_cons. apply elem_of_cons in Hin as [-> | Hin].
    + etransitivity; [| apply bound_after_ge].
      unfold raised. rewrite Hs. lia.
    + now apply IH with inp.
Qed.

Lemma cell_initial_gaps (wallets : list (option W)) i w b :
  wallets !! i = Some (Some w) ->
  cell (initial_gaps wallets) i b = gaps w !! b.
Proof.
  intros Hw. unfold cell, initial_gaps.
  now rewrite list_lookup_fmap, Hw.
Qed.

(** C4: after the gap loop of [parse_psbt], the bound of every matched
    wallet on every branch is at least the wallet's persisted bound; it is
    either that bound or (index + gap limit) of an input of this transaction
    that the wallet owns on that branch, and it is at least (index + gap
    limit) for every such input: the bound is only ever raised, to the
    largest input index seen on the branch plus the gap limit. *)
Theorem effective_gap_bound_only_raised ins wallets g' i w b v :
  gap_pass psbt_utxo ins wallets (initial_gaps wallets) = Ok g' ->
  wallets !! i = Some (Some w) ->
  gaps w !! b = Some v ->
  exists v',
    cell g' i b = Some v' /\
    (v <= v')%N /\
    (v' = v \/
     exists inp idx, inp ∈ ins /\ spends_from' w b inp = Some idx /\
                     v' = (idx + GAP_LIMIT w)%N) /\
    (forall inp idx, inp ∈ ins -> spends_from' w b inp = Some idx ->
                     (idx + GAP_LIMIT w <= v')%N).
Proof.
  intros Hrun Hw Hv.
  exists (bound_after' w b ins v). split.
  - rewrite (gap_pass_cell _ _ _ b _ Hw _ _ Hrun).
    now rewrite (cell_initial_gaps _ _ _ _ Hw), Hv.
  - split; [apply bound_after_ge |].
    split; [apply bound_after_origin |].
    intros inp idx. apply bound_after_covers.
Qed.

(** *** The loop completes when the branches are in range *)

Lemma raise_gap_shape inp j wj g g1 :
  raise_gap' inp j wj g = Ok g1 -> length <$> g1 = length <$> g.
Proof.
  intros Hr. unfold raise_gap in Hr.
  destruct wj as [w |]; [| congruence].
  destruct (owns _ _ _ _ _); [| congruence].
  destruct (get_derivation _ _) as [br idx].
  destruct (g !! j) as [gj |] eqn:Hgj; [| discriminate].
  destruct (gj !! br) as [bound |]; [| discriminate].
  destruct (_ <? _)%N; injection Hr as <-; [| reflexivity].
  rewrite list_fmap_insert, length_insert.
  apply list_insert_id. now rewrite list_lookup_fmap, Hgj.
Qed.

Lemma raise_gap_total inp j (wallets : list (option W)) wj g :
  wallets !! j = Some wj ->
  length <$> g = length <$> initial_gaps wallets ->
  (forall w, wj = Some w ->
     owns w (psbt_utxo inp) (in_bip32_derivations inp)
          (script_or (in_witness_script inp) (in_redeem_script inp)) None = true ->
     (get_derivation w (in_bip32_derivations inp)).1 < length (gaps w)) ->
  exists g1, raise_gap' inp j wj g = Ok g1.
Proof.
  intros Hj Hshape Hrange. unfold raise_gap.
  destruct wj as [w |]; [| eauto].
  destruct (owns _ _ _ _ _) eqn:Hown; [| eauto].
  specialize (Hrange w eq_refl Hown).
  destruct (get_derivation _ _) as [br idx]. cbn [fst] in Hrange.
  assert ((length <$> g) !! j = Some (length (gaps w))) as Hrow.
  { rewrite Hshape. unfold initial_gaps.
    now rewrite !list_lookup_fmap, Hj. }
  rewrite list_lookup_fmap in Hrow.
  destruct (g !! j) as [gj |]; [| discriminate].
  injection Hrow as Hlen.
  destruct (lookup_lt_is_Some_2 gj br) as [bound ->]; [lia |].
  destruct (_ <? _)%N; eauto.
Qed.

Lemma gap_wallets_total inp (wallets : list (option W)) ws :
  forall j g,
    drop j wallets = ws ->
    length <$> g = length <$> initial_gaps wallets ->
    (forall w, Some w ∈ wallets ->
       owns w (psbt_utxo inp) (in_bip32_derivations inp)
            (script_or (in_witness_script inp) (in_redeem_script inp)) None = true ->
       (get_derivation w (in_bip32_derivations inp)).1 < length (gaps w)) ->
    exists g1, gap_wallets psbt_utxo inp j ws g = Ok g1 /\
               length <$> g1 = length <$> initial_gaps wallets.
Proof.
  induction ws as [| w0 r IH]; intros j g Hdrop Hshape Hrange.
  - exists g. now split.
  - assert (wallets !! j = Some w0) as Hj.
    { rewrite <- (Nat.add_0_r j), <- lookup_drop, Hdrop. reflexivity. }
    destruct (raise_gap_total inp j wallets w0 g Hj Hshape) as [g0 Hstep].
    { intros w -> Hown. apply Hrange; [| assumption].
      apply list_elem_of_lookup. eauto. }
    cbn [gap_wallets]. rewrite Hstep. cbn [bind].
    apply IH.
    + rewrite (drop_S _ _ _ Hj) in Hdrop. now injection Hdrop.
    + rewrite (raise_gap_shape _ _ _ _ _ Hstep). exact Hshape.
    + exact Hrange.
Qed.

Lemma gap_pass_total_from (wallets : list (option W)) ins :
  forall g,
    length <$> g = length <$> initial_gaps wallets ->
    branches_in_range psbt_utxo ins wallets ->
    exists g', gap_pass psbt_utxo ins wallets g = Ok g'.
Proof.
  induction ins as [| inp r IH]; intros g Hshape Hrange; [eexists; reflexivity |].
  destruct (gap_wallets_total inp wallets wallets 0 g eq_refl Hshape)
    as (g0 & Hstep & Hshape0).
  { intros w Hw Hown. apply Hrange; [left | |]; assumption. }
  cbn [gap_pass]. rewrite Hstep. cbn [bind].
  apply IH; [exact Hshape0 |].
  intros inp' w Hin. apply Hrange. now right.
Qed.

(** The gap loop of [parse_psbt] returns whenever the branches of the
    owned inputs are among those the wallets keep bounds for. *)
Lemma gap_pass_total ins (wallets : list (option W)) :
  branches_in_range psbt_utxo ins wallets ->
  exists g', gap_pass psbt_utxo ins wallets (initial_gaps wallets) = Ok g'.
Proof. intros Hrange. now apply gap_pass_total_from. Qed.

End GapBounds.

(** The default wallet spends index 5 of its receiving branch: the bound
    of that branch goes from 20 to 25. *)
Lemma effective_gap_bound_witness :
  exists v',
    cell [[25; 20]%N] 0 0 = Some v' /\
    (20 <= v')%N /\
    (v' = 20%N \/
     exists inp idx, inp ∈ inputs two_far_changes /\
                     spends_from psbt_utxo0 wallet_A 0 inp = Some idx /\
                     v' = (idx + GAP_LIMIT wallet_A)%N) /\
    (forall inp idx, inp ∈ inputs two_far_changes ->
                     spends_from psbt_utxo0 wallet_A 0 inp = Some idx ->
                     (idx + GAP_LIMIT wallet_A <= v')%N).
Proof.
  apply (effective_gap_bound_only_raised psbt_utxo0 (inputs two_far_changes)
           [Some wallet_A] [[25; 20]%N] 0 wallet_A 0 20%N).
  - vm_compute. reflexivity.
  - reflexivity.
  - reflexivity.
Defined.

Section Summary.
Context {W : Type} `{Wallet W}.
Variable psbt_utxo : psbt_input -> txout.
Variable psbt_fee : psbt -> Z.
Variable is_liquid : string -> bool.
Variable pubkey_parse : string -> string.
Variable liquid_address : string -> string -> string -> string.
Variable script_address : string -> string -> option string.
Variable self_wallets : list W.
Variable self_assets : gmap string string.
Variable self_network : string.

Abbreviation owner := (first_owner psbt_utxo self_wallets).
Abbreviation step := (input_step psbt_utxo is_liquid self_wallets self_assets
                                 self_network).
Abbreviation pass := (input_pass psbt_utxo is_liquid self_wallets self_assets
                                 self_network).
Abbreviation parse := (parse_psbt psbt_utxo psbt_fee is_liquid pubkey_parse
                                  liquid_address script_address self_wallets
                                  self_assets self_network).
Abbreviation meta0 := (initial_meta psbt_fee is_liquid pubkey_parse
                                    liquid_address script_address self_network).

Lemma fold_amount_elem (x : option W) v wa : x ∈ (fold_amount x v wa).1.
Proof.
  destruct wa as [ws am]. unfold fold_amount.
  case_bool_decide; cbn; [assumption |].
  apply elem_of_app. right. now left.
Qed.

Lemma fold_amount_mono (x y : option W) v wa :
  y ∈ wa.1 -> y ∈ (fold_amount x v wa).1.
Proof.
  destruct wa as [ws am]. unfold fold_amount. cbn. intros Hy.
  case_bool_decide; cbn; [assumption |].
  apply elem_of_app. now left.
Qed.

(** An input is folded into the bucket of its first owner. *)
Lemma input_step_bucket i inp wa m wa' m' :
  step i inp (wa, m) = Ok (wa', m') ->
  exists value, wa' = fold_amount (owner inp) value wa.
Proof.
  unfold input_step. intros Hs.
  destruct (Sighash.sighash_name _) as [n | e]; [| discriminate].
  cbn [bind] in Hs.
  destruct (owner inp) as [w |].
  - destruct (get_derivation w _) as [br idx]. injection Hs as <- _. eauto.
  - injection Hs as <- _. eauto.
Qed.

Lemma input_pass_buckets ins :
  forall i st st',
    pass i ins st = Ok st' ->
    (forall y, y ∈ st.1.1 -> y ∈ st'.1.1) /\
    (forall inp, inp ∈ ins -> owner inp ∈ st'.1.1).
Proof.
  induction ins as [| inp0 r IH]; intros i st st' Hrun.
  - injection Hrun as <-. split; [auto |]. intros inp Hin. inversion Hin.
  - cbn [input_pass] in Hrun.
    destruct (step i inp0 st) as [st1 | e] eqn:Hstep; [| discriminate].
    cbn [bind] in Hrun. destruct (IH _ _ _ Hrun) as [Hkeep Hall].
    destruct st as [wa m], st1 as [wa1 m1].
    destruct (input_step_bucket _ _ _ _ _ _ Hstep) as [value ->].
    split.
    + intros y Hy. apply Hkeep. now apply fold_amount_mono.
    + intros inp Hin. apply elem_of_cons in Hin as [-> | Hin].
      * apply Hkeep. apply fold_amount_elem.
      * now apply Hall.
Qed.

Lemma two_distinct_elements {A} (l : list A) x y :
  x ∈ l -> y ∈ l -> x <> y -> 1 < length l.
Proof.
  intros Hx Hy Hne. destruct l as [| a [| c r]]; cbn.
  - inversion Hx.
  - apply list_elem_of_singleton in Hx, Hy. congruence.
  - lia.
Qed.

(** With more than one bucket in the summary the method raises. *)
Lemma parse_psbt_two_buckets p wallets amounts m :
  pass 0 (inputs p) (([], []), meta0 p) = Ok ((wallets, amounts), m) ->
  1 < length wallets ->
  parse p = Raise (NameError "warnings").
Proof.
  intros Hrun Hlen. unfold parse_psbt. rewrite Hrun. cbn [bind].
  unfold input_warnings.
  apply Nat.ltb_lt in Hlen. rewrite Hlen. reflexivity.
Qed.

(** C5 (violated by the code): when two inputs of the transaction belong
    to two different wallets of the store, [parse_psbt] never returns a
    metadata object: once the inputs are matched it reaches
    [warnings.append("Mixed inputs!")], where [warnings] is an unbound name,
    and raises [NameError]. *)
Theorem mixed_inputs_raise_name_error p inp1 inp2 w1 w2 :
  inp1 ∈ inputs p -> inp2 ∈ inputs p ->
  owner inp1 = Some w1 -> owner inp2 = Some w2 -> w1 <> w2 ->
  (forall r, parse p <> Ok r) /\
  (forall st, pass 0 (inputs p) (([], []), meta0 p) = Ok st ->
              parse p = Raise (NameError "warnings")).
Proof.
  intros Hin1 Hin2 Ho1 Ho2 Hne.
  assert (forall st, pass 0 (inputs p) (([], []), meta0 p) = Ok st ->
                     parse p = Raise (NameError "warnings")) as Hraise.
  { intros [[wallets amounts] m] Hrun.
    apply (parse_psbt_two_buckets _ _ _ _ Hrun).
    destruct (input_pass_buckets _ _ _ _ Hrun) as [_ Hall].
    apply (two_distinct_elements _ (Some w1) (Some w2)).
    - rewrite <- Ho1. now apply Hall.
    - rewrite <- Ho2. now apply Hall.
    - congruence. }
  split; [| exact Hraise].
  intros r Hr.
  destruct (pass 0 (inputs p) (([], []), meta0 p)) as [st | e] eqn:Hrun.
  - rewrite (Hraise st eq_refl) in Hr. discriminate.
  - unfold parse_psbt in Hr. rewrite Hrun in Hr. discriminate.
Qed.

End Summary.

(** A transaction that spends from the default wallet and from the savings
    wallet. *)
Lemma mixed_inputs_witness :
  (forall r, parse_psbt0 [wallet_A; wallet_B] mixed_inputs <> Ok r) /\
  parse_psbt0 [wallet_A; wallet_B] mixed_inputs = Raise (NameError "warnings").
Proof.
  destruct (mixed_inputs_raise_name_error psbt_utxo0 psbt_fee0 is_liquid0
              pubkey_parse0 liquid_address0 script_address0
              [wallet_A; wallet_B] (Assets.assets manager0)
              (Assets.network manager0) mixed_inputs
              (spend "A/0/5" 0 5 1000) (spend "B/0/7" 0 7 2000)
              wallet_A wallet_B) as [Hnever Hraise].
  - left.
  - right. left.
  - reflexivity.
  - reflexivity.
  - discriminate.
  - split; [exact Hnever |]. eapply Hraise. vm_compute. reflexivity.
Defined.

(** C3 (violated by the code): the [break] after the gap-limit warning
    leaves the loop over the wallets only, so the loop over the outputs goes
    on.  A transaction of the default wallet with two change outputs beyond
    the gap limit gets two warnings of this type, one per output. *)
Theorem two_far_changes_two_gap_warnings :
  exists wallets m,
    parse_psbt0 [wallet_A; wallet_B] two_far_changes = Ok (wallets, m) /\
    gap_warnings m = ["Address index 50 is beyond the gap limit!";
                      "Address index 51 is beyond the gap limit!"] /\
    length (gap_warnings m) = 2.
Proof.
  eexists _, _. split; [vm_compute; reflexivity |].
  split; vm_compute; reflexivity.
Qed.

End MatcherSpec.

(** * Properties of the signing pipeline *)

Module SigningSpec.

Import Signing Examples.

(** ** Decoding *)

Section Decode.
Variable a2b_base64_stream : stream -> result string.
Variable read_from : bool -> stream -> result psbt.

Abbreviation decode' := (decode a2b_base64_stream read_from).

Abbreviation attempt' := (attempt a2b_base64_stream read_from).

Lemma decode_attempt liquid enc s :
  decode' liquid enc s =
  match attempt' liquid enc s with
  | Ok p => Ok p
  | Raise e => Raise (decode_handler liquid e)
  end.
Proof. reflexivity. Qed.

(** A wrong magic becomes the network-mismatch error, which names the other
    family. *)
Lemma decode_wrong_magic liquid enc s e rest :
  attempt' liquid enc s = Raise e ->
  exn_args e = PStr INVALID_MAGIC :: rest ->
  decode' liquid enc s
  = Raise (WalletError (switch_network_message liquid)) /\
  switch_network_message true
  = "Wrong transaction type! Switch to Bitcoin network to sign PSBT!" /\
  switch_network_message false
  = "Wrong transaction type! Switch to Liquid network to sign PSBT!".
Proof.
  intros Ha Hargs. rewrite decode_attempt, Ha. unfold decode_handler.
  rewrite Hargs. repeat split.
Qed.

(** A failure whose first argument is something else is raised again as it
    is. *)
Lemma decode_other_failure liquid enc s e a rest :
  attempt' liquid enc s = Raise e ->
  exn_args e = a :: rest -> a <> PStr INVALID_MAGIC ->
  decode' liquid enc s = Raise e.
Proof.
  intros Ha Hargs Hne. rewrite decode_attempt, Ha. unfold decode_handler.
  rewrite Hargs.
  destruct (pyarg_eqb a (PStr INVALID_MAGIC)) eqn:E; [| reflexivity].
  exfalso. apply Hne. destruct a as [t | z]; cbn in E; [| discriminate].
  apply String.eqb_eq in E. now subst.
Qed.

(** A failure raised without arguments is replaced: the handler evaluates
    [e.args[0]] on the empty tuple. *)
Lemma decode_failure_without_args liquid enc s e :
  attempt' liquid enc s = Raise e ->
  exn_args e = [] ->
  decode' liquid enc s = Raise IndexError.
Proof.
  intros Ha Hargs. rewrite decode_attempt, Ha. unfold decode_handler.
  now rewrite Hargs.
Qed.

End Decode.

Example decode_wrong_magic_on_plain_network :
  decode a2b_base64_stream0 read_from_wrong_magic false RAW_STREAM
         (Stream "pset" 0)
  = Raise (WalletError
             "Wrong transaction type! Switch to Liquid network to sign PSBT!").
Proof. reflexivity. Qed.

Example decode_truncated_propagates :
  decode a2b_base64_stream0 read_from_truncated false RAW_STREAM
         (Stream "psbt" 0)
  = Raise (ValueError "Failed to read 32 bytes").
Proof. reflexivity. Qed.

(** ** Sighash policy *)

Lemma default_sighash_values :
  default_sighash false = Sighash.ALL /\
  default_sighash true = Z.lor Sighash.ALL Sighash.RANGEPROOF /\
  default_sighash false = 1%Z /\ default_sighash true = 65%Z.
Proof. repeat split. Qed.

Lemma scan_inputs_spec sighash ins :
  forall k acc l,
    scan_inputs sighash k ins acc = Ok l ->
    forall i st,
      (i, st) ∈ l <->
      (i, st) ∈ acc \/ (k <= i /\ is_custom sighash (i - k) st ins).
Proof.
  induction ins as [| inp r IH]; intros k acc l Hrun i st.
  - injection Hrun as <-. split; [now left |].
    intros [Hin | [_ (inp & Hl & _)]]; [assumption | discriminate].
  - cbn [scan_inputs] in Hrun.
    destruct (negb (is_verified inp) && _ && _); [discriminate |].
    rewrite (IH _ _ _ Hrun i st). clear Hrun IH.
    assert (forall ix, S k <= ix ->
              (is_custom sighash (ix - S k) st r <->
               is_custom sighash (ix - k) st (inp :: r))) as Hshift.
    { intros ix Hix. unfold is_custom.
      replace (ix - k) with (S (ix - S k)) by lia. reflexivity. }
    assert (is_custom sighash 0 st (inp :: r) <->
            sighash_type inp = Some st /\ st <> 0%Z /\ st <> sighash) as Hhead.
    { unfold is_custom. cbn. split.
      - intros (x & E & Hx). injection E as <-. exact Hx.
      - intros Hx. now exists inp. }
    destruct (sighash_type inp) as [t |] eqn:Ht.
    + destruct (Z.eqb_spec t 0) as [Ht0 | Ht0];
        destruct (Z.eqb_spec t sighash) as [Hts | Hts]; cbn [negb andb].
      4:{ rewrite elem_of_app, list_elem_of_singleton. split.
          - intros [[Hin | E] | [Hle Hc]].
            + now left.
            + injection E as -> ->. right. split; [lia |].
              rewrite Nat.sub_diag. apply Hhead. auto.
            + right. split; [lia |]. now apply Hshift.
          - intros [Hin | [Hle Hc]]; [now left; left |].
            destruct (decide (i = k)) as [-> | Hne].
            + rewrite Nat.sub_diag in Hc. apply Hhead in Hc as (E & _).
              injection E as ->. left. now right.
            + right. split; [lia |]. apply Hshift; [lia | assumption]. }
      all: split;
        [ intros [Hin | [Hle Hc]];
          [now left | right; split; [lia |]; now apply Hshift]
        | intros [Hin | [Hle Hc]]; [now left |];
          destruct (decide (i = k)) as [-> | Hne];
          [ rewrite Nat.sub_diag in Hc; apply Hhead in Hc as (E & H0 & Hs);
            injection E as ->; congruence
          | right; split; [lia |]; apply Hshift; [lia | assumption] ] ].
    + split.
      * intros [Hin | [Hle Hc]];
          [now left | right; split; [lia |]; now apply Hshift].
      * intros [Hin | [Hle Hc]]; [now left |].
        destruct (decide (i = k)) as [-> | Hne].
        -- rewrite Nat.sub_diag in Hc. apply Hhead in Hc as (E & _).
           discriminate.
        -- right. split; [lia |]. apply Hshift; [lia | assumption].
Qed.

(** The lines of the warning: one per collected pair, in the order of
    the list, each with the position and the name of the type. *)
Lemma custom_lines_spec l :
  forall txt,
    custom_lines l = Ok txt ->
    Forall2 (fun c line =>
               exists n, Sighash.SIGHASH_NAMES !! snd c = Some n /\
                         line = "Input " +:+ dec (N.of_nat (fst c)) +:+ ": "
                                +:+ n)
            l txt.
Proof.
  induction l as [| [i sh] r IH]; intros txt Hrun.
  - injection Hrun as <-. constructor.
  - cbn [custom_lines] in Hrun. unfold Sighash.sighash_name in Hrun.
    destruct (Sighash.SIGHASH_NAMES !! sh) as [n |] eqn:Hn; [| discriminate].
    cbn [bind] in Hrun.
    destruct (custom_lines r) as [t |]; [| discriminate].
    cbn [bind] in Hrun. injection Hrun as <-.
    constructor; [exists n; split; [exact Hn | reflexivity] | now apply IH].
Qed.

(** A collected type without a name stops the building of the warning:
    [SIGHASH_NAMES[sh]] raises before any screen is shown, whatever the
    user would answer. *)
Lemma custom_lines_unnamed l :
  forall i sh,
    (i, sh) ∈ l -> Sighash.SIGHASH_NAMES !! sh = None ->
    exists sh', custom_lines l = Raise (KeyError (PInt sh')) /\
                Sighash.SIGHASH_NAMES !! sh' = None.
Proof.
  induction l as [| [j t] r IH]; intros i sh Hin Hn; [inversion Hin |].
  cbn [custom_lines]. unfold Sighash.sighash_name.
  destruct (Sighash.SIGHASH_NAMES !! t) as [n |] eqn:Ht.
  - apply elem_of_cons in Hin as [[= -> ->] | Hin]; [congruence |].
    destruct (IH _ _ Hin Hn) as (sh' & -> & Hn'). cbn [bind]. eauto.
  - exists t. split; [reflexivity | exact Ht].
Qed.

Lemma custom_choice_unnamed ui sighash l n i sh :
  (i, sh) ∈ l -> Sighash.SIGHASH_NAMES !! sh = None ->
  exists sh', custom_choice ui sighash l n = Raise (KeyError (PInt sh')) /\
              Sighash.SIGHASH_NAMES !! sh' = None.
Proof.
  intros Hin Hn. destruct (custom_lines_unnamed _ _ _ Hin Hn) as (sh' & E & Hn').
  exists sh'. split; [| exact Hn']. unfold custom_choice.
  destruct l; [inversion Hin |]. cbn [length Nat.ltb Nat.leb].
  now rewrite E.
Qed.

(** The type 4 is collected on a plain network and has no name: the
    method stops with [KeyError] and the user sees nothing. *)
Example unnamed_custom_sighash_raises :
  scan_inputs (default_sighash false) 0 [spend_with (Some 4%Z)] []
  = Ok [(0, 4%Z)] /\
  forall ui, custom_choice ui (default_sighash false) [(0, 4%Z)] 1
             = Raise (KeyError (PInt 4%Z)).
Proof. split; [reflexivity | intros ui; vm_compute; reflexivity]. Qed.

Lemma default_sighash_name liquid :
  Sighash.sighash_name (default_sighash liquid)
  = Ok (if liquid then "ALL | RANGEPROOF" else "ALL").
Proof. destruct liquid; vm_compute; reflexivity. Qed.

(** C6 (as amended): when the scan of the inputs completes, the pair
    (position, sighash) is in the custom-sighash list exactly when the input
    at that position declares that sighash type, the type is not zero, and
    it differs from the default mode: [ALL] on plain networks, [ALL |
    RANGEPROOF] on confidential ones.  An input without a declared type, or
    with the type zero, is not custom.  The collected inputs, and no others,
    are surfaced to the user: when the list is not empty and every collected
    type has a name, the user is shown the warning whose lines are the
    collected pairs, each with its position and the name of its type, and
    the answer decides between signing everything, signing the rest with
    the default mode, and (when every input is custom) returning nothing;
    when the list is empty no warning is shown. *)
Theorem custom_sighashes_collected liquid ins l :
  scan_inputs (default_sighash liquid) 0 ins [] = Ok l ->
  (forall i st,
      (i, st) ∈ l <->
      exists inp, ins !! i = Some inp /\ sighash_type inp = Some st /\
                  st <> 0%Z /\
                  st <> (if liquid then Z.lor Sighash.ALL Sighash.RANGEPROOF
                         else Sighash.ALL)) /\
  (forall (ui : string -> string -> bool) txt,
      l <> [] ->
      custom_lines l = Ok txt ->
      Forall2 (fun c line =>
                 exists n, Sighash.SIGHASH_NAMES !! snd c = Some n /\
                           line = "Input " +:+ dec (N.of_nat (fst c)) +:+ ": "
                                  +:+ n)
              l txt /\
      custom_choice ui (default_sighash liquid) l (length ins)
      = if ui (nl +:+ "Custom SIGHASH flags are used!" +:+ nl +:+ nl
               +:+ join nl txt)
              (if (length l =? length ins)%nat then "Cancel"
               else "Only sign "
                    +:+ (if liquid then "ALL | RANGEPROOF" else "ALL"))
        then Ok (Some None)
        else if (length l =? length ins)%nat then Ok None
             else Ok (Some (Some (default_sighash liquid)))) /\
  (forall ui : string -> string -> bool,
      l = [] ->
      custom_choice ui (default_sighash liquid) l (length ins)
      = Ok (Some (Some (default_sighash liquid)))).
Proof.
  intros Hrun. split; [| split].
  - intros i st.
    rewrite (scan_inputs_spec _ _ _ _ _ Hrun i st).
    rewrite Nat.sub_0_r. unfold is_custom, default_sighash. split.
    + intros [Hin | [_ Hc]]; [inversion Hin | exact Hc].
    + intros Hc. right. split; [lia | exact Hc].
  - intros ui txt Hne Hlines. split; [now apply custom_lines_spec |].
    unfold custom_choice.
    destruct l as [| c r]; [congruence |]. cbn [length Nat.ltb Nat.leb].
    rewrite Hlines. cbn [bind].
    destruct (S (length r) =? length ins)%nat; cbn [negb bind];
      [reflexivity |].
    rewrite default_sighash_name. reflexivity.
  - intros ui ->. reflexivity.
Qed.

(** Three inputs on a plain network: [ALL], [NONE | ANYONECANPAY] and no
    declared type; the second one is collected and shown, and a user who
    declines lets the other two be signed with the default mode. *)
Lemma custom_sighashes_witness :
  ((1, 130%Z) ∈ [(1, 130%Z)] <->
   exists inp,
     [spend_with (Some 1%Z); spend_with (Some 130%Z); spend_with None] !! 1
       = Some inp /\
     sighash_type inp = Some 130%Z /\ 130%Z <> 0%Z /\ 130%Z <> Sighash.ALL) /\
  custom_lines [(1, 130%Z)] = Ok ["Input 1: NONE | ANYONECANPAY"] /\
  custom_choice
    (fun msg cancel =>
       negb (String.eqb msg (nl +:+ "Custom SIGHASH flags are used!" +:+ nl
                             +:+ nl +:+ "Input 1: NONE | ANYONECANPAY")
             && String.eqb cancel "Only sign ALL"))
    (default_sighash false) [(1, 130%Z)] 3
  = Ok (Some (Some 1%Z)).
Proof.
  assert (scan_inputs (default_sighash false) 0
            [spend_with (Some 1%Z); spend_with (Some 130%Z); spend_with None]
            [] = Ok [(1, 130%Z)]) as Hscan by reflexivity.
  assert (custom_lines [(1, 130%Z)] = Ok ["Input 1: NONE | ANYONECANPAY"])
    as Hlines by (vm_compute; reflexivity).
  destruct (custom_sighashes_collected
              false
              [spend_with (Some 1%Z); spend_with (Some 130%Z); spend_with None]
              [(1, 130%Z)] Hscan) as (Hiff & Hshown & _).
  split; [exact (Hiff 1 130%Z) |]. split; [exact Hlines |].
  destruct (Hshown
              (fun msg cancel =>
                 negb (String.eqb msg
                         (nl +:+ "Custom SIGHASH flags are used!" +:+ nl
                          +:+ nl +:+ "Input 1: NONE | ANYONECANPAY")
                       && String.eqb cancel "Only sign ALL"))
              ["Input 1: NONE | ANYONECANPAY"]
              ltac:(discriminate) Hlines) as [_ Hchoice].
  refine (eq_trans Hchoice _). vm_compute. reflexivity.
Defined.

(** C6 (as stated) fails: an input that declares the sighash type 0, which
    differs from the default [ALL], is not collected: the test
    [inp.sighash_type and ...] takes 0 for an absent type. *)
Lemma zero_sighash_is_not_collected :
  sighash_type (spend_with (Some 0%Z)) = Some 0%Z /\
  0%Z <> default_sighash false /\
  scan_inputs (default_sighash false) 0 [spend_with (Some 0%Z)] [] = Ok [].
Proof. repeat split. discriminate. Qed.

(** ** Confidential finalization *)

Section Finalize.
Variable compact_to_bytes : nat -> string.
Variable sha256 : string -> string.
Variable nonce_sec : string -> string.
Variable ecdh_point : option string -> string -> string.
Variable pedersen_commitment_parse : string -> string.
Variable generator_parse : string -> string.
Variable rangeproof_sign :
  string -> Z -> string -> string -> string -> string -> string -> string.

Abbreviation fstep :=
  (finalize_step compact_to_bytes sha256 nonce_sec ecdh_point
                 pedersen_commitment_parse generator_parse rangeproof_sign).
Abbreviation floop :=
  (finalize_loop compact_to_bytes sha256 nonce_sec ecdh_point
                 pedersen_commitment_parse generator_parse rangeproof_sign).
Abbreviation finalize' :=
  (finalize compact_to_bytes sha256 nonce_sec ecdh_point
            pedersen_commitment_parse generator_parse rangeproof_sign).

(** At the head of the loop the local [proof] is never bound: it is
    assigned only in the branch that ends with [del proof]. *)
Lemma finalize_step_proof_unbound out st st' :
  proof_var st = None -> fstep out st = Ok st' -> proof_var st' = None.
Proof.
  intros Hn Hs. unfold finalize_step in Hs.
  destruct (unknown out !! NONCE_KEY) as [nonce |].
  - destruct (truthy (nonce_commitment out));
      [destruct (bool_decide _) |]; cbn [bind] in Hs; try discriminate;
      destruct (len_opt _) as [[n sp] | e]; cbn [bind] in Hs;
      try discriminate; now injection Hs as <-.
  - destruct (truthy (range_proof out)).
    + rewrite Hn in Hs. discriminate.
    + injection Hs as <-. exact Hn.
Qed.

Lemma finalize_loop_proof_unbound outs :
  forall st st',
    proof_var st = None -> floop outs st = Ok st' -> proof_var st' = None.
Proof.
  induction outs as [| out r IH]; intros st st' Hn Hrun.
  - now injection Hrun as <-.
  - cbn [finalize_loop] in Hrun.
    destruct (fstep out st) as [st1 | e] eqn:Hs; [| discriminate].
    eapply IH; [| exact Hrun]. eapply finalize_step_proof_unbound; eauto.
Qed.

Lemma finalize_loop_app a b st :
  floop (a ++ b) st = (try! st' <- floop a st; floop b st').
Proof.
  revert st. induction a as [| out r IH]; intros st; [reflexivity |].
  cbn [app finalize_loop]. destruct (fstep out st); [apply IH | reflexivity].
Qed.

(** An output without device nonce and without range proof feeds exactly
    two zero bytes to the hash. *)
Lemma finalize_step_no_proof out st :
  unknown out !! NONCE_KEY = None ->
  truthy (range_proof out) = false ->
  fstep out st
  = Ok (FinState (fed st +:+ String "000"%char (String "000"%char ""))
                 (proof_var st) (visited st ++ [out])).
Proof. intros Hk Hr. unfold finalize_step. now rewrite Hk, Hr. Qed.

(** C2 (violated by the code): for an output without device nonce whose
    range proof is present, nothing is fed to the hash.  The branch reads
    the local [proof], not the range proof of the output, the local is
    unbound at that point, and the pass stops with [NameError]: whatever
    outputs come before (as long as they are processed) and after. *)
Theorem finalize_existing_range_proof_raises ins pre out rest h st :
  floop pre (FinState "" None []) = Ok st ->
  unknown out !! NONCE_KEY = None ->
  truthy (range_proof out) = true ->
  finalize' (Psbt ins (pre ++ out :: rest) h) = Raise (NameError "proof").
Proof.
  intros Hpre Hk Hr. unfold finalize. cbn [outputs].
  rewrite finalize_loop_app, Hpre. cbn [bind finalize_loop].
  unfold finalize_step. rewrite Hk, Hr.
  rewrite (finalize_loop_proof_unbound pre (FinState "" None []) st eq_refl Hpre).
  reflexivity.
Qed.

End Finalize.

(** The device blinds the first output; the second one arrives with its
    proofs and stops the pass. *)
Lemma finalize_existing_range_proof_witness :
  finalize0 already_proved = Raise (NameError "proof").
Proof.
  eapply (finalize_existing_range_proof_raises
            compact0 sha256_0 nonce_sec0 ecdh_point0 (fun c => c) (fun g => g)
            rangeproof_sign0 (inputs already_proved) [output_to_blind]
            output_with_proofs [fee_output 100] None).
  - vm_compute. reflexivity.
  - reflexivity.
  - reflexivity.
Defined.

(** ** Signature accounting *)

Lemma fold_sigs_shift (l : list psbt_input) a :
  fold_left (fun acc inp => acc + size (partial_sigs inp)) l a
  = a + fold_left (fun acc inp => acc + size (partial_sigs inp)) l 0.
Proof.
  revert a. induction l as [| x r IH]; intros a; cbn [fold_left]; [lia |].
  rewrite (IH (a + _)), (IH (0 + _)). lia.
Qed.

Lemma count_sigs_cons x r h :
  count_sigs (Psbt (x :: r) [] h) = sigs_of x + count_sigs (Psbt r [] h).
Proof.
  unfold count_sigs, sigs_of. cbn [inputs fold_left].
  rewrite fold_sigs_shift. lia.
Qed.

Lemma count_sigs_inputs p : count_sigs p = count_sigs (Psbt (inputs p) [] None).
Proof. reflexivity. Qed.

Lemma only_adds_count l l' :
  Forall2 (fun a b => sigs_of a <= sigs_of b) l l' ->
  count_sigs (Psbt l [] None) <= count_sigs (Psbt l' [] None).
Proof.
  induction 1 as [| x y r r' Hxy Hr IH]; [reflexivity |].
  rewrite !count_sigs_cons. lia.
Qed.

(** If no input lost a signature and one gained some, the total grew. *)
Lemma some_input_gained_count p p' :
  only_adds p p' -> some_input_gained p p' -> count_sigs p < count_sigs p'.
Proof.
  unfold only_adds, some_input_gained.
  rewrite (count_sigs_inputs p), (count_sigs_inputs p').
  generalize (inputs p) (inputs p'). clear p p'.
  induction 1 as [| x y r r' Hxy Hr IH]; intros (i & a & b & Ha & Hb & Hlt).
  - discriminate.
  - rewrite !count_sigs_cons. destruct i as [| i].
    + injection Ha as <-. injection Hb as <-.
      pose proof (only_adds_count _ _ Hr). lia.
    + assert (count_sigs (Psbt r [] None) < count_sigs (Psbt r' [] None))
        by (apply IH; exists i, a, b; repeat split; assumption).
      lia.
Qed.

Section Accounting.
Context {W world : Type} `{WalletSigner W world}.
Variable serialize : psbt -> string.
Variable b2a_base64 : string -> string.
Variable keystore_fingerprint : string.
Variable keystore_sign_psbt : psbt -> option Z -> psbt.

Abbreviation signed' := (signed keystore_fingerprint keystore_sign_psbt).
Abbreviation signing_step' :=
  (signing_step serialize b2a_base64 keystore_fingerprint keystore_sign_psbt).
Abbreviation encode_result' := (encode_result serialize b2a_base64).

(** C1: let the wallets and the keystore sign, turning the container [p]
    into [p'].  If the total number of partial signatures is the same as
    before, the signing step raises the "no signatures added" error.  If the
    total differs, and in particular if one input gained a signature while
    none lost any, the step returns the serialized minimal container in the
    encoding of the request. *)
Theorem signing_step_accounting enc wallets sighash wd p wd' p' :
  signed' wallets sighash (wd, p) = (wd', p') ->
  (count_sigs p' = count_sigs p ->
   signing_step' enc wallets sighash (wd, p)
   = (wd', Raise (WalletError NO_SIGNATURES))) /\
  (count_sigs p' <> count_sigs p ->
   signing_step' enc wallets sighash (wd, p)
   = (wd', Ok (encode_result' enc (minimal p')))) /\
  (only_adds p p' -> some_input_gained p p' ->
   signing_step' enc wallets sighash (wd, p)
   = (wd', Ok (encode_result' enc (minimal p')))).
Proof.
  intros Hs.
  assert (count_sigs p' <> count_sigs p ->
          signing_step' enc wallets sighash (wd, p)
          = (wd', Ok (encode_result' enc (minimal p')))) as Hok.
  { intros Hne. unfold signing_step. rewrite Hs. cbn [snd].
    apply Nat.eqb_neq in Hne. now rewrite Hne. }
  split; [| split; [exact Hok |]].
  - intros Heq. unfold signing_step. rewrite Hs. cbn [snd].
    apply Nat.eqb_eq in Heq. now rewrite Heq.
  - intros Hadd Hgain. apply Hok.
    pose proof (some_input_gained_count _ _ Hadd Hgain). lia.
Qed.

End Accounting.

(** The default wallet signs its input and the reply is the serialized
    container; the savings wallet holds no keys, nothing is added and the
    step fails. *)
Lemma signing_step_accounting_witness :
  signing_step0 BASE64_STREAM [(Some wallet_A, 1000%Z)] None
                (tt, two_far_changes) = (tt, Ok "psbt:1") /\
  signing_step0 RAW_STREAM [(Some wallet_B, 2000%Z)] (Some 1%Z)
                (tt, watch_only_spend)
  = (tt, Raise (WalletError NO_SIGNATURES)).
Proof.
  assert (signed (W := toy_wallet) (world := unit) "f00dbabe" keystore_sign0
                 [(Some wallet_A, 1000%Z)] None (tt, two_far_changes)
          = (tt, toy_sign psbt_utxo0 wallet_A two_far_changes)) as Hsigned
    by reflexivity.
  assert (signed (W := toy_wallet) (world := unit) "f00dbabe" keystore_sign0
                 [(Some wallet_B, 2000%Z)] (Some 1%Z) (tt, watch_only_spend)
          = (tt, watch_only_spend)) as Hidle
    by reflexivity.
  split.
  - destruct (signing_step_accounting serialize0 b2a_base64_0 _ _
                BASE64_STREAM _ _ _ _ _ _ Hsigned) as (_ & _ & Hgain).
    unfold signing_step0. rewrite Hgain; [vm_compute; reflexivity | |].
    + constructor; [vm_compute; lia | constructor].
    + exists 0, (spend "A/0/5" 0 5 1000),
        (PsbtInput false (Some (TxOut 1000 "A/0/5" tBTC_asset)) None None
                    (<["pub-Default" := "sig"]> ∅) (hints 0 5) None None 1000
                    tBTC_key).
      split; [reflexivity |]. split; [reflexivity |]. vm_compute. lia.
  - destruct (signing_step_accounting serialize0 b2a_base64_0 _ _
                RAW_STREAM _ _ _ _ _ _ Hidle) as (Hnone & _).
    apply Hnone. reflexivity.
Defined.

(** ** The whole method *)

Section Method.
Context {W world : Type} `{Wallet W} `{WalletSigner W world}.
Variable is_liquid : string -> bool.
Variable a2b_base64_stream : stream -> result string.
Variable read_from : bool -> stream -> result psbt.
Variable psbt_verify : psbt -> result psbt.
Variable serialize : psbt -> string.
Variable b2a_base64 : string -> string.
Variable compact_to_bytes : nat -> string.
Variable sha256 : string -> string.
Variable nonce_sec : string -> string.
Variable ecdh_point : option string -> string -> string.
Variable pedersen_commitment_parse : string -> string.
Variable generator_parse : string -> string.
Variable rangeproof_sign :
  string -> Z -> string -> string -> string -> string -> string -> string.
Variable keystore_fingerprint : string.
Variable keystore_sign_psbt : psbt -> option Z -> psbt.
Variable psbt_utxo : psbt_input -> txout.
Variable psbt_fee : psbt -> Z.
Variable pubkey_parse : string -> string.
Variable liquid_address : string -> string -> string -> string.
Variable script_address : string -> string -> option string.
Variable self_wallets : list W.
Variable json_dumps : gmap string string -> string.
Variable aead_seal : string -> string -> string.
Variable ui_custom_sighash : string -> string -> bool.
Variable ui_label_assets : bool.
Variable ui_asset_label : string -> option string.
Variable ui_unknown_wallet : bool.
Variable ui_transaction : string -> Matcher.meta -> bool.
Variable format_spend : Z -> string -> string.

Abbreviation sign_psbt' :=
  (sign_psbt is_liquid a2b_base64_stream read_from psbt_verify serialize
             b2a_base64 compact_to_bytes sha256 nonce_sec ecdh_point
             pedersen_commitment_parse generator_parse rangeproof_sign
             keystore_fingerprint keystore_sign_psbt psbt_utxo psbt_fee
             pubkey_parse liquid_address script_address self_wallets
             json_dumps aead_seal ui_custom_sighash ui_label_assets
             ui_asset_label ui_unknown_wallet ui_transaction format_spend).

(** A failed decoding ends the method with what the handler raises, and
    the state of the device is untouched. *)
Lemma sign_psbt_decode_failure s enc st e :
  attempt a2b_base64_stream read_from
          (is_liquid (Assets.network (mgr st))) enc s = Raise e ->
  sign_psbt' s enc st
  = (st, Raise (decode_handler (is_liquid (Assets.network (mgr st))) e)).
Proof.
  intros Ha. unfold sign_psbt, bindM, get, lift, decode. now rewrite Ha.
Qed.

(** C7 (violated by the code): a decode failure raised without arguments
    does not propagate unchanged.  The handler evaluates [e.args[0]] on the
    empty tuple, and what leaves [sign_psbt] is that [IndexError]. *)
Theorem sign_psbt_decode_failure_without_args s enc st e :
  attempt a2b_base64_stream read_from
          (is_liquid (Assets.network (mgr st))) enc s = Raise e ->
  exn_args e = [] ->
  sign_psbt' s enc st = (st, Raise IndexError).
Proof.
  intros Ha Hargs. rewrite (sign_psbt_decode_failure _ _ _ _ Ha).
  unfold decode_handler. now rewrite Hargs.
Qed.

(** On a plain network, a request without custom sighash, unknown asset or
    unknown wallet that the user accepts reaches the signing step, and the
    method answers what that step answers. *)
Lemma sign_psbt_reaches_signing_step s enc st p0 p wallets meta :
  is_liquid (Assets.network (mgr st)) = false ->
  decode a2b_base64_stream read_from false enc s = Ok p0 ->
  psbt_verify p0 = Ok p ->
  scan_inputs (default_sighash false) 0 (inputs p) [] = Ok [] ->
  Matcher.parse_psbt psbt_utxo psbt_fee is_liquid pubkey_parse liquid_address
                     script_address self_wallets (Assets.assets (mgr st))
                     (Assets.network (mgr st)) p = Ok (wallets, meta) ->
  Matcher.m_unknown_assets meta = [] ->
  None ∉ (fst <$> wallets) ->
  ui_transaction ("Spending:" +:+ nl +:+
                  join nl (map (spend_line format_spend) wallets)) meta = true ->
  sign_psbt' s enc st
  = (PState (mgr st) (store st)
            (fst (signing_step serialize b2a_base64 keystore_fingerprint
                               keystore_sign_psbt enc wallets
                               (Some (default_sighash false)) (wstate st, p))),
     match snd (signing_step serialize b2a_base64 keystore_fingerprint
                             keystore_sign_psbt enc wallets
                             (Some (default_sighash false)) (wstate st, p)) with
     | Ok txt => Ok (Some txt)
     | Raise e => Raise e
     end).
Proof.
  intros Hnet Hdec Hver Hscan Hparse Hassets Hknown Hyes.
  unfold sign_psbt, bindM, get, lift, ret, put.
  rewrite Hnet, Hdec, Hver, Hscan. cbn [custom_choice length Nat.ltb Nat.leb].
  unfold run_parse_psbt. rewrite Hparse.
  unfold label_unknown. cbn [snd]. rewrite Hassets.
  cbn [length Nat.ltb Nat.leb andb]. unfold ret.
  rewrite bool_decide_eq_false_2 by assumption. cbn [andb].
  rewrite Hyes.
  destruct (signing_step _ _ _ _ _ _ _ _) as [wd [txt | e]]; reflexivity.
Qed.

End Method.

(** The parser of the examples asserts on a container that ends after the
    magic: the caller sees an [IndexError], not the [AssertionError]. *)
Lemma sign_psbt_decode_failure_witness :
  sign_psbt0 [wallet_A; wallet_B] (raw_request false "") RAW_STREAM
             (device0 "main")
  = (device0 "main", Raise IndexError) /\
  IndexError <> AssertionError.
Proof.
  split; [| discriminate].
  assert (attempt a2b_base64_stream0 read_from0
                  (is_liquid0 (Assets.network (mgr (device0 "main"))))
                  RAW_STREAM (raw_request false "") = Raise AssertionError)
    as Hfail by reflexivity.
  exact (sign_psbt_decode_failure_without_args
           is_liquid0 a2b_base64_stream0 read_from0 psbt_verify0 serialize0
           b2a_base64_0 compact0 sha256_0 nonce_sec0 ecdh_point0 (fun c => c)
           (fun g => g) rangeproof_sign0 "f00dbabe" keystore_sign0 psbt_utxo0
           psbt_fee0 pubkey_parse0 liquid_address0 script_address0
           [wallet_A; wallet_B] json_dumps0 aead_seal0 (fun _ _ => true) true
           (fun _ => Some "LBL") true (fun _ _ => true) format_spend0
           (raw_request false "") RAW_STREAM (device0 "main") AssertionError
           Hfail eq_refl).
Defined.

(** Whole runs of the method on the device of the examples. *)
Example sign_psbt_plain_run :
  snd (sign_psbt0 [wallet_A; wallet_B] (raw_request false "t") RAW_STREAM
                  (device0 "main")) = Ok (Some "psbt:1").
Proof. vm_compute. reflexivity. Qed.

Example sign_psbt_wrong_network_run :
  snd (sign_psbt0 [wallet_A; wallet_B] (raw_request true "t") RAW_STREAM
                  (device0 "main"))
  = Raise (WalletError
             "Wrong transaction type! Switch to Liquid network to sign PSBT!").
Proof. vm_compute. reflexivity. Qed.

Example sign_psbt_watch_only_run :
  snd (sign_psbt0 [wallet_A; wallet_B] (raw_request false "w") RAW_STREAM
                  (device0 "main")) = Raise (WalletError NO_SIGNATURES).
Proof. vm_compute. reflexivity. Qed.

Example sign_psbt_mixed_inputs_run :
  snd (sign_psbt0 [wallet_A; wallet_B] (raw_request false "m") RAW_STREAM
                  (device0 "main")) = Raise (NameError "warnings").
Proof. vm_compute. reflexivity. Qed.

End SigningSpec.

(** * Further properties of the classifier *)

Module ClassifierMore.

Import Classifier Examples.

Section Facts.
Variable get_prefix : stream -> option string * stream.
Variable is_liquid : string -> bool.
Variable a2b_base64 : string -> option string.
Variables PSBT_MAGIC PSET_MAGIC network : string.

Abbreviation classify := (parse_stream get_prefix is_liquid a2b_base64
                                       PSBT_MAGIC PSET_MAGIC network).

(** The asset commands are answered only on a confidential network, and
    only for a stream that carries the matching command word: sniffing the
    content never yields them. *)
Theorem asset_commands_need_network_and_word s c :
  fst (parse_stream get_prefix is_liquid a2b_base64 PSBT_MAGIC PSET_MAGIC
                    network s) = Some c ->
  c = ADD_ASSET \/ c = DUMP_ASSETS ->
  is_liquid network = true /\
  fst (get_prefix s)
  = Some (match c with ADD_ASSET => "addasset" | _ => "dumpassets" end).
Proof.
  unfold parse_stream. destruct (get_prefix s) as [[prefix |] s1]; cbn [fst].
  - destruct (String.eqb_spec prefix "sign");
      [intros [= <-] [|]; discriminate |].
    destruct (String.eqb_spec prefix "showaddr");
      [intros [= <-] [|]; discriminate |].
    destruct (String.eqb_spec prefix "addwallet");
      [intros [= <-] [|]; discriminate |].
    destruct (is_liquid network); cbn [andb];
      [| intros [=] ].
    destruct (String.eqb_spec prefix "addasset") as [-> |];
      [intros [= <-] _; now split |].
    destruct (String.eqb_spec prefix "dumpassets") as [-> |];
      [intros [= <-] _; now split | intros [=] ].
  - destruct (read 40 s1) as [data s2].
    destruct (String.eqb _ _); [intros [= <-] [|]; discriminate |].
    destruct (a2b_base64 data).
    + destruct (negb _); [intros [=] | intros [= <-] [|]; discriminate].
    + destruct (_ && _); [intros [= <-] [|]; discriminate |].
      destruct (_ || _ || _); [| intros [=] ].
      destruct (_ || _); intros [= <-] [|]; discriminate.
Qed.

(** When the command is guessed from the content, the stream handed back
    is the stream that the prefix reader left, at position 8 when the
    command is [VERIFY_ADDRESS] and the leading bytes start with the URI
    scheme (in either case), and at position 0 in every other case. *)
Theorem sniffed_stream_is_rewound s s1 c s' :
  get_prefix s = (None, s1) ->
  parse_stream get_prefix is_liquid a2b_base64 PSBT_MAGIC PSET_MAGIC network s
  = (Some c, Some s') ->
  s_data s' = s_data s1 /\
  s_pos s'
  = match c with
    | VERIFY_ADDRESS =>
        if startswith "bitcoin:" (fst (read 40 s1))
           || startswith "BITCOIN:" (fst (read 40 s1))
        then 8 else 0
    | _ => 0
    end.
Proof.
  intros Hp. unfold parse_stream. rewrite Hp.
  destruct (read 40 s1) as [data s2] eqn:Hr.
  assert (s_data s2 = s_data s1) as Hdata
    by (unfold read in Hr; now injection Hr as _ <-).
  cbn [fst].
  destruct (String.eqb _ _);
    [intros [= <- <-]; split; [exact Hdata | reflexivity] |].
  destruct (a2b_base64 data).
  - destruct (negb _); [intros [=] |].
    intros [= <- <-]; split; [exact Hdata | reflexivity].
  - destruct (_ && _);
      [intros [= <- <-]; split; [exact Hdata | reflexivity] |].
    destruct (_ || _ || _); [| intros [=] ].
    destruct (_ || _) eqn:Hscheme; intros [= <- <-];
      (split; [exact Hdata | reflexivity]).
Qed.

(** Without a command word, the answer depends on the first forty bytes
    only. *)
Theorem sniffing_reads_forty_bytes s t s1 t1 :
  get_prefix s = (None, s1) ->
  get_prefix t = (None, t1) ->
  fst (read 40 s1) = fst (read 40 t1) ->
  fst (classify s) = fst (classify t).
Proof.
  intros Hs Ht Hd. unfold parse_stream. rewrite Hs, Ht.
  destruct (read 40 s1) as [d1 s2], (read 40 t1) as [d2 t2].
  cbn [fst] in Hd. subst d2.
  destruct (String.eqb _ _); [reflexivity |].
  destruct (a2b_base64 d1).
  - now destruct (negb _).
  - destruct (_ && _); [reflexivity |].
    destruct (_ || _ || _); [| reflexivity]. now destruct (_ || _).
Qed.

End Facts.

Lemma asset_commands_witness :
  is_liquid0 "liquidv1" = true /\
  fst (word_prefix (Stream ("addasset " +:+ lbtc_hex +:+ " L-BTC") 0))
  = Some "addasset".
Proof.
  apply (asset_commands_need_network_and_word
           word_prefix is_liquid0 a2b_base64_std PSBT_MAGIC_std PSET_MAGIC_std
           "liquidv1" (Stream ("addasset " +:+ lbtc_hex +:+ " L-BTC") 0)
           ADD_ASSET).
  - vm_compute. reflexivity.
  - now left.
Defined.

(** A verify-address request with the URI scheme and one without it. *)
Lemma sniffed_stream_witness :
  parse_stream word_prefix is_liquid0 a2b_base64_std PSBT_MAGIC_std
               PSET_MAGIC_std "main" (Stream "bitcoin:bc1qexampl?index=7" 0)
  = (Some VERIFY_ADDRESS, Some (Stream "bitcoin:bc1qexampl?index=7" 8)) /\
  parse_stream word_prefix is_liquid0 a2b_base64_std PSBT_MAGIC_std
               PSET_MAGIC_std "main" (Stream "bc1qexample?index=7" 0)
  = (Some VERIFY_ADDRESS, Some (Stream "bc1qexample?index=7" 0)) /\
  s_pos (Stream "bitcoin:bc1qexampl?index=7" 8) = 8 /\
  s_pos (Stream "bc1qexample?index=7" 0) = 0.
Proof.
  assert (parse_stream word_prefix is_liquid0 a2b_base64_std PSBT_MAGIC_std
                       PSET_MAGIC_std "main"
                       (Stream "bitcoin:bc1qexampl?index=7" 0)
          = (Some VERIFY_ADDRESS,
             Some (Stream "bitcoin:bc1qexampl?index=7" 8))) as E8
    by (vm_compute; reflexivity).
  assert (parse_stream word_prefix is_liquid0 a2b_base64_std PSBT_MAGIC_std
                       PSET_MAGIC_std "main" (Stream "bc1qexample?index=7" 0)
          = (Some VERIFY_ADDRESS, Some (Stream "bc1qexample?index=7" 0))) as E0
    by (vm_compute; reflexivity).
  split; [exact E8 |]. split; [exact E0 |]. split.
  - exact (proj2 (sniffed_stream_is_rewound
                    word_prefix is_liquid0 a2b_base64_std PSBT_MAGIC_std
                    PSET_MAGIC_std "main"
                    (Stream "bitcoin:bc1qexampl?index=7" 0)
                    (Stream "bitcoin:bc1qexampl?index=7" 0)
                    VERIFY_ADDRESS (Stream "bitcoin:bc1qexampl?index=7" 8)
                    eq_refl E8)).
  - exact (proj2 (sniffed_stream_is_rewound
                    word_prefix is_liquid0 a2b_base64_std PSBT_MAGIC_std
                    PSET_MAGIC_std "main" (Stream "bc1qexample?index=7" 0)
                    (Stream "bc1qexample?index=7" 0)
                    VERIFY_ADDRESS (Stream "bc1qexample?index=7" 0)
                    eq_refl E0)).
Defined.

Lemma sniffing_witness :
  fst (parse_stream_std descriptor_stream')
  = fst (parse_stream_std
           (Stream (fst (read 40 descriptor_stream') +:+ "...") 0)).
Proof.
  apply (sniffing_reads_forty_bytes
           no_prefix (fun _ => false) a2b_base64_std PSBT_MAGIC_std
           PSET_MAGIC_std "main" descriptor_stream'
           (Stream (fst (read 40 descriptor_stream') +:+ "...") 0)
           descriptor_stream'
           (Stream (fst (read 40 descriptor_stream') +:+ "...") 0)).
  - reflexivity.
  - reflexivity.
  - vm_compute. reflexivity.
Defined.

End ClassifierMore.


(** * Further properties of the asset registry *)

Module AssetsMore.

Import Assets Examples AssetsSpec.

Lemma dump_loop_keys (l : list (string * string)) (acc : gmap string string) s v :
  foldl dump_insert acc l !! s = Some v ->
  acc !! s = Some v \/ exists k, k ∈ l.*1 /\ s = hexlify (str_rev k).
Proof.
  revert acc. induction l as [| [k0 v0] r IH]; intros acc Hs; [now left |].
  cbn [foldl] in Hs. destruct (IH _ Hs) as [Hacc | (k & Hk & ->)].
  - cbn [fst snd] in Hacc.
    destruct (decide (hexlify (str_rev k0) = s)) as [<- | Hne].
    + right. exists k0. split; [rewrite fmap_cons; left | reflexivity].
    + left. now rewrite lookup_insert_ne in Hacc.
  - right. exists k. split; [rewrite fmap_cons; now right | reflexivity].
Qed.

Lemma assets_json_obj_entries (a : gmap string string) s v :
  assets_json_obj a !! s = Some v <->
  exists k, s = hexlify (str_rev k) /\ a !! k = Some v.
Proof.
  split.
  - intros Hs. destruct (dump_loop_keys _ _ _ _ Hs) as [He | (k & _ & ->)].
    + rewrite lookup_empty in He. discriminate.
    + exists k. split; [reflexivity |]. now rewrite <- assets_json_obj_lookup.
  - intros (k & -> & Hk). now rewrite assets_json_obj_lookup.
Qed.

(** The object that [assets_json] serializes has exactly one entry per
    label: under a text [s] it has the label [v] exactly when [s] is the
    lowercase hexadecimal form of the reversed bytes of an asset that the map
    labels [v]. *)
Theorem assets_json_entries (a : gmap string string) s v :
  assets_json_obj a !! s = Some v <->
  exists k, s = hexlify (str_rev k) /\ a !! k = Some v.
Proof. apply assets_json_obj_entries. Qed.

(** The loop of [load_assets] over a list of decodable keys. *)
Lemma load_loop_spec (l : list (string * string)) :
  NoDup l.*1 ->
  (forall s, s ∈ l.*1 -> exists k, s = hexlify (str_rev k)) ->
  forall acc : gmap string string,
  exists r : gmap string string,
    load_loop l acc = Ok r /\
    forall k, r !! k =
              match (list_to_map l : gmap string string) !! hexlify (str_rev k) with
              | Some v => Some v
              | None => acc !! k
              end.
Proof.
  induction l as [| [s v] r IH]; intros Hnd Hkeys acc.
  - exists acc. split; [reflexivity |]. intros k.
    now rewrite list_to_map_nil, lookup_empty.
  - rewrite fmap_cons in Hnd. apply NoDup_cons in Hnd as [Hfresh Hnd].
    destruct (Hkeys s) as [k0 ->]; [rewrite fmap_cons; left |].
    destruct (IH Hnd) with (acc := <[k0 := v]> acc) as (res & Hrun & Hres).
    { intros t Ht. apply Hkeys. rewrite fmap_cons. now right. }
    exists res. split.
    + cbn [load_loop]. rewrite unhexlify_hexlify. cbn [bind].
      now rewrite str_rev_involutive.
    + intros k. rewrite Hres, list_to_map_cons.
      destruct (decide (k = k0)) as [-> | Hne].
      * rewrite (not_elem_of_list_to_map_1 r _ Hfresh).
        now rewrite !lookup_insert_eq.
      * rewrite (lookup_insert_ne (list_to_map r))
          by (intros E; apply Hne; symmetry; apply dump_key_inj, E).
        destruct (list_to_map r !! hexlify (str_rev k)); [reflexivity |].
        now apply lookup_insert_ne.
Qed.

(** Loading what was dumped: the loop of [load_assets] over the object of
    [assets_json] puts every dumped label back under its own key. *)
Lemma load_loop_of_dump (a acc : gmap string string) :
  load_loop (map_to_list (assets_json_obj a)) acc = Ok (a ∪ acc).
Proof.
  destruct (load_loop_spec (map_to_list (assets_json_obj a))) with (acc := acc)
    as (r & Hrun & Hr).
  - apply NoDup_fst_map_to_list.
  - intros s Hs. apply list_elem_of_fmap in Hs as [[s' v] [-> Hin]].
    apply elem_of_map_to_list, assets_json_obj_entries in Hin as (k & -> & _).
    now exists k.
  - rewrite Hrun. f_equal. apply map_eq. intros k.
    rewrite Hr, list_to_map_to_list, assets_json_obj_lookup, lookup_union.
    destruct (a !! k), (acc !! k); reflexivity.
Qed.

Section Registry.
Variable json_dumps : gmap string string -> string.
Variable json_loads : string -> result (gmap string string).
Variable aead_seal : string -> string -> string.
Variable aead_open : string -> string -> result (string * string).
Variable prompt_import : string -> string -> bool.

(** When the file that [load_assets] looks for holds the dump of a label
    map, the labels of the file are merged into the labels in memory: an
    asset of the file gets the label of the file, every other asset keeps the
    label it had. *)
Theorem load_assets_merges_stored_labels m (fs : gmap string string)
        sealed tag plain (a : gmap string string) :
  fs !! load_assets_path m = Some sealed ->
  aead_open (keystore_userkey m) sealed = Ok (tag, plain) ->
  json_loads plain = Ok (assets_json_obj a) ->
  load_assets json_loads aead_open m fs = Ok (set_assets m (a ∪ assets m)).
Proof.
  intros Hfile Hopen Hjson. unfold load_assets, file_exists.
  rewrite Hfile, bool_decide_eq_true_2 by eauto.
  rewrite Hopen. cbn [bind]. rewrite Hjson. cbn [bind].
  now rewrite load_loop_of_dump.
Qed.

(** What a completed asset import did.  The reply is always "success".
    If the user declined, the manager and the storage are what they were.  If
    the user accepted, the label sits under the reversed bytes of the id,
    every other asset keeps its label, the file of [save_assets] holds the
    sealed dump of the new map and every other file is untouched. *)
Theorem add_asset_command_effects payload m (fs : gmap string string) m' fs' reply :
  add_asset_command json_dumps aead_seal prompt_import payload m fs
  = Ok (m', fs', reply) ->
  reply = "success" /\
  exists hexasset lbl,
    split_on " "%char payload = [hexasset; lbl] /\
    ((prompt_import hexasset lbl = false /\ m' = m /\ fs' = fs) \/
     (prompt_import hexasset lbl = true /\
      exists b, unhexlify hexasset = Ok b /\
        assets m' !! str_rev b = Some lbl /\
        (forall k, k <> str_rev b -> assets m' !! k = assets m !! k) /\
        fs' !! save_assets_path m
        = Some (aead_seal (keystore_userkey m)
                          (json_dumps (assets_json_obj (assets m')))) /\
        (forall path, path <> save_assets_path m -> fs' !! path = fs !! path))).
Proof.
  unfold add_asset_command.
  destruct (split_on " "%char payload) as [| h [| l [| x r]]]; try discriminate.
  destruct (prompt_import h l) eqn:Hyes.
  - destruct (unhexlify h) as [b | e] eqn:Hhex; [| discriminate].
    cbn [bind]. intros [= <- <- <-]. split; [reflexivity |].
    exists h, l. split; [reflexivity |]. right. split; [exact Hyes |].
    exists b. split; [exact Hhex |]. cbn [assets set_assets].
    split; [apply lookup_insert_eq |].
    split; [intros k Hk; now apply lookup_insert_ne |].
    unfold save_assets. split.
    + apply lookup_insert_eq.
    + intros path Hp. now apply lookup_insert_ne.
  - intros [= <- <- <-]. split; [reflexivity |].
    exists h, l. split; [reflexivity |]. left. auto.
Qed.

(** How an asset import fails.  A payload that is not made of exactly two
    words separated by one space is refused with the usage message.  The id
    is not looked at before the user has answered the prompt: when the user
    declines, the reply is "success" and nothing changes, whatever the id
    is; when the user accepts an id that is not hexadecimal text of even
    length, the request ends with the error of [unhexlify], which reports
    an odd length before it reports a character that is no digit. *)
Theorem add_asset_command_errors payload m (fs : gmap string string) :
  (length (split_on " "%char payload) <> 2 ->
   add_asset_command json_dumps aead_seal prompt_import payload m fs
   = Raise (WalletError
       "Invalid number of arguments. Usage: addasset <hex_asset> asset_lbl")) /\
  (forall hexasset lbl,
     split_on " "%char payload = [hexasset; lbl] ->
     prompt_import hexasset lbl = false ->
     add_asset_command json_dumps aead_seal prompt_import payload m fs
     = Ok (m, fs, "success")) /\
  (forall hexasset lbl e,
     split_on " "%char payload = [hexasset; lbl] ->
     prompt_import hexasset lbl = true ->
     unhexlify hexasset = Raise e ->
     add_asset_command json_dumps aead_seal prompt_import payload m fs
     = Raise e) /\
  (forall hexasset,
     Nat.odd (String.length hexasset) = true ->
     unhexlify hexasset = Raise (ValueError "odd-length string")).
Proof.
  unfold add_asset_command. split; [| split; [| split]].
  - destruct (split_on " "%char payload) as [| h [| l [| x r]]];
      cbn [length]; intros Hlen; try reflexivity. lia.
  - intros h l -> ->. reflexivity.
  - intros h l e -> -> ->. reflexivity.
  - intros h Hodd. unfold unhexlify. now rewrite Hodd.
Qed.

End Registry.

Lemma load_assets_merges_witness :
  load_assets json_loads1 aead_open0 manager0
              (<[load_assets_path manager0 := "userkey{...}"]> ∅)
  = Ok (set_assets manager0 (lbtc_map ∪ assets manager0)).
Proof.
  apply (load_assets_merges_stored_labels json_loads1 aead_open0 manager0
           (<[load_assets_path manager0 := "userkey{...}"]> ∅)
           "userkey{...}" "" "{...}" lbtc_map).
  - apply lookup_insert_eq.
  - reflexivity.
  - reflexivity.
Defined.

(** The user declines the import of L-BTC: the reply is still "success". *)
Lemma add_asset_command_effects_witness :
  "success" = "success" /\
  exists hexasset lbl,
    split_on " "%char (lbtc_hex +:+ " L-BTC") = [hexasset; lbl] /\
    ((always_no hexasset lbl = false /\ manager0 = manager0 /\
      (∅ : gmap string string) = ∅) \/
     (always_no hexasset lbl = true /\
      exists b, unhexlify hexasset = Ok b /\
        assets manager0 !! str_rev b = Some lbl /\
        (forall k, k <> str_rev b -> assets manager0 !! k = assets manager0 !! k) /\
        (∅ : gmap string string) !! save_assets_path manager0
        = Some (aead_seal0 (keystore_userkey manager0)
                           (json_dumps0 (assets_json_obj (assets manager0)))) /\
        (forall path, path <> save_assets_path manager0 ->
                      (∅ : gmap string string) !! path
                      = (∅ : gmap string string) !! path))).
Proof.
  apply (add_asset_command_effects json_dumps0 aead_seal0 always_no
           (lbtc_hex +:+ " L-BTC") manager0 ∅ manager0 ∅ "success").
  vm_compute. reflexivity.
Defined.

(** A label with a space; an id that is no hexadecimal text, declined and
    accepted; and an id of odd length with a character that is no digit. *)
Lemma add_asset_command_errors_witness :
  add_asset_command json_dumps0 aead_seal0 always_yes
                    (lbtc_hex +:+ " Liquid Bitcoin") manager0 ∅
  = Raise (WalletError
      "Invalid number of arguments. Usage: addasset <hex_asset> asset_lbl") /\
  add_asset_command json_dumps0 aead_seal0 always_no "zz L-BTC" manager0 ∅
  = Ok (manager0, ∅, "success") /\
  add_asset_command json_dumps0 aead_seal0 always_yes "zz L-BTC" manager0 ∅
  = Raise (ValueError "non-hex digit found") /\
  unhexlify "zz0" = Raise (ValueError "odd-length string").
Proof.
  split; [| split; [| split]].
  - apply (add_asset_command_errors json_dumps0 aead_seal0 always_yes
             (lbtc_hex +:+ " Liquid Bitcoin") manager0 ∅).
    vm_compute. lia.
  - apply (add_asset_command_errors json_dumps0 aead_seal0 always_no
             "zz L-BTC" manager0 ∅) with (hexasset := "zz") (lbl := "L-BTC");
      reflexivity.
  - apply (add_asset_command_errors json_dumps0 aead_seal0 always_yes
             "zz L-BTC" manager0 ∅) with (hexasset := "zz") (lbl := "L-BTC");
      reflexivity.
  - apply (add_asset_command_errors json_dumps0 aead_seal0 always_yes
             "zz0 L-BTC" manager0 ∅). reflexivity.
Defined.

End AssetsMore.

(** * Further properties of the ownership matcher *)

Module MatcherMore.

Import Matcher Examples.

Section Parse.
Context {W : Type} `{Wallet W}.
Variable psbt_utxo : psbt_input -> txout.
Variable psbt_fee : psbt -> Z.
Variable is_liquid : string -> bool.
Variable pubkey_parse : string -> string.
Variable liquid_address : string -> string -> string -> string.
Variable script_address : string -> string -> option string.
Variable self_wallets : list W.
Variable self_assets : gmap string string.
Variable self_network : string.

Abbreviation owner := (first_owner psbt_utxo self_wallets).
Abbreviation step := (input_step psbt_utxo is_liquid self_wallets self_assets
                                 self_network).
Abbreviation pass := (input_pass psbt_utxo is_liquid self_wallets self_assets
                                 self_network).
Abbreviation ostep := (output_step is_liquid pubkey_parse self_assets
                                   self_network).
Abbreviation opass := (output_pass is_liquid pubkey_parse self_assets
                                   self_network).
Abbreviation parse := (parse_psbt psbt_utxo psbt_fee is_liquid pubkey_parse
                                  liquid_address script_address self_wallets
                                  self_assets self_network).
Abbreviation meta0 := (initial_meta psbt_fee is_liquid pubkey_parse
                                    liquid_address script_address self_network).
(** The amount that an input contributes to the summary. *)
Abbreviation spent := (fun inp : psbt_input =>
                         if negb (is_liquid self_network)
                         then tx_value (psbt_utxo inp) else in_value inp).
Abbreviation total := (fun l : list Z => fold_right Z.add 0%Z l).

(** ** The pieces of a run that returns *)

Lemma parse_psbt_inv p summary md :
  parse p = Ok (summary, md) ->
  exists wallets amounts m0 m1 g,
    pass 0 (inputs p) (([], []), meta0 p) = Ok ((wallets, amounts), m0) /\
    length wallets <= 1 /\
    m1 = (if bool_decide (None ∈ wallets)
          then add_warning m0 "Unknown wallet in input!" else m0) /\
    gap_pass psbt_utxo (inputs p) wallets (initial_gaps wallets) = Ok g /\
    check_pass 0 (outputs p) wallets g
               (opass wallets 0 (outputs p) m1) = Ok md /\
    summary = zip wallets amounts.
Proof.
  unfold parse_psbt. intros Hrun.
  destruct (pass 0 (inputs p) _) as [[[wallets amounts] m0] | e] eqn:Hpass;
    [| discriminate].
  cbn [bind] in Hrun. unfold input_warnings in Hrun.
  destruct (Nat.ltb_spec 1 (length wallets)) as [Hlt | Hle]; [discriminate |].
  cbn [bind] in Hrun.
  destruct (gap_pass _ _ _ _) as [g | e] eqn:Hgap; [| discriminate].
  cbn [bind] in Hrun.
  destruct (check_pass _ _ _ _ _) as [m3 | e] eqn:Hcheck; [| discriminate].
  injection Hrun as <- <-.
  exists wallets, amounts, m0,
    (if bool_decide (None ∈ wallets)
     then add_warning m0 "Unknown wallet in input!" else m0), g.
  split; [reflexivity |]. split; [assumption |]. split; [reflexivity |].
  split; [exact Hgap |]. split; [exact Hcheck | reflexivity].
Qed.

(** ** The summary *)

Lemma index_of_lt {A} `{EqDecision A} (x : A) l : x ∈ l -> index_of x l < length l.
Proof.
  induction l as [| y r IH]; intros Hin; [inversion Hin |].
  cbn. destruct (decide (x = y)); [lia |].
  apply elem_of_cons in Hin as [-> | Hin]; [congruence |].
  specialize (IH Hin). lia.
Qed.

Lemma total_alter (l : list Z) i v :
  i < length l -> total (alter (fun a => (a + v)%Z) i l) = (total l + v)%Z.
Proof.
  revert i. induction l as [| a r IH]; intros i Hi; cbn in *; [lia |].
  destruct i as [| i]; cbn; [lia |]. rewrite IH by lia. lia.
Qed.

Lemma total_app (l k : list Z) : total (l ++ k) = (total l + total k)%Z.
Proof. induction l as [| a r IH]; cbn; [reflexivity | rewrite IH; lia]. Qed.

Lemma fold_amount_accounts (x : option W) v ws am :
  length ws = length am ->
  length (fold_amount x v (ws, am)).1 = length (fold_amount x v (ws, am)).2 /\
  total (fold_amount x v (ws, am)).2 = (total am + v)%Z.
Proof.
  intros Hlen. unfold fold_amount. case_bool_decide as Hin; cbn [fst snd].
  - rewrite length_alter. split; [assumption |].
    apply total_alter. rewrite <- Hlen. now apply index_of_lt.
  - rewrite !length_app. cbn. split; [lia |].
    rewrite total_app. cbn. lia.
Qed.

Lemma input_step_amounts i inp wa m wa' m' :
  step i inp (wa, m) = Ok (wa', m') ->
  wa' = fold_amount (owner inp) (spent inp) wa.
Proof.
  unfold input_step. intros Hs.
  destruct (Sighash.sighash_name _) as [n | e]; [| discriminate].
  cbn [bind] in Hs.
  destruct (owner inp) as [w |].
  - destruct (get_derivation w _) as [br idx]. now injection Hs as <- _.
  - now injection Hs as <- _.
Qed.

Lemma input_pass_accounts ins :
  forall i ws am m ws' am' m',
    pass i ins ((ws, am), m) = Ok ((ws', am'), m') ->
    length ws = length am ->
    length ws' = length am' /\
    total am' = (total am + total (spent <$> ins))%Z.
Proof.
  induction ins as [| inp r IH]; intros i ws am m ws' am' m' Hrun Hlen.
  - injection Hrun as <- <- <-. cbn. split; [assumption | lia].
  - cbn [input_pass] in Hrun.
    destruct (step i inp (ws, am, m)) as [[[ws1 am1] m1] | e] eqn:Hs;
      [| discriminate].
    cbn [bind] in Hrun. apply input_step_amounts in Hs.
    destruct (fold_amount_accounts (owner inp) (spent inp) ws am Hlen)
      as [Hlen1 Htot1].
    rewrite <- Hs in Hlen1, Htot1. cbn [fst snd] in Hlen1, Htot1.
    destruct (IH _ _ _ _ _ _ _ Hrun Hlen1) as [Hlen' Htot'].
    split; [assumption |]. rewrite Htot', Htot1, fmap_cons. cbn. lia.
Qed.

(** ** The sizes of the metadata *)

Lemma input_step_sizes i inp wa m wa' m' :
  step i inp (wa, m) = Ok (wa', m') ->
  length (m_inputs m') = length (m_inputs m) /\
  m_outputs m' = m_outputs m /\ m_warnings m' = m_warnings m.
Proof.
  unfold input_step. intros Hs.
  destruct (Sighash.sighash_name _) as [n | e]; [| discriminate].
  cbn [bind] in Hs.
  assert (forall x : meta,
            length (m_inputs x) = length (m_inputs m) /\
            m_outputs x = m_outputs m /\ m_warnings x = m_warnings m ->
            forall f j,
              length (m_inputs (set_inputs x (alter f j (m_inputs x))))
              = length (m_inputs m) /\
              m_outputs (set_inputs x (alter f j (m_inputs x))) = m_outputs m /\
              m_warnings (set_inputs x (alter f j (m_inputs x))) = m_warnings m)
    as Hset.
  { intros x (Hx1 & Hx2 & Hx3) f j. cbn. now rewrite length_alter. }
  assert (let x := (if is_liquid self_network
                    then match self_assets !! in_asset inp with
                         | Some lbl =>
                             set_inputs m
                               (alter (fun im => InputMeta (Some lbl) (im_label im)
                                                   (im_value im) (im_sighash im))
                                      i (m_inputs m))
                         | None => note_unknown m (in_asset inp)
                         end
                    else m) in
          length (m_inputs x) = length (m_inputs m) /\
          m_outputs x = m_outputs m /\ m_warnings x = m_warnings m) as Hfirst.
  { cbn zeta. destruct (is_liquid self_network); [| auto].
    destruct (self_assets !! in_asset inp).
    - now apply Hset.
    - unfold note_unknown. now case_bool_decide. }
  cbn zeta in Hfirst.
  destruct (owner inp) as [w |].
  - destruct (get_derivation w _) as [br idx]. injection Hs as _ <-.
    now apply Hset, Hset.
  - injection Hs as _ <-. now apply Hset.
Qed.

Lemma input_pass_sizes ins :
  forall i st st',
    pass i ins st = Ok st' ->
    length (m_inputs st'.2) = length (m_inputs st.2) /\
    m_outputs st'.2 = m_outputs st.2 /\ m_warnings st'.2 = m_warnings st.2.
Proof.
  induction ins as [| inp r IH]; intros i st st' Hrun.
  - now injection Hrun as <-.
  - cbn [input_pass] in Hrun.
    destruct (step i inp st) as [st1 | e] eqn:Hs; [| discriminate].
    cbn [bind] in Hrun. destruct st as [wa m], st1 as [wa1 m1].
    destruct (input_step_sizes _ _ _ _ _ _ Hs) as (H1 & H2 & H3).
    destruct (IH _ _ _ Hrun) as (H1' & H2' & H3'). cbn [snd] in *.
    repeat split; congruence.
Qed.

(** ** The per-output pass *)

Abbreviation flags := (fun m : meta => om_change <$> m_outputs m).

(** A matched wallet owns the output [out] together with its blinding key,
    and [out] is not the fee output of a confidential transaction. *)
Abbreviation change_ok wallets out :=
  (truthy (blinding_pubkey out) = true /\
   (is_liquid self_network && String.eqb (script_pubkey (vout out)) "") = false /\
   exists w : W,
     Some w ∈ wallets /\
     owns w (vout out) (out_bip32_derivations out)
          (script_or (out_witness_script out) (out_redeem_script out))
          (option_map pubkey_parse (blinding_pubkey out)) = true).

Abbreviation change_sound outs_all wallets m :=
  (forall i om, m_outputs m !! i = Some om -> om_change om = true ->
                exists out : psbt_output,
                  outs_all !! i = Some out /\ change_ok wallets out).

Lemma change_owner_sound out (wallets : list (option W)) w :
  change_owner pubkey_parse out wallets = Some w ->
  truthy (blinding_pubkey out) = true /\
  Some w ∈ wallets /\
  owns w (vout out) (out_bip32_derivations out)
       (script_or (out_witness_script out) (out_redeem_script out))
       (option_map pubkey_parse (blinding_pubkey out)) = true.
Proof.
  induction wallets as [| [w0 |] r IH]; cbn [change_owner]; [discriminate | |].
  - destruct (truthy (blinding_pubkey out)) eqn:Hbp; cbn [andb].
    + destruct (owns w0 _ _ _ _) eqn:Hown.
      * intros [= <-]. split; [reflexivity |]. split; [left | exact Hown].
      * intros E. destruct (IH E) as (? & ? & ?).
        split; [reflexivity |]. split; [now right | assumption].
    + intros E. destruct (IH E) as (? & ? & ?). discriminate.
  - intros E. destruct (IH E) as (? & ? & ?).
    split; [assumption |]. split; [now right | assumption].
Qed.

Lemma output_step_frame wallets j out m :
  m_inputs (ostep wallets j out m) = m_inputs m /\
  m_warnings (ostep wallets j out m) = m_warnings m /\
  length (m_outputs (ostep wallets j out m)) = length (m_outputs m).
Proof.
  unfold output_step.
  set (m1 := if is_liquid self_network then _ else m).
  assert (m_inputs m1 = m_inputs m /\ m_warnings m1 = m_warnings m /\
          length (m_outputs m1) = length (m_outputs m)) as (H1 & H2 & H3).
  { subst m1. destruct (is_liquid self_network); [| auto].
    destruct (self_assets !! _).
    - cbn. now rewrite length_alter.
    - unfold note_unknown. now case_bool_decide. }
  destruct (_ && _); [auto |].
  destruct (change_owner _ _ _); [| auto].
  cbn. now rewrite length_alter.
Qed.

Lemma output_step_change (outs_all : list psbt_output) wallets j out m :
  outs_all !! j = Some out ->
  change_sound outs_all wallets m ->
  change_sound outs_all wallets (ostep wallets j out m).
Proof.
  intros Hout Hinv. unfold output_step.
  set (m1 := if is_liquid self_network then _ else m).
  assert (change_sound outs_all wallets m1) as Hinv1.
  { subst m1. destruct (is_liquid self_network); [| exact Hinv].
    destruct (self_assets !! _).
    - intros i om. cbn [m_outputs set_outputs]. rewrite list_lookup_alter.
      destruct (decide (j = i)) as [-> | Hne]; [| apply Hinv].
      destruct (m_outputs m !! i) as [om0 |] eqn:Hom; [| discriminate].
      intros [= <-] Hc. now apply (Hinv i om0).
    - unfold note_unknown. case_bool_decide; exact Hinv. }
  destruct (_ && _) eqn:Hfee; [exact Hinv1 |].
  destruct (change_owner _ _ _) as [w |] eqn:Hown; [| exact Hinv1].
  intros i om. cbn [m_outputs set_outputs]. rewrite list_lookup_alter.
  destruct (decide (j = i)) as [-> | Hne]; [| apply Hinv1].
  intros _ _. exists out. split; [exact Hout |].
  destruct (change_owner_sound _ _ _ Hown) as (Hbp & Hw & Howns).
  split; [exact Hbp |]. split; [exact Hfee |]. now exists w.
Qed.

Lemma output_pass_frame wallets outs :
  forall j m,
    m_inputs (opass wallets j outs m) = m_inputs m /\
    m_warnings (opass wallets j outs m) = m_warnings m /\
    length (m_outputs (opass wallets j outs m)) = length (m_outputs m).
Proof.
  induction outs as [| out r IH]; intros j m; [auto |].
  cbn [output_pass].
  destruct (IH (S j) (ostep wallets j out m)) as (H1 & H2 & H3).
  destruct (output_step_frame wallets j out m) as (G1 & G2 & G3).
  repeat split; congruence.
Qed.

Lemma output_pass_change (outs_all : list psbt_output) wallets outs :
  forall j m,
    drop j outs_all = outs ->
    change_sound outs_all wallets m ->
    change_sound outs_all wallets (opass wallets j outs m).
Proof.
  induction outs as [| out r IH]; intros j m Hdrop Hinv; [exact Hinv |].
  assert (outs_all !! j = Some out) as Hj.
  { rewrite <- (Nat.add_0_r j), <- lookup_drop, Hdrop. reflexivity. }
  cbn [output_pass]. apply IH.
  - rewrite (drop_S _ _ _ Hj) in Hdrop. now injection Hdrop.
  - now apply output_step_change.
Qed.

(** ** The last pass *)

Lemma append_label_frame i s m m' :
  append_label i s m = Ok m' ->
  m_inputs m' = m_inputs m /\ m_warnings m' = m_warnings m /\
  m_unknown_assets m' = m_unknown_assets m /\ flags m' = flags m.
Proof.
  unfold append_label.
  destruct (m_outputs m !! i) as [om |] eqn:Hom; [| discriminate].
  destruct (om_label om); [| discriminate].
  intros [= <-]. cbn. repeat split.
  rewrite list_fmap_insert. cbn. apply list_insert_id.
  now rewrite list_lookup_fmap, Hom.
Qed.

Lemma check_wallets_frame i out ws g :
  forall j m m',
    check_wallets i out j ws g m = Ok m' ->
    m_inputs m' = m_inputs m /\
    m_unknown_assets m' = m_unknown_assets m /\ flags m' = flags m /\
    (m_warnings m' = m_warnings m \/
     exists idx, m_warnings m' = m_warnings m ++ [gap_warning idx]).
Proof.
  induction ws as [| [w |] r IH]; intros j m m' Hrun.
  - injection Hrun as <-. auto.
  - cbn [check_wallets] in Hrun.
    destruct (owns w _ _ _ _); [| now apply IH with (S j)].
    destruct (get_derivation w _) as [br idx].
    destruct (append_label i _ m) as [m1 |] eqn:Hlabel; [| discriminate].
    cbn [bind] in Hrun.
    destruct (append_label_frame _ _ _ _ Hlabel) as (H1 & H2 & H3 & H4).
    destruct (g !! j) as [gj |]; [| discriminate].
    destruct (gj !! br) as [bound |]; [| discriminate].
    destruct (_ <? _)%N.
    + injection Hrun as <-. cbn. rewrite H1, H2, H3. repeat split; auto.
      right. now exists idx.
    + destruct (IH _ _ _ Hrun) as (G1 & G2 & G3 & G4).
      rewrite G1, G2, G3. repeat split; auto.
      destruct G4 as [-> | [idx' ->]]; rewrite H2; eauto.
  - discriminate.
Qed.

Lemma check_pass_frame outs ws g :
  forall i m m',
    check_pass i outs ws g m = Ok m' ->
    m_inputs m' = m_inputs m /\
    m_unknown_assets m' = m_unknown_assets m /\ flags m' = flags m /\
    exists extra,
      m_warnings m' = m_warnings m ++ extra /\
      Forall (fun w => exists idx, w = gap_warning idx) extra /\
      length extra <= length (filter (fun b => b = true) (drop i (flags m))).
Proof.
  induction outs as [| out r IH]; intros i m m' Hrun.
  - injection Hrun as <-. repeat split. exists []. rewrite app_nil_r.
    repeat split; [constructor | cbn; lia].
  - cbn [check_pass] in Hrun.
    destruct (m_outputs m !! i) as [om |] eqn:Hom; [| discriminate].
    assert (drop i (flags m) = om_change om :: drop (S i) (flags m)) as Hdrop
      by (apply drop_S; now rewrite list_lookup_fmap, Hom).
    destruct (om_change om) eqn:Hc; cbn [negb] in Hrun.
    + destruct (check_wallets i out 0 ws g m) as [m1 |] eqn:Hw; [| discriminate].
      cbn [bind] in Hrun.
      destruct (check_wallets_frame _ _ _ _ _ _ _ Hw) as (H1 & H2 & H3 & H4).
      destruct (IH _ _ _ Hrun) as (G1 & G2 & G3 & extra & Gw & Gf & Gl).
      rewrite G1, G2, G3, H1, H2, H3. repeat split.
      rewrite Hdrop, filter_cons_True by reflexivity. rewrite H3 in Gl.
      destruct H4 as [Hsame | [idx Hone]].
      * exists extra. rewrite Gw, Hsame. repeat split; [assumption |].
        cbn [length]. lia.
      * exists (gap_warning idx :: extra). rewrite Gw, Hone, <- app_assoc.
        repeat split; [constructor; eauto |]. cbn [length]. lia.
    + destruct (IH _ _ _ Hrun) as (G1 & G2 & G3 & extra & Gw & Gf & Gl).
      repeat split; auto. exists extra. repeat split; auto.
      rewrite Hdrop, filter_cons_False by discriminate. exact Gl.
Qed.

(** ** What a returned summary looks like *)

(** [parse_psbt] returns only when all inputs fall into one bucket: the
    summary has at most one entry, its amounts add up to the sum of the
    amounts of the inputs, and the metadata has one entry per input and one
    per output. *)
Theorem parse_psbt_returns_one_bucket p summary md :
  parse_psbt psbt_utxo psbt_fee is_liquid pubkey_parse liquid_address
             script_address self_wallets self_assets self_network p
  = Ok (summary, md) ->
  length summary <= 1 /\
  total (summary.*2) = total (spent <$> inputs p) /\
  length (m_inputs md) = length (inputs p) /\
  length (m_outputs md) = length (outputs p).
Proof.
  intros Hrun.
  destruct (parse_psbt_inv _ _ _ Hrun)
    as (wallets & amounts & m0 & m1 & g & Hpass & Hone & -> & _ & Hcheck & ->).
  destruct (input_pass_accounts _ _ _ _ _ _ _ _ Hpass eq_refl) as [Hlen Htot].
  destruct (input_pass_sizes _ _ _ _ Hpass) as (Hi & Ho & _).
  cbn [snd] in Hi, Ho.
  destruct (check_pass_frame _ _ _ _ _ _ Hcheck) as (Ci & _ & Cf & _).
  destruct (output_pass_frame wallets (outputs p) 0
              (if bool_decide (None ∈ wallets)
               then add_warning m0 "Unknown wallet in input!" else m0))
    as (Oi & _ & Ol).
  split; [rewrite length_zip; lia |].
  split; [rewrite snd_zip by lia; rewrite Htot; cbn; lia |].
  split.
  - rewrite Ci, Oi.
    replace (m_inputs (if bool_decide (None ∈ wallets)
                       then add_warning m0 "Unknown wallet in input!" else m0))
      with (m_inputs m0) by (now case_bool_decide).
    rewrite Hi. unfold initial_meta. cbn. now rewrite length_map.
  - apply (f_equal length) in Cf. rewrite !length_fmap in Cf.
    rewrite Cf, Ol.
    replace (m_outputs (if bool_decide (None ∈ wallets)
                        then add_warning m0 "Unknown wallet in input!" else m0))
      with (m_outputs m0) by (now case_bool_decide).
    rewrite Ho. unfold initial_meta. cbn. now rewrite length_map.
Qed.

Lemma map_is_fmap {A B} (f : A -> B) l : map f l = f <$> l.
Proof. induction l as [| x r IH]; cbn; [reflexivity | now rewrite IH]. Qed.

Lemma initial_meta_no_change p i om :
  m_outputs (meta0 p) !! i = Some om -> om_change om = false.
Proof.
  unfold initial_meta. cbn [m_outputs]. rewrite map_is_fmap, list_lookup_fmap.
  destruct (outputs p !! i); [| discriminate]. now intros [= <-].
Qed.

Lemma change_output_is_owned_aux p summary md i om :
  parse p = Ok (summary, md) ->
  m_outputs md !! i = Some om ->
  om_change om = true ->
  exists out,
    outputs p !! i = Some out /\ change_ok (summary.*1) out.
Proof.
  intros Hrun Hom Hc.
  destruct (parse_psbt_inv _ _ _ Hrun)
    as (wallets & amounts & m0 & m1 & g & Hpass & Hone & Hm1 & _ & Hcheck & ->).
  destruct (input_pass_accounts _ _ _ _ _ _ _ _ Hpass eq_refl) as [Hlen _].
  destruct (input_pass_sizes _ _ _ _ Hpass) as (_ & Ho & _). cbn [snd] in Ho.
  rewrite fst_zip by lia.
  assert (m_outputs m1 = m_outputs (meta0 p)) as Hm1o
    by (rewrite <- Ho, Hm1; now case_bool_decide).
  clear Hm1.
  remember (opass wallets 0 (outputs p) m1) as m2 eqn:Hm2.
  destruct (check_pass_frame _ _ _ _ _ _ Hcheck) as (_ & _ & Cf & _).
  cbn beta in Cf.
  apply (f_equal (fun l => l !! i)) in Cf. cbn beta in Cf.
  rewrite !list_lookup_fmap, Hom in Cf. cbn in Cf. rewrite Hc in Cf.
  destruct (m_outputs m2 !! i) as [om2 |] eqn:Hom2; [| discriminate].
  cbn in Cf. injection Cf as Hc2. symmetry in Hc2.
  subst m2.
  refine (output_pass_change (outputs p) wallets (outputs p) 0 m1 eq_refl _
            i om2 Hom2 Hc2).
  intros k omk Hk Hck.
  rewrite Hm1o in Hk. apply initial_meta_no_change in Hk. congruence.
Qed.

(** An output is marked as change only if a wallet of the summary owns it
    together with its blinding key: an output without blinding key, the fee
    output of a confidential transaction and an output that no matched wallet
    owns are never marked. *)
Theorem change_output_is_owned p summary md i om :
  parse_psbt psbt_utxo psbt_fee is_liquid pubkey_parse liquid_address
             script_address self_wallets self_assets self_network p
  = Ok (summary, md) ->
  m_outputs md !! i = Some om ->
  om_change om = true ->
  exists out,
    outputs p !! i = Some out /\ change_ok (summary.*1) out.
Proof. apply change_output_is_owned_aux. Qed.

(** When an input belongs to no wallet of the store and [parse_psbt]
    returns, the summary is the unknown bucket alone, the first warning is
    the unknown-wallet warning and no output is marked as change. *)
Theorem unknown_input_means_no_change p summary md inp :
  parse_psbt psbt_utxo psbt_fee is_liquid pubkey_parse liquid_address
             script_address self_wallets self_assets self_network p
  = Ok (summary, md) ->
  inp ∈ inputs p ->
  owner inp = None ->
  summary.*1 = [None] /\
  (exists rest, m_warnings md = "Unknown wallet in input!" :: rest) /\
  Forall (fun om => om_change om = false) (m_outputs md).
Proof.
  intros Hrun Hin Hnone.
  destruct (parse_psbt_inv _ _ _ Hrun)
    as (wallets & amounts & m0 & m1 & g & Hpass & Hone & -> & _ & Hcheck & E).
  destruct (input_pass_accounts _ _ _ _ _ _ _ _ Hpass eq_refl) as [Hlen _].
  destruct (input_pass_sizes _ _ _ _ Hpass) as (_ & _ & Hw). cbn [snd] in Hw.
  destruct (MatcherSpec.input_pass_buckets _ _ _ _ _ _ _ _ _ Hpass) as [_ Hall].
  specialize (Hall inp Hin). rewrite Hnone in Hall. cbn [fst] in Hall.
  assert (wallets = [None]) as ->.
  { destruct wallets as [| x [| y r]]; cbn in Hone; [inversion Hall | | lia].
    apply list_elem_of_singleton in Hall. now subst. }
  assert (summary.*1 = [None]) as Hsum by (subst; rewrite fst_zip; [done | lia]).
  split; [exact Hsum |]. split.
  - destruct (check_pass_frame _ _ _ _ _ _ Hcheck)
      as (_ & _ & _ & extra & Cw & _).
    destruct (output_pass_frame [None] (outputs p) 0
                (if bool_decide (None ∈ [@None W])
                 then add_warning m0 "Unknown wallet in input!" else m0))
      as (_ & Ow & _).
    rewrite bool_decide_eq_true_2 in Ow, Cw by left.
    exists extra. rewrite Cw, Ow. cbn [m_warnings add_warning].
    rewrite Hw. reflexivity.
  - apply Forall_forall. intros om Hom.
    apply list_elem_of_lookup in Hom as [i Hom].
    destruct (om_change om) eqn:Hc; [| reflexivity].
    destruct (change_output_is_owned_aux _ _ _ _ _ Hrun Hom Hc)
      as (out & _ & _ & _ & w & Hw' & _).
    rewrite Hsum in Hw'. apply list_elem_of_singleton in Hw'. discriminate.
Qed.

(** ** The gap-limit warnings *)

Lemma filter_length_le {A} (f : A -> bool) l :
  length (List.filter f l) <= length l.
Proof. induction l as [| x r IH]; cbn; [lia |]. destruct (f x); cbn; lia. Qed.

Lemma filter_gap_warnings_only extra :
  Forall (fun w => exists idx, w = gap_warning idx) extra ->
  length (List.filter is_gap_warning extra) <= length extra.
Proof. intros _. apply filter_length_le. Qed.

Lemma count_flags (l : list output_meta) :
  length (filter (fun b => b = true) (om_change <$> l))
  = length (filter (fun om => om_change om = true) l).
Proof.
  induction l as [| om r IH]; [reflexivity |].
  rewrite fmap_cons. destruct (om_change om) eqn:Hc.
  - rewrite !filter_cons_True by first [assumption | reflexivity].
    cbn. now rewrite IH.
  - rewrite !filter_cons_False
      by first [discriminate | rewrite Hc; discriminate].
    exact IH.
Qed.

(** A returned metadata object has at most one gap-limit warning per
    output that is marked as change. *)
Theorem gap_warnings_at_most_one_per_change p summary md :
  parse p = Ok (summary, md) ->
  length (gap_warnings md)
  <= length (filter (fun om => om_change om = true) (m_outputs md)).
Proof.
  intros Hrun.
  destruct (parse_psbt_inv _ _ _ Hrun)
    as (wallets & amounts & m0 & m1 & g & Hpass & Hone & Hm1 & _ & Hcheck & ->).
  destruct (input_pass_sizes _ _ _ _ Hpass) as (_ & _ & Hw). cbn [snd] in Hw.
  assert (List.filter is_gap_warning (m_warnings m1) = []) as Hpre.
  { rewrite Hm1. case_bool_decide; cbn [m_warnings add_warning]; rewrite Hw;
      reflexivity. }
  clear Hm1.
  destruct (output_pass_frame wallets (outputs p) 0 m1) as (_ & Ow & _).
  remember (opass wallets 0 (outputs p) m1) as m2 eqn:Hm2.
  destruct (check_pass_frame _ _ _ _ _ _ Hcheck)
    as (_ & _ & Cf & extra & Cw & _ & Cl).
  cbn beta in Cf, Cl. rewrite drop_0, <- Cf, count_flags in Cl.
  unfold gap_warnings. rewrite Cw, Ow, List.filter_app, Hpre. cbn [app].
  etransitivity; [apply filter_length_le | exact Cl].
Qed.

(** ** Sighash names *)

Lemma input_pass_app a b :
  forall i st,
    pass i (a ++ b) st
    = (try! st' <- pass i a st; pass (i + length a) b st').
Proof.
  induction a as [| inp r IH]; intros i st.
  - cbn. now rewrite Nat.add_0_r.
  - cbn [app input_pass length]. destruct (step i inp st); [| reflexivity].
    cbn [bind]. rewrite IH. now replace (S i + length r) with (i + S (length r)) by lia.
Qed.

(** An input that declares a sighash type (other than 0) for which the
    table has no name makes [parse_psbt] raise [KeyError] with that type,
    provided the inputs before it are matched. *)
Theorem unnamed_sighash_raises_key_error p pre inp rest st sh :
  inputs p = pre ++ inp :: rest ->
  pass 0 pre (([], []), meta0 p) = Ok st ->
  sighash_type inp = Some sh ->
  sh <> 0%Z ->
  Sighash.SIGHASH_NAMES !! sh = None ->
  parse p = Raise (KeyError (PInt sh)).
Proof.
  intros Hins Hpre Hsh Hnz Hname. unfold parse_psbt.
  rewrite Hins, input_pass_app, Hpre. cbn [bind input_pass].
  destruct st as [wa m]. unfold input_step. rewrite Hsh.
  replace (match sh with 0%Z => Sighash.ALL | _ => sh end) with sh
    by (now destruct sh).
  unfold Sighash.sighash_name. rewrite Hname. reflexivity.
Qed.

(** ** Unknown assets *)

(** What the sight of the asset [x] does to the list of unknown assets. *)
Abbreviation seen :=
  (fun (u : list string) (x : string) =>
     if is_liquid self_network then
       match self_assets !! x with
       | Some _ => u
       | None => if bool_decide (x ∈ u) then u else u ++ [x]
       end
     else u).

Lemma note_unknown_list m x :
  m_unknown_assets (note_unknown m x)
  = (if bool_decide (x ∈ m_unknown_assets m) then m_unknown_assets m
     else m_unknown_assets m ++ [x]).
Proof. unfold note_unknown. now case_bool_decide. Qed.

Lemma input_step_unknown i inp wa m wa' m' :
  step i inp (wa, m) = Ok (wa', m') ->
  m_unknown_assets m' = seen (m_unknown_assets m) (in_asset inp).
Proof.
  unfold input_step. intros Hs.
  destruct (Sighash.sighash_name _) as [n | e]; [| discriminate].
  cbn [bind] in Hs.
  assert (m_unknown_assets m' =
          m_unknown_assets
            (if is_liquid self_network
             then match self_assets !! in_asset inp with
                  | Some lbl =>
                      set_inputs m
                        (alter (fun im => InputMeta (Some lbl) (im_label im)
                                            (im_value im) (im_sighash im))
                               i (m_inputs m))
                  | None => note_unknown m (in_asset inp)
                  end
             else m)) as ->.
  { destruct (owner inp) as [w |].
    - destruct (get_derivation w _) as [br idx]. now injection Hs as _ <-.
    - now injection Hs as _ <-. }
  destruct (is_liquid self_network); [| reflexivity].
  destruct (self_assets !! in_asset inp); [reflexivity |].
  apply note_unknown_list.
Qed.

Lemma input_pass_unknown ins :
  forall i st st',
    pass i ins st = Ok st' ->
    m_unknown_assets st'.2
    = foldl seen (m_unknown_assets st.2) (in_asset <$> ins).
Proof.
  induction ins as [| inp r IH]; intros i st st' Hrun.
  - now injection Hrun as <-.
  - cbn [input_pass] in Hrun.
    destruct (step i inp st) as [st1 | e] eqn:Hs; [| discriminate].
    cbn [bind] in Hrun. destruct st as [wa m], st1 as [wa1 m1].
    rewrite (IH _ _ _ Hrun), fmap_cons. cbn [foldl snd].
    now rewrite (input_step_unknown _ _ _ _ _ _ Hs).
Qed.

Lemma output_step_unknown wallets j out m :
  m_unknown_assets (ostep wallets j out m)
  = seen (m_unknown_assets m) (str_drop 1 (tx_asset (vout out))).
Proof.
  unfold output_step.
  set (m1 := if is_liquid self_network then _ else m).
  assert (m_unknown_assets m1
          = seen (m_unknown_assets m) (str_drop 1 (tx_asset (vout out)))) as <-.
  { subst m1. destruct (is_liquid self_network); [| reflexivity].
    destruct (self_assets !! _); [reflexivity |]. apply note_unknown_list. }
  destruct (_ && _); [reflexivity |].
  now destruct (change_owner _ _ _).
Qed.

Lemma output_pass_unknown wallets outs :
  forall j m,
    m_unknown_assets (opass wallets j outs m)
    = foldl seen (m_unknown_assets m)
            ((fun o => str_drop 1 (tx_asset (vout o))) <$> outs).
Proof.
  induction outs as [| out r IH]; intros j m; [reflexivity |].
  cbn [output_pass]. rewrite IH, fmap_cons. cbn [foldl].
  now rewrite output_step_unknown.
Qed.

Lemma seen_fold xs :
  forall u,
    NoDup u ->
    NoDup (foldl seen u xs) /\
    (is_liquid self_network = false -> foldl seen u xs = u) /\
    (is_liquid self_network = true ->
     forall a, a ∈ foldl seen u xs <->
               a ∈ u \/ (a ∈ xs /\ self_assets !! a = None)).
Proof.
  induction xs as [| x r IH]; intros u Hnd.
  - cbn. split; [assumption |]. split; [reflexivity |].
    intros _ a. split; [now left |]. intros [Ha | [Ha _]]; [assumption |].
    inversion Ha.
  - assert (NoDup (seen u x) /\
            (is_liquid self_network = false -> seen u x = u) /\
            (is_liquid self_network = true ->
             forall a, a ∈ seen u x <->
                       a ∈ u \/ (a = x /\ self_assets !! a = None)))
      as (Hnd1 & Hsame1 & Hmem1).
    { cbn beta. destruct (is_liquid self_network).
      2:{ split; [assumption |]. split; [reflexivity | discriminate]. }
      destruct (self_assets !! x) eqn:Hx.
      - split; [assumption |]. split; [discriminate |].
        intros _ a. split; [now left |].
        intros [Ha | [-> Hn]]; [assumption | congruence].
      - case_bool_decide as Hin.
        + split; [assumption |]. split; [discriminate |].
          intros _ a. split; [now left |].
          intros [Ha | [-> _]]; assumption.
        + split; [| split; [discriminate |]].
          * apply NoDup_app. split; [assumption |].
            split; [| apply NoDup_singleton].
            intros y Hy Hy'. apply list_elem_of_singleton in Hy'. now subst.
          * intros _ a. rewrite elem_of_app, list_elem_of_singleton.
            split; [intros [Ha | ->]; auto | intros [Ha | [-> _]]; auto]. }
    destruct (IH _ Hnd1) as (Hnd' & Hsame' & Hmem').
    cbn [foldl]. split; [exact Hnd' |]. split.
    + intros Hl. now rewrite (Hsame' Hl), (Hsame1 Hl).
    + intros Hl a. rewrite (Hmem' Hl a), (Hmem1 Hl a), elem_of_cons.
      split.
      * intros [[Ha | [-> Hn]] | [Ha Hn]]; auto.
      * intros [Ha | [[-> | Ha] Hn]]; auto.
Qed.

Lemma unknown_assets_aux p summary md :
  parse p = Ok (summary, md) ->
  NoDup (m_unknown_assets md) /\
  (is_liquid self_network = false -> m_unknown_assets md = []) /\
  (is_liquid self_network = true ->
   forall a,
     a ∈ m_unknown_assets md <->
     (a ∈ (in_asset <$> inputs p)
          ++ ((fun o => str_drop 1 (tx_asset (vout o))) <$> outputs p)) /\
     self_assets !! a = None).
Proof.
  intros Hrun.
  destruct (parse_psbt_inv _ _ _ Hrun)
    as (wallets & amounts & m0 & m1 & g & Hpass & Hone & Hm1 & _ & Hcheck & ->).
  assert (m_unknown_assets m1 = m_unknown_assets m0) as Hu1
    by (rewrite Hm1; now case_bool_decide).
  clear Hm1.
  pose proof (input_pass_unknown _ _ _ _ Hpass) as Hu0. cbn [snd] in Hu0.
  pose proof (output_pass_unknown wallets (outputs p) 0 m1) as Hu2.
  remember (opass wallets 0 (outputs p) m1) as m2 eqn:Hm2.
  destruct (check_pass_frame _ _ _ _ _ _ Hcheck) as (_ & Cu & _).
  assert (m_unknown_assets md
          = foldl seen []
                  ((in_asset <$> inputs p)
                     ++ ((fun o => str_drop 1 (tx_asset (vout o))) <$> outputs p)))
    as ->.
  { rewrite Cu, Hu2, Hu1, Hu0, foldl_app. reflexivity. }
  destruct (seen_fold
              ((in_asset <$> inputs p)
                 ++ ((fun o => str_drop 1 (tx_asset (vout o))) <$> outputs p))
              [] (NoDup_nil_2)) as (Hnd & Hplain & Hliq).
  split; [exact Hnd |]. split; [exact Hplain |].
  intros Hl a. rewrite (Hliq Hl a). split.
  - intros [Ha | Ha]; [inversion Ha | exact Ha].
  - intros Ha. now right.
Qed.

(** The unknown assets of a returned metadata object: on a plain network
    there are none; on a confidential network they are, without repetition,
    exactly the assets of the inputs and of the outputs that the label map
    does not know. *)
Theorem unknown_assets_are_the_unlabelled p summary md :
  parse p = Ok (summary, md) ->
  NoDup (m_unknown_assets md) /\
  (is_liquid self_network = false -> m_unknown_assets md = []) /\
  (is_liquid self_network = true ->
   forall a,
     a ∈ m_unknown_assets md <->
     (a ∈ (in_asset <$> inputs p)
          ++ ((fun o => str_drop 1 (tx_asset (vout o))) <$> outputs p)) /\
     self_assets !! a = None).
Proof. apply unknown_assets_aux. Qed.

End Parse.

(** The transaction with two change outputs: one bucket, with the amount
    of the input. *)
Lemma parse_psbt_returns_one_bucket_witness :
  exists summary md,
    parse_psbt0 [wallet_A; wallet_B] two_far_changes = Ok (summary, md) /\
    length summary <= 1 /\
    fold_right Z.add 0%Z (summary.*2)
    = fold_right Z.add 0%Z
        ((fun inp => if negb (is_liquid0 (Assets.network manager0))
                     then tx_value (psbt_utxo0 inp) else in_value inp)
           <$> inputs two_far_changes) /\
    length (m_inputs md) = length (inputs two_far_changes) /\
    length (m_outputs md) = length (outputs two_far_changes).
Proof.
  destruct (parse_psbt0 [wallet_A; wallet_B] two_far_changes)
    as [[summary md] | e] eqn:E; [| vm_compute in E; discriminate].
  exists summary, md. split; [reflexivity |].
  exact (parse_psbt_returns_one_bucket _ _ _ _ _ _ _ _ _ _ _ _ E).
Defined.

Lemma change_output_is_owned_witness :
  exists summary md om,
    parse_psbt0 [wallet_A; wallet_B] two_far_changes = Ok (summary, md) /\
    m_outputs md !! 1 = Some om /\ om_change om = true /\
    exists out,
      outputs two_far_changes !! 1 = Some out /\
      truthy (blinding_pubkey out) = true /\
      (is_liquid0 (Assets.network manager0)
       && String.eqb (script_pubkey (vout out)) "") = false /\
      exists w : toy_wallet,
        Some w ∈ summary.*1 /\
        owns w (vout out) (out_bip32_derivations out)
             (script_or (out_witness_script out) (out_redeem_script out))
             (option_map pubkey_parse0 (blinding_pubkey out)) = true.
Proof.
  destruct (parse_psbt0 [wallet_A; wallet_B] two_far_changes)
    as [[summary md] | e] eqn:E; [| vm_compute in E; discriminate].
  destruct (m_outputs md !! 1) as [om |] eqn:Hom.
  2:{ exfalso. vm_compute in E. injection E as _ <-. discriminate. }
  assert (om_change om = true) as Hc.
  { vm_compute in E. injection E as _ <-. vm_compute in Hom.
    injection Hom as <-. reflexivity. }
  exists summary, md, om. split; [reflexivity |]. split; [exact Hom |].
  split; [exact Hc |].
  exact (change_output_is_owned _ _ _ _ _ _ _ _ _ _ _ _ _ _ E Hom Hc).
Defined.

(** The same transaction on a device that does not know the default
    wallet. *)
Lemma unknown_input_means_no_change_witness :
  exists summary md,
    parse_psbt0 [wallet_B] two_far_changes = Ok (summary, md) /\
    summary.*1 = [None] /\
    (exists rest, m_warnings md = "Unknown wallet in input!" :: rest) /\
    Forall (fun om => om_change om = false) (m_outputs md).
Proof.
  destruct (parse_psbt0 [wallet_B] two_far_changes)
    as [[summary md] | e] eqn:E; [| vm_compute in E; discriminate].
  exists summary, md. split; [reflexivity |].
  apply (unknown_input_means_no_change _ _ _ _ _ _ _ _ _ _ _ _
           (spend "A/0/5" 0 5 1000) E).
  - left.
  - reflexivity.
Defined.

Lemma gap_warnings_witness :
  exists summary md,
    parse_psbt0 [wallet_A; wallet_B] two_far_changes = Ok (summary, md) /\
    length (gap_warnings md)
    <= length (filter (fun om => om_change om = true) (m_outputs md)).
Proof.
  destruct (parse_psbt0 [wallet_A; wallet_B] two_far_changes)
    as [[summary md] | e] eqn:E; [| vm_compute in E; discriminate].
  exists summary, md. split; [reflexivity |].
  exact (gap_warnings_at_most_one_per_change _ _ _ _ _ _ _ _ _ _ _ _ E).
Defined.

(** The second input declares the sighash type 4. *)
Lemma unnamed_sighash_witness :
  parse_psbt0 [wallet_A; wallet_B] unnamed_sighash_spend
  = Raise (KeyError (PInt 4)).
Proof.
  destruct (input_pass psbt_utxo0 is_liquid0 [wallet_A; wallet_B]
              (Assets.assets manager0) (Assets.network manager0) 0
              [spend "A/0/5" 0 5 1000]
              (([], []),
               initial_meta psbt_fee0 is_liquid0 pubkey_parse0 liquid_address0
                            script_address0 (Assets.network manager0)
                            unnamed_sighash_spend))
    as [st | e] eqn:E; [| vm_compute in E; discriminate].
  apply (unnamed_sighash_raises_key_error _ _ _ _ _ _ _ _ _
           unnamed_sighash_spend [spend "A/0/5" 0 5 1000]
           (spend_with (Some 4%Z)) [] st 4%Z).
  - reflexivity.
  - exact E.
  - reflexivity.
  - discriminate.
  - vm_compute. reflexivity.
Defined.

(** A transaction in L-BTC on a device that only knows tBTC. *)
Lemma unknown_assets_witness :
  exists summary md,
    parse_psbt0 [wallet_A; wallet_B] unlabelled_spend = Ok (summary, md) /\
    NoDup (m_unknown_assets md) /\
    (is_liquid0 (Assets.network manager0) = false -> m_unknown_assets md = []) /\
    (is_liquid0 (Assets.network manager0) = true ->
     forall a,
       a ∈ m_unknown_assets md <->
       (a ∈ (in_asset <$> inputs unlabelled_spend)
            ++ ((fun o => str_drop 1 (tx_asset (vout o)))
                  <$> outputs unlabelled_spend)) /\
       Assets.assets manager0 !! a = None).
Proof.
  destruct (parse_psbt0 [wallet_A; wallet_B] unlabelled_spend)
    as [[summary md] | e] eqn:E; [| vm_compute in E; discriminate].
  exists summary, md. split; [reflexivity |].
  exact (unknown_assets_are_the_unlabelled _ _ _ _ _ _ _ _ _ _ _ _ E).
Defined.

Example unknown_assets_of_unlabelled_spend :
  exists summary md,
    parse_psbt0 [wallet_A; wallet_B] unlabelled_spend = Ok (summary, md) /\
    m_unknown_assets md = [lbtc_key].
Proof. eexists _, _. split; vm_compute; reflexivity. Qed.

End MatcherMore.

(** * Further properties of the signing pipeline *)

Module SigningMore.

Import Matcher Signing Examples.

(** An input without any previous output stops the scan of the inputs. *)
Lemma scan_inputs_missing_previous sighash ins :
  forall i acc inp,
    inp ∈ ins ->
    is_verified inp = false ->
    witness_utxo inp = None ->
    non_witness_utxo inp = None ->
    scan_inputs sighash i ins acc = Raise (WalletError MISSING_PREV).
Proof.
  induction ins as [| x r IH]; intros i acc inp Hin Hv Hw Hn; [inversion Hin |].
  cbn [scan_inputs].
  destruct (negb (is_verified x) && bool_decide (witness_utxo x = None)
            && bool_decide (non_witness_utxo x = None)) eqn:Hbad;
    [reflexivity |].
  apply elem_of_cons in Hin as [-> | Hin].
  - rewrite Hv, bool_decide_eq_true_2, bool_decide_eq_true_2 in Hbad
      by assumption.
    discriminate.
  - now apply IH with inp.
Qed.

Section Method.
Context {W world : Type} `{Wallet W} `{WalletSigner W world}.
Variable is_liquid : string -> bool.
Variable a2b_base64_stream : stream -> result string.
Variable read_from : bool -> stream -> result psbt.
Variable psbt_verify : psbt -> result psbt.
Variable serialize : psbt -> string.
Variable b2a_base64 : string -> string.
Variable compact_to_bytes : nat -> string.
Variable sha256 : string -> string.
Variable nonce_sec : string -> string.
Variable ecdh_point : option string -> string -> string.
Variable pedersen_commitment_parse : string -> string.
Variable generator_parse : string -> string.
Variable rangeproof_sign :
  string -> Z -> string -> string -> string -> string -> string -> string.
Variable keystore_fingerprint : string.
Variable keystore_sign_psbt : psbt -> option Z -> psbt.
Variable psbt_utxo : psbt_input -> txout.
Variable psbt_fee : psbt -> Z.
Variable pubkey_parse : string -> string.
Variable liquid_address : string -> string -> string -> string.
Variable script_address : string -> string -> option string.
Variable self_wallets : list W.
Variable json_dumps : gmap string string -> string.
Variable aead_seal : string -> string -> string.
Variable ui_custom_sighash : string -> string -> bool.
Variable ui_label_assets : bool.
Variable ui_asset_label : string -> option string.
Variable ui_unknown_wallet : bool.
Variable ui_transaction : string -> Matcher.meta -> bool.
Variable format_spend : Z -> string -> string.

Abbreviation sign_psbt' :=
  (sign_psbt is_liquid a2b_base64_stream read_from psbt_verify serialize
             b2a_base64 compact_to_bytes sha256 nonce_sec ecdh_point
             pedersen_commitment_parse generator_parse rangeproof_sign
             keystore_fingerprint keystore_sign_psbt psbt_utxo psbt_fee
             pubkey_parse liquid_address script_address self_wallets
             json_dumps aead_seal ui_custom_sighash ui_label_assets
             ui_asset_label ui_unknown_wallet ui_transaction format_spend).
Abbreviation decode' := (decode a2b_base64_stream read_from).
Abbreviation liquid_of := (fun st : pstate => is_liquid (Assets.network (mgr st))).
Abbreviation parse_with :=
  (fun (a : gmap string string) (network : string) =>
     parse_psbt psbt_utxo psbt_fee is_liquid pubkey_parse liquid_address
                script_address self_wallets a network).

(** When an input of the decoded container is not verified and carries no
    previous output, [sign_psbt] raises the missing-previous-transaction
    error before any screen is shown, and the device state is untouched. *)
Theorem sign_psbt_missing_previous s enc st p0 p inp :
  decode' (liquid_of st) enc s = Ok p0 ->
  psbt_verify p0 = Ok p ->
  inp ∈ inputs p ->
  is_verified inp = false ->
  witness_utxo inp = None ->
  non_witness_utxo inp = None ->
  sign_psbt' s enc st = (st, Raise (WalletError MISSING_PREV)).
Proof.
  intros Hdec Hver Hin Hv Hw Hn.
  unfold sign_psbt, bindM, get, lift. cbn beta in Hdec.
  rewrite Hdec, Hver.
  now rewrite (scan_inputs_missing_previous _ _ _ _ inp Hin Hv Hw Hn).
Qed.

(** When every input has a custom sighash (with a name in the table) and
    the user declines the warning, whose second button then reads "Cancel",
    [sign_psbt] returns no result; the transaction is not even matched and
    the device state is untouched. *)
Theorem sign_psbt_all_custom_declined s enc st p0 p custom txt :
  decode' (liquid_of st) enc s = Ok p0 ->
  psbt_verify p0 = Ok p ->
  scan_inputs (default_sighash (liquid_of st)) 0 (inputs p) [] = Ok custom ->
  custom <> [] ->
  length custom = length (inputs p) ->
  custom_lines custom = Ok txt ->
  ui_custom_sighash
    (nl +:+ "Custom SIGHASH flags are used!" +:+ nl +:+ nl +:+ join nl txt)
    "Cancel" = false ->
  sign_psbt' s enc st = (st, Ok None).
Proof.
  intros Hdec Hver Hscan Hne Hall Hlines Hno.
  unfold sign_psbt, bindM, get, lift. cbn beta in Hdec, Hscan.
  rewrite Hdec, Hver, Hscan. unfold custom_choice.
  destruct custom as [| c r]; [congruence |].
  cbn [length Nat.ltb Nat.leb]. rewrite Hlines. cbn [bind].
  rewrite <- Hall. cbn [length]. rewrite Nat.eqb_refl. cbn [negb bind].
  rewrite Hno. reflexivity.
Qed.

(** Nothing is signed without the consent of the user: if the transaction
    screen is never accepted, [sign_psbt] never returns signed bytes and the
    state of the wallets is what it was, whatever the request. *)
Theorem nothing_signed_without_consent s enc st :
  (forall title md, ui_transaction title md = false) ->
  let run :=
    sign_psbt is_liquid a2b_base64_stream read_from psbt_verify serialize
              b2a_base64 compact_to_bytes sha256 nonce_sec ecdh_point
              pedersen_commitment_parse generator_parse rangeproof_sign
              keystore_fingerprint keystore_sign_psbt psbt_utxo psbt_fee
              pubkey_parse liquid_address script_address self_wallets
              json_dumps aead_seal ui_custom_sighash ui_label_assets
              ui_asset_label ui_unknown_wallet ui_transaction format_spend
              s enc st in
  (forall txt, snd run <> Ok (Some txt)) /\
  wstate (fst run) = wstate st.
Proof.
  intros Hno. cbv zeta.
  unfold sign_psbt, bindM, get, lift, ret.
  destruct (decode _ _ _ _ _) as [p0 | e]; [| split; [discriminate | reflexivity]].
  destruct (psbt_verify p0) as [p | e]; [| split; [discriminate | reflexivity]].
  destruct (scan_inputs _ _ _ _) as [custom | e];
    [| split; [discriminate | reflexivity]].
  destruct (custom_choice _ _ _ _) as [[sh |] | e];
    [| split; [discriminate | reflexivity] ..].
  destruct (run_parse_psbt _ _ _ _ _ _ _ _ _) as [wm | e];
    [| split; [discriminate | reflexivity]].
  unfold label_unknown, bindM, get, lift, ret, put.
  destruct (_ && ui_label_assets).
  - destruct (label_loop _ _ _) as [a fin]. destruct fin.
    + destruct (run_parse_psbt _ _ _ _ _ _ _ _ _) as [[wallets md] | e];
        [| split; [discriminate | reflexivity]].
      destruct (_ && negb ui_unknown_wallet);
        [split; [discriminate | reflexivity] |].
      rewrite Hno. split; [discriminate | reflexivity].
    + split; [discriminate | reflexivity].
  - destruct wm as [wallets md].
    destruct (_ && negb ui_unknown_wallet);
      [split; [discriminate | reflexivity] |].
    rewrite Hno. split; [discriminate | reflexivity].
Qed.

Abbreviation label_unknown' :=
  (label_unknown is_liquid psbt_utxo psbt_fee pubkey_parse liquid_address
                 script_address self_wallets json_dumps aead_seal
                 ui_label_assets ui_asset_label).
Abbreviation run_parse_psbt' :=
  (run_parse_psbt is_liquid psbt_utxo psbt_fee pubkey_parse liquid_address
                  script_address self_wallets).
Abbreviation asked :=
  (fun a : string => ui_asset_label (Assets.hexlify (Assets.str_rev a))).

(** A labelling loop that runs to its end gives every listed asset the
    label the user typed for it and touches no other entry. *)
Lemma label_loop_finished l :
  forall a a',
    label_loop ui_asset_label l a = (a', true) ->
    forall x,
      (x ∈ l -> a' !! x = asked x /\ is_Some (a' !! x)) /\
      (x ∉ l -> a' !! x = a !! x).
Proof.
  induction l as [| asset r IH]; intros a a' Hrun x.
  - injection Hrun as <-. split; [intros Hx; inversion Hx | reflexivity].
  - cbn [label_loop] in Hrun.
    destruct (ui_asset_label (Assets.hexlify (Assets.str_rev asset)))
      as [lbl |] eqn:Hl; [| discriminate].
    destruct (IH _ _ Hrun x) as [Hin Hout].
    destruct (decide (x ∈ r)) as [Hr | Hr].
    + split; [intros _; now apply Hin |].
      intros Hn. exfalso. apply Hn. now right.
    + split.
      * intros Hx. apply elem_of_cons in Hx as [-> | Hx]; [| contradiction].
        rewrite (Hout Hr), lookup_insert_eq. cbn beta. rewrite Hl.
        split; [reflexivity | now exists lbl].
      * intros Hn. rewrite (Hout Hr).
        apply lookup_insert_ne. intros ->. apply Hn. now left.
Qed.

(** When the user takes the offer to label the unknown assets and types a
    label for each of them, the metadata that goes on to the transaction
    screen lists no unknown asset, every asset that was unknown has the
    label typed for it, the labels that were there before are kept, and
    (when there was something to label) the label map has been saved. *)
Theorem labelling_leaves_no_unknown_asset
        p wm (st st' : pstate (world := world)) wallets' md' :
  run_parse_psbt' (mgr st) p = Ok wm ->
  ui_label_assets = true ->
  label_unknown' p wm st = (st', Ok (Some (wallets', md'))) ->
  m_unknown_assets md' = [] /\
  (forall a, a ∈ m_unknown_assets (snd wm) ->
             Assets.assets (mgr st') !! a = asked a /\
             is_Some (Assets.assets (mgr st') !! a)) /\
  (forall a lbl, Assets.assets (mgr st) !! a = Some lbl ->
                 Assets.assets (mgr st') !! a = Some lbl) /\
  (m_unknown_assets (snd wm) <> [] ->
   store st'
   = Assets.save_assets json_dumps aead_seal (mgr st') (store st)).
Proof.
  intros Hparse Hyes Hrun.
  destruct wm as [wallets md]. cbn [snd] in *.
  unfold run_parse_psbt in Hparse.
  destruct (MatcherMore.unknown_assets_aux _ _ _ _ _ _ _ _ _ _ _ _ Hparse)
    as (_ & Hplain & Hliq).
  unfold label_unknown in Hrun. cbn [snd] in Hrun. rewrite Hyes in Hrun.
  destruct (decide (m_unknown_assets md = [])) as [Hu | Hu].
  { rewrite Hu in Hrun. cbn in Hrun. unfold ret in Hrun.
    injection Hrun as <- <- <-.
    split; [exact Hu |]. split; [rewrite Hu; intros a Ha; inversion Ha |].
    split; [auto | congruence]. }
  assert ((0 <? length (m_unknown_assets md))%nat = true) as Hlen
    by (destruct (m_unknown_assets md); [congruence | reflexivity]).
  rewrite Hlen in Hrun. clear Hlen.
  cbn [andb] in Hrun. unfold bindM, get, put, lift, ret in Hrun.
  destruct (label_loop ui_asset_label (m_unknown_assets md)
                       (Assets.assets (mgr st))) as [a' fin] eqn:Hloop.
  destruct fin; [| discriminate].
  unfold run_parse_psbt in Hrun. cbn [Assets.set_assets Assets.assets
                                      Assets.network] in Hrun.
  destruct (parse_psbt _ _ _ _ _ _ _ a' _ p) as [wm' |] eqn:Hparse';
    [| discriminate].
  injection Hrun as <- ->. cbn [mgr store Assets.set_assets Assets.assets].
  pose proof (label_loop_finished _ _ _ Hloop) as Hlab.
  destruct (MatcherMore.unknown_assets_aux _ _ _ _ _ _ _ _ _ _ _ _ Hparse')
    as (_ & Hplain' & Hliq').
  assert (forall a lbl, Assets.assets (mgr st) !! a = Some lbl ->
                        a' !! a = Some lbl) as Hkept.
  { intros a lbl Ha. destruct (Hlab a) as [_ Hout]. rewrite Hout; [exact Ha |].
    intros Hin.
    destruct (is_liquid (Assets.network (mgr st))) eqn:Hnet.
    - apply (Hliq eq_refl) in Hin as [_ Hnone]. congruence.
    - rewrite (Hplain eq_refl) in Hin. inversion Hin. }
  split; [| split; [| split]].
  - destruct (is_liquid (Assets.network (mgr st))) eqn:Hnet;
      [| now apply Hplain'].
    destruct (m_unknown_assets md') as [| b bs] eqn:Hb; [reflexivity |].
    exfalso.
    assert (b ∈ b :: bs) as Hin by now left.
    apply (Hliq' eq_refl) in Hin as [Hocc Hnone].
    destruct (Assets.assets (mgr st) !! b) as [lbl |] eqn:Hold.
    + rewrite (Hkept _ _ Hold) in Hnone. discriminate.
    + assert (b ∈ m_unknown_assets md) as Hwas
        by (apply (Hliq eq_refl); split; assumption).
      destruct (Hlab b) as [Hin _]. destruct (Hin Hwas) as [_ [lbl Hsome]].
      congruence.
  - intros a Ha. destruct (Hlab a) as [Hin _]. exact (Hin Ha).
  - exact Hkept.
  - intros _. reflexivity.
Qed.

End Method.

(** An append on the left of an append. *)
Lemma append_assoc (a b c : string) : (a +:+ b) +:+ c = a +:+ (b +:+ c).
Proof.
  induction a as [| x a IH]; [reflexivity |].
  change (String x ((a +:+ b) +:+ c) = String x (a +:+ (b +:+ c))).
  now rewrite IH.
Qed.

Lemma append_empty_r (a : string) : a +:+ EmptyString = a.
Proof.
  induction a as [| x a IH]; [reflexivity |].
  change (String x (a +:+ EmptyString) = String x a). now rewrite IH.
Qed.

Section Finalize.
Variable compact_to_bytes : nat -> string.
Variable sha256 : string -> string.
Variable nonce_sec : string -> string.
Variable ecdh_point : option string -> string -> string.
Variable pedersen_commitment_parse : string -> string.
Variable generator_parse : string -> string.
Variable rangeproof_sign :
  string -> Z -> string -> string -> string -> string -> string -> string.

Abbreviation fstep :=
  (finalize_step compact_to_bytes sha256 nonce_sec ecdh_point
                 pedersen_commitment_parse generator_parse rangeproof_sign).
Abbreviation floop :=
  (finalize_loop compact_to_bytes sha256 nonce_sec ecdh_point
                 pedersen_commitment_parse generator_parse rangeproof_sign).
Abbreviation finalize' :=
  (finalize compact_to_bytes sha256 nonce_sec ecdh_point
            pedersen_commitment_parse generator_parse rangeproof_sign).

(** The outputs on which an iteration of the loop does not raise. *)
Abbreviation finalizable :=
  (fun out : psbt_output =>
     match unknown out !! NONCE_KEY with
     | None => truthy (range_proof out) = false
     | Some nonce =>
         (truthy (nonce_commitment out) = true ->
          nonce_commitment out = Some (nonce_sec nonce)) /\
         is_Some (surjection_proof out)
     end).

(** The range proof that the device computes for an output it blinds. *)
Abbreviation device_proof :=
  (fun (out : psbt_output) (nonce : string) =>
     rangeproof_sign
       (sha256 (sha256 (ecdh_point (blinding_pubkey out) nonce)))
       (tx_value (vout out))
       (pedersen_commitment_parse (value_commitment out))
       (value_blinding_factor out)
       (str_drop 1 (tx_asset (vout out)) +:+ asset_blinding_factor out)
       (script_pubkey (vout out))
       (generator_parse (asset_commitment out))).

(** The bytes that one output adds to the running hash. *)
Abbreviation contribution :=
  (fun out : psbt_output =>
     match unknown out !! NONCE_KEY with
     | None => String "000"%char (String "000"%char "")
     | Some nonce =>
         compact_to_bytes (String.length (device_proof out nonce))
         +:+ device_proof out nonce
         +:+ compact_to_bytes
               (String.length (default "" (surjection_proof out)))
         +:+ default "" (surjection_proof out)
     end).

(** The output scope as the loop leaves it. *)
Abbreviation finalized :=
  (fun out : psbt_output =>
     match unknown out !! NONCE_KEY with
     | None => out
     | Some nonce =>
         set_surjection_proof
           (set_nonce_commitment out (Some (nonce_sec nonce))) None
     end).

Lemma set_nonce_commitment_same out c :
  nonce_commitment out = c -> set_nonce_commitment out c = out.
Proof. intros <-. now destruct out. Qed.

Lemma finalize_step_ok out st :
  proof_var st = None ->
  finalizable out ->
  fstep out st
  = Ok (FinState (fed st +:+ contribution out) None
                 (visited st ++ [finalized out])).
Proof.
  intros Hp Hf. unfold finalize_step. cbn beta in Hf |- *.
  destruct (unknown out !! NONCE_KEY) as [nonce |].
  - destruct Hf as [Hn [sp Hsp]].
    destruct (truthy (nonce_commitment out)) eqn:Ht.
    + rewrite bool_decide_eq_true_2 by auto. cbn [bind].
      rewrite Hsp. cbn [len_opt bind default].
      rewrite (set_nonce_commitment_same out _ (Hn eq_refl)).
      reflexivity.
    + cbn [bind]. destruct out; cbn in *. rewrite Hsp. reflexivity.
  - rewrite Hf, Hp. reflexivity.
Qed.

Lemma finalize_step_finalizable out st st' :
  proof_var st = None -> fstep out st = Ok st' -> finalizable out.
Proof.
  intros Hp Hs. unfold finalize_step in Hs. cbn beta.
  destruct (unknown out !! NONCE_KEY) as [nonce |].
  - destruct (truthy (nonce_commitment out)) eqn:Ht.
    + case_bool_decide as Hc; cbn [bind] in Hs; [| discriminate].
      destruct (surjection_proof out) as [sp |]; [| discriminate].
      split; [auto | now exists sp].
    + cbn [bind] in Hs.
      change (surjection_proof (set_nonce_commitment out _))
        with (surjection_proof out) in Hs.
      destruct (surjection_proof out) as [sp |]; [| discriminate].
      split; [discriminate | now exists sp].
  - destruct (truthy (range_proof out)); [| reflexivity].
    rewrite Hp in Hs. discriminate.
Qed.

Lemma finalize_loop_ok outs :
  forall st,
    proof_var st = None ->
    Forall finalizable outs ->
    floop outs st
    = Ok (FinState (fed st +:+ foldr (fun out acc => contribution out +:+ acc)
                                     "" outs)
                   None (visited st ++ (finalized <$> outs))).
Proof.
  induction outs as [| out r IH]; intros st Hp Hall.
  - cbn. rewrite append_empty_r, app_nil_r. destruct st; cbn in *. now subst.
  - apply Forall_cons in Hall as [Hout Hr]. cbn [finalize_loop].
    rewrite (finalize_step_ok out st Hp Hout). cbn [bind].
    rewrite IH by (assumption || reflexivity).
    cbn [fed visited foldr fmap list_fmap].
    rewrite append_assoc, <- app_assoc. reflexivity.
Qed.

Lemma finalize_loop_finalizable outs :
  forall st st',
    proof_var st = None -> floop outs st = Ok st' -> Forall finalizable outs.
Proof.
  induction outs as [| out r IH]; intros st st' Hp Hrun; [constructor |].
  cbn [finalize_loop] in Hrun.
  destruct (fstep out st) as [st1 |] eqn:Hs; [| discriminate].
  cbn [bind] in Hrun. constructor.
  - exact (finalize_step_finalizable _ _ _ Hp Hs).
  - apply (IH st1 st'); [| exact Hrun].
    rewrite (finalize_step_ok out st Hp
               (finalize_step_finalizable _ _ _ Hp Hs)) in Hs.
    now injection Hs as <-.
Qed.

Lemma finalize_inv p p' :
  finalize' p = Ok p' ->
  Forall finalizable (outputs p) /\
  p' = Psbt (inputs p) (finalized <$> outputs p)
            (Some (sha256 (foldr (fun out acc => contribution out +:+ acc)
                                 "" (outputs p)))).
Proof.
  intros Hrun. unfold finalize in Hrun.
  destruct (floop (outputs p) (FinState "" None [])) as [st |] eqn:Hloop;
    [| discriminate].
  pose proof (finalize_loop_finalizable _ (FinState "" None []) _ eq_refl Hloop) as Hall.
  split; [exact Hall |].
  rewrite (finalize_loop_ok _ (FinState "" None []) eq_refl Hall) in Hloop.
  injection Hloop as <-. cbn [bind] in Hrun. now injection Hrun as <-.
Qed.

(** The confidential finalization returns only if no output stops the
    loop: an output without device nonce carries no range proof, and an
    output with a device nonce carries a surjection proof and, if it carries
    a nonce commitment, the commitment of that nonce.  An output that
    breaks one of these conditions keeps the method from reaching the
    signing step. *)
Theorem finalize_returns_only_if p p' :
  finalize compact_to_bytes sha256 nonce_sec ecdh_point
           pedersen_commitment_parse generator_parse rangeproof_sign p
  = Ok p' ->
  forall out,
    out ∈ outputs p ->
    match unknown out !! NONCE_KEY with
    | None => truthy (range_proof out) = false
    | Some nonce =>
        (truthy (nonce_commitment out) = true ->
         nonce_commitment out = Some (nonce_sec nonce)) /\
        is_Some (surjection_proof out)
    end.
Proof.
  intros Hrun. destruct (finalize_inv _ _ Hrun) as [Hall _].
  now apply Forall_forall.
Qed.

(** What the finalization changes in the container: nothing in the inputs;
    an output without device nonce is left as it was; an output with a
    device nonce gets the commitment of the nonce and loses its surjection
    proof.  The range proof that was computed is not stored: the range-proof
    field of every output is what it was. *)
Theorem finalize_touches_only_blinded_outputs p p' :
  finalize compact_to_bytes sha256 nonce_sec ecdh_point
            pedersen_commitment_parse generator_parse rangeproof_sign p
  = Ok p' ->
  inputs p' = inputs p /\
  length (outputs p') = length (outputs p) /\
  forall i out,
    outputs p !! i = Some out ->
    exists out',
      outputs p' !! i = Some out' /\
      range_proof out' = range_proof out /\
      (unknown out !! NONCE_KEY = None -> out' = out) /\
      (forall nonce,
          unknown out !! NONCE_KEY = Some nonce ->
          out' = set_surjection_proof
                   (set_nonce_commitment out (Some (nonce_sec nonce))) None).
Proof.
  intros Hrun. destruct (finalize_inv _ _ Hrun) as [_ ->].
  cbn [inputs outputs]. split; [reflexivity |].
  split; [apply length_fmap |].
  intros i out Hi. exists (finalized out).
  rewrite list_lookup_fmap, Hi. split; [reflexivity |]. cbn beta.
  destruct (unknown out !! NONCE_KEY) as [nonce |].
  - split; [reflexivity |]. split; [discriminate |].
    now intros ? [= <-].
  - split; [reflexivity |]. split; [reflexivity | discriminate].
Qed.

(** The digest that the finalization stores is the hash of the outputs'
    contributions in the order of the outputs: two zero bytes for an output
    without device nonce, and for an output that the device blinds the
    computed range proof and the output's surjection proof, each after its
    compact length. *)
Theorem finalize_digest p p' :
  finalize compact_to_bytes sha256 nonce_sec ecdh_point
            pedersen_commitment_parse generator_parse rangeproof_sign p
  = Ok p' ->
  hash_outputs_rangeproofs p'
  = Some (sha256 (foldr (fun out acc => contribution out +:+ acc) ""
                        (outputs p))).
Proof. intros Hrun. now destruct (finalize_inv _ _ Hrun) as [_ ->]. Qed.

End Finalize.

(** A request whose second input comes without its previous output, on the
    device of the examples. *)
Lemma sign_psbt_missing_previous_witness :
  sign_psbt_ui (fun _ _ => true) true (fun _ => Some "LBL") true
               (fun _ _ => true) (raw_request false "u") RAW_STREAM
               (device0 "main")
  = (device0 "main", Raise (WalletError MISSING_PREV)).
Proof.
  assert (decode a2b_base64_stream0 read_from1
                 (is_liquid0 (Assets.network (mgr (device0 "main"))))
                 RAW_STREAM (raw_request false "u") = Ok unverified_spend)
    as Hdec by reflexivity.
  assert (PsbtInput false None None None ∅ (hints 0 6) None None 500 tBTC_key
          ∈ inputs unverified_spend) as Hin
    by (apply list_elem_of_lookup; now exists 1).
  exact (sign_psbt_missing_previous
           is_liquid0 a2b_base64_stream0 read_from1 psbt_verify0 serialize0
           b2a_base64_0 compact0 sha256_0 nonce_sec0 ecdh_point0 (fun c => c)
           (fun g => g) rangeproof_sign0 "f00dbabe" keystore_sign0 psbt_utxo0
           psbt_fee0 pubkey_parse0 liquid_address0 script_address0
           [wallet_A; wallet_B] json_dumps0 aead_seal0 (fun _ _ => true) true
           (fun _ => Some "LBL") true (fun _ _ => true) format_spend0
           (raw_request false "u") RAW_STREAM (device0 "main")
           unverified_spend unverified_spend _
           Hdec eq_refl Hin eq_refl eq_refl eq_refl).
Defined.

(** A single input with the sighash type [NONE], and a user who declines
    the warning. *)
Lemma sign_psbt_all_custom_declined_witness :
  sign_psbt_ui (fun _ _ => false) true (fun _ => Some "LBL") true
               (fun _ _ => true) (raw_request false "c") RAW_STREAM
               (device0 "main")
  = (device0 "main", Ok None).
Proof.
  assert (decode a2b_base64_stream0 read_from1
                 (is_liquid0 (Assets.network (mgr (device0 "main"))))
                 RAW_STREAM (raw_request false "c") = Ok custom_spend)
    as Hdec by reflexivity.
  assert (scan_inputs
            (default_sighash
               (is_liquid0 (Assets.network (mgr (device0 "main")))))
            0 (inputs custom_spend) [] = Ok [(0, 2%Z)]) as Hscan
    by reflexivity.
  assert (custom_lines [(0, 2%Z)] = Ok ["Input 0: NONE"]) as Hlines
    by reflexivity.
  exact (sign_psbt_all_custom_declined
           is_liquid0 a2b_base64_stream0 read_from1 psbt_verify0 serialize0
           b2a_base64_0 compact0 sha256_0 nonce_sec0 ecdh_point0 (fun c => c)
           (fun g => g) rangeproof_sign0 "f00dbabe" keystore_sign0 psbt_utxo0
           psbt_fee0 pubkey_parse0 liquid_address0 script_address0
           [wallet_A; wallet_B] json_dumps0 aead_seal0 (fun _ _ => false) true
           (fun _ => Some "LBL") true (fun _ _ => true) format_spend0
           (raw_request false "c") RAW_STREAM (device0 "main")
           custom_spend custom_spend [(0, 2%Z)] ["Input 0: NONE"]
           Hdec eq_refl Hscan ltac:(discriminate) eq_refl Hlines eq_refl).
Defined.

(** The user of the examples accepts every warning but not the transaction
    screen. *)
Lemma nothing_signed_without_consent_witness :
  (forall txt,
      snd (sign_psbt_ui (fun _ _ => true) true (fun _ => Some "LBL") true
                        (fun _ _ => false) (raw_request false "t") RAW_STREAM
                        (device0 "main")) <> Ok (Some txt)) /\
  wstate (fst (sign_psbt_ui (fun _ _ => true) true (fun _ => Some "LBL") true
                            (fun _ _ => false) (raw_request false "t")
                            RAW_STREAM (device0 "main")))
  = wstate (device0 "main").
Proof.
  exact (nothing_signed_without_consent
           is_liquid0 a2b_base64_stream0 read_from1 psbt_verify0 serialize0
           b2a_base64_0 compact0 sha256_0 nonce_sec0 ecdh_point0 (fun c => c)
           (fun g => g) rangeproof_sign0 "f00dbabe" keystore_sign0 psbt_utxo0
           psbt_fee0 pubkey_parse0 liquid_address0 script_address0
           [wallet_A; wallet_B] json_dumps0 aead_seal0 (fun _ _ => true) true
           (fun _ => Some "LBL") true (fun _ _ => false) format_spend0
           (raw_request false "t") RAW_STREAM (device0 "main")
           (fun _ _ => eq_refl)).
Defined.

(** A transaction in an asset without label on a confidential network; the
    user types a label for it. *)
Lemma labelling_leaves_no_unknown_asset_witness :
  exists wm st' wallets' md',
    run_parse_psbt is_liquid0 psbt_utxo0 psbt_fee0 pubkey_parse0
                   liquid_address0 script_address0 [wallet_A; wallet_B]
                   (mgr (device0 "liquidv1")) unlabelled_spend = Ok wm /\
    label_unknown is_liquid0 psbt_utxo0 psbt_fee0 pubkey_parse0
                  liquid_address0 script_address0 [wallet_A; wallet_B]
                  json_dumps0 aead_seal0 true (fun _ => Some "LBL")
                  unlabelled_spend wm (device0 "liquidv1")
    = (st', Ok (Some (wallets', md'))) /\
    m_unknown_assets md' = [] /\
    (forall a, a ∈ m_unknown_assets (snd wm) ->
               Assets.assets (mgr st') !! a = Some "LBL").
Proof.
  destruct (run_parse_psbt is_liquid0 psbt_utxo0 psbt_fee0 pubkey_parse0
                           liquid_address0 script_address0 [wallet_A; wallet_B]
                           (mgr (device0 "liquidv1")) unlabelled_spend)
    as [wm | e] eqn:E; [| vm_compute in E; discriminate].
  destruct (label_unknown is_liquid0 psbt_utxo0 psbt_fee0 pubkey_parse0
                          liquid_address0 script_address0 [wallet_A; wallet_B]
                          json_dumps0 aead_seal0 true (fun _ => Some "LBL")
                          unlabelled_spend wm (device0 "liquidv1"))
    as [st' r] eqn:L.
  assert (exists wallets' md', r = Ok (Some (wallets', md')))
    as (wallets' & md' & ->).
  { pose proof E as E'. vm_compute in E'. injection E' as <-.
    vm_compute in L. injection L as _ <-. eauto. }
  exists wm, st', wallets', md'. split; [reflexivity |].
  split; [exact L |].
  destruct (labelling_leaves_no_unknown_asset
              is_liquid0 psbt_utxo0 psbt_fee0 pubkey_parse0 liquid_address0
              script_address0 [wallet_A; wallet_B] json_dumps0 aead_seal0
              true (fun _ => Some "LBL") unlabelled_spend wm
              (device0 "liquidv1") st' wallets' md' E eq_refl L)
    as (Hnone & Hlab & _).
  split; [exact Hnone |]. intros a Ha. exact (proj1 (Hlab a Ha)).
Defined.

(** The output that the device blinds in the example carries a
    surjection proof and no nonce commitment; the fee output carries no
    range proof. *)
Lemma finalize_returns_only_if_witness :
  exists p',
    finalize0 to_blind = Ok p' /\
    is_Some (surjection_proof output_to_blind) /\
    truthy (range_proof (fee_output 600)) = false.
Proof.
  destruct (finalize0 to_blind) as [p' | e] eqn:E;
    [| vm_compute in E; discriminate].
  exists p'. split; [reflexivity |].
  pose proof (finalize_returns_only_if
                compact0 sha256_0 nonce_sec0 ecdh_point0 (fun c => c)
                (fun g => g) rangeproof_sign0 to_blind p' E) as Hall.
  split.
  - pose proof (Hall output_to_blind (list_elem_of_here _ _)) as H0.
    assert (unknown output_to_blind !! NONCE_KEY = Some "nonce") as Hk
      by (vm_compute; reflexivity).
    rewrite Hk in H0. exact (proj2 H0).
  - pose proof (Hall (fee_output 600)
                     (list_elem_of_further _ _ _ (list_elem_of_here _ _)))
      as H1.
    assert (unknown (fee_output 600) !! NONCE_KEY = None) as Hk
      by reflexivity.
    rewrite Hk in H1. exact H1.
Defined.

(** The device blinds the first output of the two. *)
Lemma finalize_touches_only_blinded_outputs_witness :
  exists p',
    finalize0 to_blind = Ok p' /\
    inputs p' = inputs to_blind /\
    outputs p' !! 1 = Some (fee_output 600) /\
    outputs p'
    = [set_surjection_proof
         (set_nonce_commitment output_to_blind (Some (nonce_sec0 "nonce")))
         None;
       fee_output 600].
Proof.
  destruct (finalize0 to_blind) as [p' | e] eqn:E;
    [| vm_compute in E; discriminate].
  exists p'. split; [reflexivity |].
  destruct (finalize_touches_only_blinded_outputs
              compact0 sha256_0 nonce_sec0 ecdh_point0 (fun c => c)
              (fun g => g) rangeproof_sign0 to_blind p' E)
    as (Hin & Hlen & Hout).
  split; [exact Hin |].
  destruct (Hout 0 output_to_blind eq_refl) as (o0 & H0 & _ & _ & Hb).
  destruct (Hout 1 (fee_output 600) eq_refl) as (o1 & H1 & _ & Hu & _).
  rewrite (Hu eq_refl) in H1. rewrite (Hb "nonce" eq_refl) in H0.
  split; [exact H1 |].
  destruct (outputs p') as [| a [| b [| c r]]]; try discriminate.
  now injection H0 as ->; injection H1 as ->.
Defined.

Lemma finalize_digest_witness :
  exists p',
    finalize0 to_blind = Ok p' /\
    hash_outputs_rangeproofs p'
    = Some (sha256_0
              (compact0 (String.length "rangeproof(400)")
               +:+ "rangeproof(400)"
               +:+ compact0 (String.length "surjection") +:+ "surjection"
               +:+ String "000"%char (String "000"%char ""))).
Proof.
  destruct (finalize0 to_blind) as [p' | e] eqn:E;
    [| vm_compute in E; discriminate].
  exists p'. split; [reflexivity |].
  rewrite (finalize_digest
             compact0 sha256_0 nonce_sec0 ecdh_point0 (fun c => c)
             (fun g => g) rangeproof_sign0 to_blind p' E).
  vm_compute. reflexivity.
Defined.

End SigningMore.

(** * The wallet store *)

Module StoreMore.

Import Matcher Signing Store Examples.

(** ** Folder names *)

Lemma int_from_pos d :
  forall acc,
    int_from (N.pos acc) (NilEmpty.string_of_uint d)
    = N.pos (Pos.of_uint_acc d acc).
Proof.
  induction d as [| d IH | d IH | d IH | d IH | d IH | d IH | d IH | d IH
                  | d IH | d IH];
    intros acc; cbn [NilEmpty.string_of_uint int_from Pos.of_uint_acc];
    [reflexivity | ..]; rewrite <- IH; f_equal;
    match goal with
    | |- context [N_of_ascii ?c] =>
        let v := eval vm_compute in (N_of_ascii c - 48)%N in
        change (N_of_ascii c - 48)%N with v
    end; lia.
Qed.

Lemma int_from_zero d :
  int_from 0 (NilEmpty.string_of_uint d) = Pos.of_uint d.
Proof.
  induction d as [| d IH | d IH | d IH | d IH | d IH | d IH | d IH | d IH
                  | d IH | d IH];
    cbn [NilEmpty.string_of_uint int_from Pos.of_uint];
    [reflexivity | exact IH | ..];
    match goal with
    | |- context [N_of_ascii ?c] =>
        let v := eval vm_compute in (10 * 0 + (N_of_ascii c - 48))%N in
        change (10 * 0 + (N_of_ascii c - 48))%N with v
    end; apply int_from_pos.
Qed.

(** Reading back the decimal text of a number gives the number. *)
Lemma int_of_dec n : int_of (dec n) = n.
Proof.
  unfold int_of, dec.
  assert (NilZero.string_of_uint (N.to_uint n)
          = NilEmpty.string_of_uint (N.to_uint n)) as ->.
  { destruct n as [| p]; [reflexivity |]. unfold NilZero.string_of_uint.
    cbn [N.to_uint]. destruct (Pos.to_uint p) eqn:E; try reflexivity.
    exfalso. pose proof (DecimalPos.Unsigned.of_to p) as Hp.
    rewrite E in Hp. discriminate. }
  rewrite int_from_zero. apply DecimalN.Unsigned.of_to.
Qed.

Lemma append_inj_l (a b c : string) : a +:+ b = a +:+ c -> b = c.
Proof.
  induction a as [| x a IH]; intros Heq; [exact Heq |].
  apply IH. now injection Heq.
Qed.

(** The folder of an id is not the folder of a name that reads as a
    different number. *)
Lemma folder_ne path m name :
  int_of name <> m -> folder path m <> path +:+ "/" +:+ name.
Proof.
  intros Hne Heq. apply Hne. unfold folder in Heq.
  apply append_inj_l in Heq. apply (append_inj_l "/") in Heq.
  rewrite <- Heq. apply int_of_dec.
Qed.

Lemma wallet_ids_elem entries n :
  n ∈ wallet_ids entries <->
  exists name, (name, S_IFDIR) ∈ entries /\ isdigit name = true /\
               int_of name = n.
Proof.
  unfold wallet_ids. rewrite merge_sort_Permutation.
  rewrite list_elem_of_In, in_map_iff. split.
  - intros ([name ty] & <- & Hin). apply filter_In in Hin as [Hin Hok].
    cbn [fst snd] in *. apply andb_true_iff in Hok as [Hd Ht].
    apply Z.eqb_eq in Ht as ->. exists name.
    rewrite list_elem_of_In. auto.
  - intros (name & Hin & Hd & <-). exists (name, S_IFDIR).
    split; [reflexivity |]. apply filter_In. cbn [fst snd].
    rewrite <- list_elem_of_In, Hd. auto.
Qed.

Lemma foldl_max_bound r :
  forall x, (x <= foldl N.max x r)%N /\
            forall y, y ∈ r -> (y <= foldl N.max x r)%N.
Proof.
  induction r as [| a r IH]; intros x; cbn [foldl].
  - split; [lia | intros y Hy; inversion Hy].
  - destruct (IH (N.max x a)) as [Hx Hr]. split; [lia |].
    intros y Hy. apply elem_of_cons in Hy as [-> | Hy]; [lia | auto].
Qed.

Lemma py_max_bound l x :
  x ∈ l -> exists m, py_max l = Ok m /\ forall y, y ∈ l -> (y <= m)%N.
Proof.
  destruct l as [| a r]; [intros Hx; inversion Hx |]. intros _.
  exists (foldl N.max a r). split; [reflexivity |].
  destruct (foldl_max_bound r a) as [Ha Hr].
  intros y Hy. apply elem_of_cons in Hy as [-> | Hy]; auto.
Qed.

Lemma index_of_split {A} `{EqDecision A} (w : A) l :
  w ∈ l ->
  exists l1 l2, l = l1 ++ w :: l2 /\ (w ∉ l1) /\ index_of w l = length l1.
Proof.
  induction l as [| a l IH]; intros Hin; [inversion Hin |].
  cbn [index_of]. destruct (decide (w = a)) as [-> | Hne].
  - exists [], l. split; [reflexivity |]. split; [| reflexivity].
    intros Hx. inversion Hx.
  - apply elem_of_cons in Hin as [-> | Hin]; [contradiction |].
    destruct (IH Hin) as (l1 & l2 & -> & Hn & ->).
    exists (a :: l1), l2. split; [reflexivity |]. split; [| reflexivity].
    intros Hx. apply elem_of_cons in Hx as [-> | Hx]; contradiction.
Qed.

Section Store.
Context {W world K net : Type} `{EqDecision W} `{WalletFiles W world}.
Variable exn_str : exn -> string.
Variable self_path : string.
Variable self_network : string.
Variable NETWORKS : string -> option net.
Variable net_name : net -> string.
Variable wallet_parse : string -> result W.
Variable descriptor_str : W -> string.
Variable check_network : W -> net -> bool.
Variable get_key_dicts : W -> string -> list K.
Variable keystore_owns : K -> bool.
Variable ui_foreign_keys : bool.
Variable ui_confirm_wallet : W -> list (K * bool) -> bool.

Abbreviation load_each' := (load_each exn_str self_path).
Abbreviation load_wallets' := (load_wallets exn_str self_path).
Abbreviation add_wallet' := (add_wallet (W := W) self_path).
Abbreviation annotated := (annotated_keys self_network get_key_dicts
                                          keystore_owns).
Abbreviation add_wallet_command' :=
  (add_wallet_command exn_str self_path self_network NETWORKS net_name
                      wallet_parse descriptor_str check_network get_key_dicts
                      keystore_owns ui_foreign_keys ui_confirm_wallet).

(** [delete_wallet] refuses a wallet that is not in the list and then
    changes nothing; otherwise it wipes the wallet and removes its first
    occurrence from the list: every other entry stays, in the same order. *)
Theorem delete_wallet_removes_one (w : W) (st : state W world) :
  (w ∉ wallets st ->
   delete_wallet w st = (st, Raise (WalletError "Wallet not found"))) /\
  (w ∈ wallets st ->
   exists l1 l2,
     wallets st = l1 ++ w :: l2 /\ (w ∉ l1) /\
     delete_wallet w st
     = (State (l1 ++ l2) (wallet_wipe w (files st)), Ok tt)).
Proof.
  unfold delete_wallet. split; intros Hin.
  - now rewrite bool_decide_eq_false_2.
  - rewrite bool_decide_eq_true_2 by assumption. cbn [negb].
    destruct (index_of_split w _ Hin) as (l1 & l2 & Hl & Hn & Hi).
    exists l1, l2. split; [exact Hl |]. split; [exact Hn |].
    rewrite Hi, Hl, delete_middle. reflexivity.
Qed.

(** When the wallet directory lists at least one wallet folder, the new
    wallet is appended to the list and saved in the folder of a new id:
    the id is above the id of every listed wallet folder, so the folder is
    none of theirs. *)
Theorem add_wallet_uses_a_new_folder (w : W) (st : state W world) entries first :
  ilistdir self_path (files st) = Ok entries ->
  (first, S_IFDIR) ∈ entries ->
  isdigit first = true ->
  exists m,
    add_wallet' w st
    = (State (wallets st ++ [w])
             (save_to w (folder self_path m)
                      (maybe_mkdir (folder self_path m) (files st))),
       Ok tt) /\
    forall name,
      (name, S_IFDIR) ∈ entries -> isdigit name = true ->
      (int_of name < m)%N /\ folder self_path m <> self_path +:+ "/" +:+ name.
Proof.
  intros Hls Hfirst Hd.
  assert (int_of first ∈ wallet_ids entries) as Hid
    by (apply wallet_ids_elem; eauto).
  destruct (py_max_bound _ _ Hid) as (m & Hmax & Hbound).
  exists (m + 1)%N. unfold add_wallet. rewrite Hls, Hmax.
  split; [reflexivity |]. intros name Hin Hdn.
  assert (int_of name <= m)%N as Hle
    by (apply Hbound, wallet_ids_elem; eauto).
  split; [lia |]. apply folder_ne. lia.
Qed.

(** When the wallet directory lists no wallet folder, [add_wallet] stops
    with a [ValueError] from [max]: by then the wallet is in the list of the
    manager, but nothing has been written. *)
Theorem add_wallet_without_folders (w : W) (st : state W world) entries :
  ilistdir self_path (files st) = Ok entries ->
  (forall name, (name, S_IFDIR) ∈ entries -> isdigit name = false) ->
  exists e,
    add_wallet' w st = (State (wallets st ++ [w]) (files st), Raise e) /\
    exn_class e = "ValueError".
Proof.
  intros Hls Hnone. unfold add_wallet. rewrite Hls.
  destruct (wallet_ids entries) as [| n r] eqn:Hids.
  - eexists. split; reflexivity.
  - exfalso. assert (n ∈ wallet_ids entries) as Hn
      by (rewrite Hids; now left).
    apply wallet_ids_elem in Hn as (name & Hin & Hd & _).
    rewrite (Hnone _ Hin) in Hd. discriminate.
Qed.

Lemma load_each_app a b wd :
  load_each' (a ++ b) wd
  = match load_each' a wd with
    | (wd', Ok ws) =>
        match load_each' b wd' with
        | (wd'', Ok ws') => (wd'', Ok (ws ++ ws'))
        | (wd'', Raise e) => (wd'', Raise e)
        end
    | (wd', Raise e) => (wd', Raise e)
    end.
Proof.
  revert wd. induction a as [| wid a IH]; intros wd; cbn [app load_each].
  - destruct (load_each' b wd) as [wd' [ws | e]]; reflexivity.
  - destruct (load_wallet exn_str (folder self_path wid) wd) as [wd1 [w | e]];
      [| reflexivity].
    rewrite IH. destruct (load_each' a wd1) as [wd2 [ws | e]]; [| reflexivity].
    destruct (load_each' b wd2) as [wd3 [ws' | e]]; reflexivity.
Qed.

(** One wallet folder that fails to load empties the whole list: the
    wallets of the folders before it are dropped, the folder itself is
    deleted, and [load_wallets] returns [[]] without raising. *)
Theorem load_wallets_drops_all_on_failure (wd wd1 wd2 : world)
        entries pre wid post ws e :
  ilistdir self_path (maybe_mkdir self_path wd) = Ok entries ->
  wallet_ids entries = pre ++ wid :: post ->
  load_each' pre (maybe_mkdir self_path wd) = (wd1, Ok ws) ->
  from_path (folder self_path wid) wd1 = (wd2, Raise e) ->
  load_wallets' wd
  = (delete_recursively (folder self_path wid) wd2, []).
Proof.
  intros Hls Hids Hpre Hfail. unfold load_wallets.
  rewrite Hls, Hids, load_each_app, Hpre. cbn [load_each].
  unfold load_wallet. rewrite Hfail. reflexivity.
Qed.

(** A wallet enters the list only through the whole [ADD_WALLET] flow: the
    text of the request parses, no wallet of the list has that descriptor,
    the keys belong to the network of the manager, the user confirmed the
    wallet and, when none of its keys is the device's, accepted the
    warning about that before. *)
Theorem add_wallet_command_needs_consent payload (st st' : state W world) r :
  add_wallet_command' payload st = (st', r) ->
  wallets st' <> wallets st ->
  exists w,
    wallet_parse (strip payload) = Ok w /\
    wallets st' = wallets st ++ [w] /\
    (descriptor_str w ∉ map descriptor_str (wallets st)) /\
    (exists n, NETWORKS self_network = Some n /\ check_network w n = true) /\
    (existsb snd (annotated w) = false -> ui_foreign_keys = true) /\
    ui_confirm_wallet w (annotated w) = true.
Proof.
  unfold add_wallet_command, parse_wallet, confirm_new_wallet.
  intros Hrun Hchg.
  destruct (wallet_parse (strip payload)) as [w | e];
    [| injection Hrun as <- _; contradiction].
  case_bool_decide as Hdup; [injection Hrun as <- _; contradiction |].
  destruct (NETWORKS self_network) as [n |];
    [| injection Hrun as <- _; contradiction].
  destruct (check_network w n) eqn:Hnet; cbn [negb] in Hrun;
    [| injection Hrun as <- _; contradiction].
  destruct (existsb snd (annotated w)) eqn:Hmine;
    destruct ui_foreign_keys eqn:Hwarn; cbn [negb andb] in Hrun;
    try (injection Hrun as <- _; contradiction);
    (destruct (ui_confirm_wallet w (annotated w)) eqn:Hconf;
     [| injection Hrun as <- _; contradiction]);
    (exists w; split; [reflexivity |]; split;
     [| split; [exact Hdup
               | split; [eauto | split; [intros ?; congruence | exact Hconf]]]]);
    unfold add_wallet in Hrun;
    (destruct (ilistdir self_path (files st)) as [entries | e];
     [destruct (py_max (wallet_ids entries)) as [m | e] |]);
    now injection Hrun as <- _.
Qed.

(** The list never gets two wallets with the same descriptor: neither by
    an [ADD_WALLET] request nor by [delete_wallet]. *)
Theorem descriptors_stay_distinct payload (w : W) (st : state W world) :
  NoDup (map descriptor_str (wallets st)) ->
  NoDup (map descriptor_str (wallets (fst (add_wallet_command' payload st)))) /\
  NoDup (map descriptor_str (wallets (fst (delete_wallet w st)))).
Proof.
  intros Hnd. split.
  - destruct (add_wallet_command' payload st) as [st' r] eqn:Hrun.
    cbn [fst].
    destruct (decide (wallets st' = wallets st)) as [-> | Hchg];
      [exact Hnd |].
    unfold add_wallet_command, parse_wallet in Hrun.
    destruct (wallet_parse (strip payload)) as [x | e];
      [| injection Hrun as <- _; contradiction].
    case_bool_decide as Hdup; [injection Hrun as <- _; contradiction |].
    destruct (NETWORKS self_network) as [n |];
      [| injection Hrun as <- _; contradiction].
    destruct (negb (check_network x n));
      [injection Hrun as <- _; contradiction |].
    destruct (confirm_new_wallet _ _ _ _ _ x);
      [| injection Hrun as <- _; contradiction].
    assert (wallets st' = wallets st ++ [x]) as ->.
    { unfold add_wallet in Hrun.
      destruct (ilistdir self_path (files st)) as [entries | e];
        [destruct (py_max (wallet_ids entries)) as [m | e] |];
        now injection Hrun as <- _. }
    change (NoDup (descriptor_str <$> wallets st ++ [x])).
    rewrite fmap_app. apply NoDup_app. split; [exact Hnd |]. split.
    + intros d Hd Hx. apply list_elem_of_singleton in Hx as ->.
      exact (Hdup Hd).
    + apply NoDup_singleton.
  - unfold delete_wallet. destruct (negb (bool_decide (w ∈ wallets st)));
      cbn [fst wallets]; [exact Hnd |].
    change (NoDup (descriptor_str <$> delete (index_of w (wallets st))
                                             (wallets st))).
    eapply sublist_NoDup; [exact Hnd |].
    apply fmap_sublist, sublist_delete.
Qed.

End Store.

(** The store of the examples loses the savings wallet and keeps the
    default one. *)
Lemma delete_wallet_removes_one_witness :
  exists l1 l2,
    [wallet_A; wallet_B] = l1 ++ wallet_B :: l2 /\ (wallet_B ∉ l1) /\
    delete_wallet wallet_B (State [wallet_A; wallet_B] healthy_dir)
    = (State (l1 ++ l2) (wallet_wipe wallet_B healthy_dir), Ok tt).
Proof.
  apply (proj2 (delete_wallet_removes_one
                  wallet_B (State [wallet_A; wallet_B] healthy_dir))).
  apply list_elem_of_further, list_elem_of_here.
Defined.

(** A third wallet in a directory with the folders 0 and 1. *)
Lemma add_wallet_uses_a_new_folder_witness :
  exists m,
    snd (add_wallet toy_root (ToyWallet "Cold" ["C/0/0"] [20; 20]%N false)
                    (State [wallet_A; wallet_B] healthy_dir)) = Ok tt /\
    (int_of "1" < m)%N /\
    folder toy_root m <> toy_root +:+ "/" +:+ "1".
Proof.
  assert (ilistdir toy_root
                   (files (State [wallet_A; wallet_B] healthy_dir))
          = Ok (map fst healthy_dir)) as Hls by reflexivity.
  assert (isdigit "1" = true) as Hd by reflexivity.
  destruct (add_wallet_uses_a_new_folder
              toy_root (ToyWallet "Cold" ["C/0/0"] [20; 20]%N false)
              (State [wallet_A; wallet_B] healthy_dir)
              (map fst healthy_dir) "1" Hls
              (list_elem_of_here _ _) Hd) as (m & Hrun & Hfresh).
  exists m. rewrite Hrun. split; [reflexivity |].
  apply Hfresh; [apply list_elem_of_here | reflexivity].
Defined.

(** The same wallet in a directory without any wallet folder. *)
Lemma add_wallet_without_folders_witness :
  exists e,
    add_wallet toy_root (ToyWallet "Cold" ["C/0/0"] [20; 20]%N false)
               (State [] bare_dir)
    = (State [ToyWallet "Cold" ["C/0/0"] [20; 20]%N false] bare_dir, Raise e) /\
    exn_class e = "ValueError".
Proof.
  assert (ilistdir toy_root (files (State ([] : list toy_wallet) bare_dir))
          = Ok (map fst bare_dir)) as Hls by reflexivity.
  apply (add_wallet_without_folders
           toy_root (ToyWallet "Cold" ["C/0/0"] [20; 20]%N false)
           (State [] bare_dir) (map fst bare_dir) Hls).
  intros name Hin. apply list_elem_of_singleton in Hin. discriminate.
Defined.

(** The folder 1 of the damaged directory cannot be read: the wallets of
    the folders 0 and 2 are not loaded either. *)
Lemma load_wallets_drops_all_on_failure_witness :
  load_wallets exn_str0 toy_root damaged_dir
  = ([("2", S_IFDIR, Some wallet_B); ("0", S_IFDIR, Some wallet_A)], []).
Proof.
  assert (wallet_ids (map fst damaged_dir) = [0%N] ++ 1%N :: [2%N]) as Hids
    by (vm_compute; reflexivity).
  assert (ilistdir toy_root (maybe_mkdir toy_root damaged_dir)
          = Ok (map fst damaged_dir)) as Hls by reflexivity.
  assert (load_each exn_str0 toy_root [0%N] (maybe_mkdir toy_root damaged_dir)
          = (damaged_dir, Ok [wallet_A])) as Hpre
    by (vm_compute; reflexivity).
  assert (from_path (folder toy_root 1) damaged_dir
          = (damaged_dir, Raise (ValueError "corrupted wallet file")))
    as Hfail by (vm_compute; reflexivity).
  exact (load_wallets_drops_all_on_failure
           exn_str0 toy_root damaged_dir damaged_dir damaged_dir
           (map fst damaged_dir) [0%N] 1%N [2%N] [wallet_A]
           (ValueError "corrupted wallet file") Hls Hids Hpre Hfail).
Defined.

(** A new watch-only wallet, none of whose keys is the device's, and a
    user who accepts the warning and the wallet. *)
Lemma add_wallet_command_needs_consent_witness :
  exists st' r w,
    add_wallet_command0 true (fun _ _ => true) " Cold&C/0/0 "
                        (State [wallet_A; wallet_B] healthy_dir) = (st', r) /\
    toy_parse "Cold&C/0/0" = Ok w /\
    wallets st' = [wallet_A; wallet_B] ++ [w].
Proof.
  destruct (add_wallet_command0 true (fun _ _ => true) " Cold&C/0/0 "
                                (State [wallet_A; wallet_B] healthy_dir))
    as [st' r] eqn:E.
  assert (wallets st' <> wallets (State [wallet_A; wallet_B] healthy_dir))
    as Hchg by (vm_compute in E; injection E as <- _; discriminate).
  destruct (add_wallet_command_needs_consent
              exn_str0 toy_root "main" NETWORKS0 (fun n => n) toy_parse
              toy_descriptor (fun _ _ => true) keys_of owns_key0 true
              (fun _ _ => true) " Cold&C/0/0 "
              (State [wallet_A; wallet_B] healthy_dir) st' r E Hchg)
    as (w & Hparse & Hws & _).
  exists st', r, w. split; [reflexivity |]. split; [exact Hparse | exact Hws].
Defined.

(** The two wallets of the examples have different descriptors. *)
Lemma descriptors_stay_distinct_witness :
  NoDup (map toy_descriptor
             (wallets (fst (add_wallet_command0
                              true (fun _ _ => true) "Copy&A/0/5"
                              (State [wallet_A; wallet_B] healthy_dir))))) /\
  NoDup (map toy_descriptor
             (wallets (fst (delete_wallet
                              wallet_A
                              (State [wallet_A; wallet_B] healthy_dir))))).
Proof.
  apply (descriptors_stay_distinct
           exn_str0 toy_root "main" NETWORKS0 (fun n => n) toy_parse
           toy_descriptor (fun _ _ => true) keys_of owns_key0 true
           (fun _ _ => true) "Copy&A/0/5" wallet_A
           (State [wallet_A; wallet_B] healthy_dir)).
  apply NoDup_cons. split; [| apply NoDup_singleton].
  intros Hin. apply list_elem_of_singleton in Hin. discriminate.
Defined.

End StoreMore.

(** * The address lookup *)

Module AddressesMore.

Import Assets Addresses Examples.

Lemma split_on_not_nil sep s : split_on sep s <> [].
Proof.
  destruct s as [| c r]; cbn [split_on]; [discriminate |].
  destruct (Ascii.eqb c sep); [discriminate |].
  destruct (split_on sep r); discriminate.
Qed.

Section Lookup.
Context {W D K Scr net : Type}.
Variable self_wallets : list W.
Variable self_network : string.
Variable keystore_fingerprint : string.
Variable get_address : W -> Z -> string -> option Z -> result string.
Variable check_derivation : W -> string * D -> option (Z * Z).
Variable parse_path : string -> result D.
Variable get_xpub : D -> result K.
Variable NETWORKS : string -> option net.
Variable script_of : string -> Scr.
Variable p2wsh : Scr -> Scr.
Variable p2sh : Scr -> Scr.
Variable p2wpkh : K -> Scr.
Variable p2pkh : K -> Scr.
Variable address_of : Scr -> net -> string.
Variable bytes_repr : string -> string.
Variable py_int : string -> result Z.

Abbreviation by_index' := (by_index self_network get_address).
Abbreviation by_path' := (by_path self_network get_address check_derivation).
Abbreviation derivation_path' :=
  (derivation_path keystore_fingerprint parse_path).
Abbreviation find' :=
  (find_wallet_from_address self_wallets self_network keystore_fingerprint
                            get_address check_derivation parse_path).
Abbreviation showaddr' :=
  (showaddr self_wallets self_network keystore_fingerprint get_address
            check_derivation parse_path get_xpub NETWORKS script_of p2wsh
            p2sh p2wpkh p2pkh address_of bytes_repr).
Abbreviation derive_address_command' :=
  (derive_address_command self_wallets self_network keystore_fingerprint
                          get_address check_derivation parse_path get_xpub
                          NETWORKS script_of p2wsh p2sh p2wpkh p2pkh
                          address_of bytes_repr).
Abbreviation verify_address_command' :=
  (verify_address_command self_wallets self_network keystore_fingerprint
                          get_address check_derivation parse_path py_int).

Lemma by_index_sound ws addr i w :
  by_index' ws addr i = Ok (Some w) ->
  w ∈ ws /\ get_address w i self_network None = Ok addr.
Proof.
  induction ws as [| x r IH]; intros Hrun; [discriminate |].
  cbn [by_index] in Hrun.
  destruct (get_address x i self_network None) as [a |] eqn:Ha;
    [| discriminate].
  cbn [bind] in Hrun. destruct (String.eqb a addr) eqn:Heq.
  - injection Hrun as <-. apply String.eqb_eq in Heq as ->.
    split; [now left | exact Ha].
  - destruct (IH Hrun) as [Hin Hw]. split; [now right | exact Hw].
Qed.

Lemma by_path_sound ws addr dp w b i :
  by_path' ws addr dp = Ok (Some (w, (b, i))) ->
  w ∈ ws /\ check_derivation w dp = Some (b, i) /\
  get_address w i self_network (Some b) = Ok addr.
Proof.
  induction ws as [| x r IH]; intros Hrun; [discriminate |].
  cbn [by_path] in Hrun.
  destruct (check_derivation x dp) as [[bx ix] |] eqn:Hd.
  - destruct (get_address x ix self_network (Some bx)) as [a |] eqn:Ha;
      [| discriminate].
    cbn [bind] in Hrun. destruct (String.eqb a addr) eqn:Heq.
    + injection Hrun as <- <- <-. apply String.eqb_eq in Heq as ->.
      split; [now left | split; assumption].
    + destruct (IH Hrun) as (Hin & Hc & Hw).
      split; [now right | split; assumption].
  - destruct (IH Hrun) as (Hin & Hc & Hw).
    split; [now right | split; assumption].
Qed.

Lemma find_sound addr paths index w b i :
  find' addr paths index = Ok (w, (b, i)) ->
  w ∈ self_wallets /\
  ((index = Some i /\ b = 0%Z /\
    get_address w i self_network None = Ok addr) \/
   (exists p rest dp,
       paths = Some (p :: rest) /\ derivation_path' p = Ok dp /\
       check_derivation w dp = Some (b, i) /\
       get_address w i self_network (Some b) = Ok addr)).
Proof.
  unfold find_wallet_from_address. intros Hrun.
  assert (forall found,
             match found with
             | Some r => Ok r
             | None =>
                 try! found <-
                   match paths with
                   | Some [] => Raise IndexError
                   | Some (p :: _) =>
                       try! dp <- derivation_path' p;
                       by_path' self_wallets addr dp
                   | None => Ok None
                   end;
                 match found with
                 | Some r => Ok r
                 | None =>
                     Raise (WalletError
                              ("Can't find wallet owning address " +:+ addr))
                 end
             end = Ok (w, (b, i)) ->
             found = Some (w, (b, i)) \/
             exists p rest dp,
               paths = Some (p :: rest) /\ derivation_path' p = Ok dp /\
               by_path' self_wallets addr dp = Ok (Some (w, (b, i))))
    as Hsecond.
  { intros [r |] Hf; [left; congruence | right].
    destruct paths as [[| p rest] |]; try discriminate.
    destruct (derivation_path' p) as [dp |] eqn:Hdp; [| discriminate].
    cbn [bind] in Hf.
    destruct (by_path' self_wallets addr dp) as [[r |] |] eqn:Hp;
      try discriminate.
    cbn [bind] in Hf. injection Hf as ->. exists p, rest, dp. auto. }
  destruct index as [ix |].
  - destruct (by_index' self_wallets addr ix) as [r |] eqn:Hi;
      [| discriminate].
    cbn [bind] in Hrun.
    destruct (Hsecond _ Hrun) as [Hfirst | (p & rest & dp & Hp & Hdp & Hby)].
    + destruct r as [x |]; [| discriminate]. cbn in Hfirst.
      injection Hfirst as -> <- <-.
      destruct (by_index_sound _ _ _ _ Hi) as [Hin Ha].
      split; [exact Hin | left; auto].
    + destruct (by_path_sound _ _ _ _ _ _ Hby) as (Hin & Hc & Ha).
      split; [exact Hin |]. right. exists p, rest, dp. auto.
  - cbn [bind] in Hrun.
    destruct (Hsecond None Hrun)
      as [Hfirst | (p & rest & dp & Hp & Hdp & Hby)]; [discriminate |].
    destruct (by_path_sound _ _ _ _ _ _ Hby) as (Hin & Hc & Ha).
    split; [exact Hin |]. right. exists p, rest, dp. auto.
Qed.

(** [find_wallet_from_address] only answers with a wallet of the manager
    that derives the address: at the given index (then on branch 0), or at
    the branch and index that the wallet's descriptor gives for the first
    path. *)
Theorem find_wallet_from_address_owns addr paths index w b i :
  find' addr paths index = Ok (w, (b, i)) ->
  w ∈ self_wallets /\
  ((index = Some i /\ b = 0%Z /\
    get_address w i self_network None = Ok addr) \/
   (exists p rest dp,
       paths = Some (p :: rest) /\ derivation_path' p = Ok dp /\
       check_derivation w dp = Some (b, i) /\
       get_address w i self_network (Some b) = Ok addr)).
Proof. apply find_sound. Qed.

(** An address that [showaddr] derives for a request is returned (and
    shown) only if a wallet of the manager derives the same address, at
    the branch and index of the screen. *)
Theorem derive_address_only_for_own_wallet payload address w b i :
  derive_address_command' payload = Ok (address, (w, (b, i))) ->
  w ∈ self_wallets /\
  get_address w i self_network (Some b) = Ok address /\
  exists dp, check_derivation w dp = Some (b, i).
Proof.
  unfold derive_address_command. intros Hrun.
  destruct (derive_args payload) as [[[paths script_type] redeem] |];
    [| discriminate].
  cbn [bind] in Hrun. unfold showaddr in Hrun.
  destruct (NETWORKS self_network) as [n |]; [| discriminate].
  destruct (match redeem with
            | Some r => try! b0 <- unhexlify r; Ok (Some (script_of b0))
            | None => Ok None
            end) as [rs |]; [| discriminate].
  cbn [bind] in Hrun.
  match type of Hrun with
  | (try! address <- ?m; _) = _ => destruct m as [a |]; [| discriminate]
  end.
  cbn [bind] in Hrun.
  destruct (find' a (Some paths) None) as [[w' [b' i']] |] eqn:Hf;
    [| discriminate].
  cbn [bind] in Hrun. injection Hrun as -> -> -> ->.
  destruct (find_sound _ _ _ _ _ _ Hf)
    as [Hin [(Hx & _) | (p & rest & dp & _ & _ & Hc & Ha)]];
    [discriminate |].
  split; [exact Hin |]. split; [exact Ha |]. now exists dp.
Qed.

(** A [showaddr] request is refused with "Too many arguments" unless it
    has two or three words, also when it has only one; a request that is
    taken always has at least one path, so that the "Invalid path
    argument" error of the code cannot occur. *)
Theorem derive_args_outcomes payload :
  (forall e, derive_args payload = Raise e ->
             e = WalletError "Too many arguments") /\
  ((exists r, derive_args payload = Ok r) <->
   length (split_on " "%char payload) = 2 \/
   length (split_on " "%char payload) = 3) /\
  (forall paths script_type redeem,
      derive_args payload = Ok (paths, script_type, redeem) -> paths <> []).
Proof.
  unfold derive_args.
  assert (forall path, (length (split_on ","%char path) =? 0)%nat = false)
    as Hpaths.
  { intros path. pose proof (split_on_not_nil ","%char path).
    destruct (split_on ","%char path); [contradiction | reflexivity]. }
  destruct (split_on " "%char payload) as [| a [| b [| c [| d r]]]];
    cbn [bind length]; try rewrite Hpaths.
  all: split; [intros e He; congruence |].
  all: split; [split; [intros [r0 Hr]; try discriminate; auto
                       | intros [Hl | Hl]; try discriminate; eauto] |].
  all: intros paths t rd Hr; try discriminate.
  all: injection Hr as <- _ _; apply split_on_not_nil.
Qed.

(** The first loop answers with the first wallet of the list that
    derives the address at the index. *)
Lemma by_index_first ws addr i w :
  by_index' ws addr i = Ok (Some w) ->
  exists before after,
    ws = before ++ w :: after /\
    Forall (fun x => exists a, get_address x i self_network None = Ok a /\
                               a <> addr) before /\
    get_address w i self_network None = Ok addr.
Proof.
  induction ws as [| x r IH]; intros Hrun; [discriminate |].
  cbn [by_index] in Hrun.
  destruct (get_address x i self_network None) as [a |] eqn:Ha;
    [| discriminate].
  cbn [bind] in Hrun. destruct (String.eqb a addr) eqn:Heq.
  - injection Hrun as <-. apply String.eqb_eq in Heq as ->.
    exists [], r. split; [reflexivity |]. split; [constructor | exact Ha].
  - destruct (IH Hrun) as (before & after & -> & Hb & Hw).
    exists (x :: before), after. split; [reflexivity |].
    split; [| exact Hw]. constructor; [| exact Hb].
    exists a. split; [exact Ha |]. now apply String.eqb_neq.
Qed.

(** The index of a request is what [int] reads after the first argument
    that starts with [index=]. *)
Lemma first_index_spec args i :
  first_index py_int args = Ok (Some i) ->
  exists pre arg post,
    args = pre ++ arg :: post /\
    Forall (fun a => startswith "index=" a = false) pre /\
    startswith "index=" arg = true /\
    py_int (str_drop 6 arg) = Ok i.
Proof.
  induction args as [| a r IH]; intros Hrun; [discriminate |].
  cbn [first_index] in Hrun. destruct (startswith "index=" a) eqn:Ha.
  - destruct (py_int (str_drop 6 a)) as [k |] eqn:Hk; [| discriminate].
    cbn [bind] in Hrun. injection Hrun as <-.
    exists [], a, r. split; [reflexivity |]. split; [constructor | auto].
  - destruct (IH Hrun) as (pre & arg & post & -> & Hpre & Harg & Hint).
    exists (a :: pre), arg, post. split; [reflexivity |].
    split; [constructor; assumption | auto].
Qed.

(** The wallet screen of a verify-address request is shown only for the
    index of the request and the address of the request: the address is the
    text before the question mark (the scheme removed), the index is what
    [int] reads after the first argument of the query that starts with
    [index=], and the wallet is the first wallet of the manager that
    derives exactly that address at that index. *)
Theorem verify_address_only_for_own_wallet payload w idx :
  verify_address_command' payload = Ok (w, idx) ->
  exists i addr rest pre arg post before after,
    idx = Some i /\
    split_on "?"%char (remove_all "bitcoin:" payload) = [addr; rest] /\
    split_on "&"%char rest = pre ++ arg :: post /\
    Forall (fun a => startswith "index=" a = false) pre /\
    startswith "index=" arg = true /\
    py_int (str_drop 6 arg) = Ok i /\
    self_wallets = before ++ w :: after /\
    Forall (fun x => exists a, get_address x i self_network None = Ok a /\
                               a <> addr) before /\
    get_address w i self_network None = Ok addr.
Proof.
  unfold verify_address_command. intros Hrun.
  destruct (negb (contains "index=" _) || negb (contains "?" _));
    [discriminate |].
  destruct (split_on "?"%char (remove_all "bitcoin:" payload))
    as [| addr [| rest [| x r]]]; try discriminate.
  destruct (first_index py_int (split_on "&"%char rest)) as [ix |] eqn:Hix;
    [| discriminate].
  cbn [bind] in Hrun. unfold find_wallet_from_address in Hrun.
  destruct ix as [i |]; [| discriminate].
  destruct (by_index' self_wallets addr i) as [[x |] |] eqn:Hby;
    try discriminate.
  cbn [bind option_map fst] in Hrun. injection Hrun as <- <-.
  destruct (first_index_spec _ _ Hix) as (pre & arg & post & Ha & Hpre & Harg & Hint).
  destruct (by_index_first _ _ _ _ Hby) as (before & after & Hw & Hb & Hd).
  exists i, addr, rest, pre, arg, post, before, after. auto 10.
Qed.

End Lookup.

(** The address of the default wallet at index 5 is found by its index. *)
Lemma find_wallet_from_address_owns_witness :
  find_wallet0 "wpkh(Default/0/5)" None (Some 5%Z) = Ok (wallet_A, (0%Z, 5%Z)) /\
  wallet_A ∈ [wallet_B; wallet_A].
Proof.
  assert (find_wallet0 "wpkh(Default/0/5)" None (Some 5%Z)
          = Ok (wallet_A, (0%Z, 5%Z))) as E by (vm_compute; reflexivity).
  split; [exact E |].
  exact (proj1 (find_wallet_from_address_owns
                  [wallet_B; wallet_A] "main" "f00dbabe" toy_address
                  toy_check toy_parse_path "wpkh(Default/0/5)" None
                  (Some 5%Z) wallet_A 0%Z 5%Z E)).
Defined.

(** A request for the address of a path of the default wallet. *)
Lemma derive_address_only_for_own_wallet_witness :
  derive_address_command0 "wpkh m/84h/0h/0h/0/5"
  = Ok ("wpkh(Default/0/5)", (wallet_A, (0%Z, 5%Z))) /\
  wallet_A ∈ [wallet_B; wallet_A] /\
  toy_address wallet_A 5%Z "main" (Some 0%Z) = Ok "wpkh(Default/0/5)".
Proof.
  assert (derive_address_command0 "wpkh m/84h/0h/0h/0/5"
          = Ok ("wpkh(Default/0/5)", (wallet_A, (0%Z, 5%Z)))) as E
    by (vm_compute; reflexivity).
  split; [exact E |].
  destruct (derive_address_only_for_own_wallet
              [wallet_B; wallet_A] "main" "f00dbabe" toy_address toy_check
              toy_parse_path toy_xpub NETWORKS0 (fun b => b)
              (fun s => "wsh(" +:+ s +:+ ")") (fun s => "sh(" +:+ s +:+ ")")
              (fun k => "wpkh(" +:+ k +:+ ")") (fun k => "pkh(" +:+ k +:+ ")")
              (fun s n => s) (fun b => "b'" +:+ b +:+ "'")
              "wpkh m/84h/0h/0h/0/5" "wpkh(Default/0/5)" wallet_A 0%Z 5%Z E)
    as (Hin & Ha & _).
  split; [exact Hin | exact Ha].
Defined.

(** A request with the script type only. *)
Lemma derive_args_outcomes_witness :
  exists e,
    derive_args "wpkh" = Raise e /\ e = WalletError "Too many arguments".
Proof.
  exists (WalletError "Too many arguments"). split; [reflexivity |].
  exact (proj1 (derive_args_outcomes "wpkh") _ eq_refl).
Defined.

(** A verify-address request for the same address: the index is read from
    the second argument of the query, and the default wallet comes after
    the savings wallet in the list. *)
Lemma verify_address_only_for_own_wallet_witness :
  verify_address_command0 "wpkh(Default/0/5)?label=x&index=5"
  = Ok (wallet_A, Some 5%Z) /\
  exists i addr rest pre arg post before after,
    Some 5%Z = Some i /\
    split_on "?"%char (remove_all "bitcoin:" "wpkh(Default/0/5)?label=x&index=5")
    = [addr; rest] /\
    split_on "&"%char rest = pre ++ arg :: post /\
    Forall (fun a => startswith "index=" a = false) pre /\
    startswith "index=" arg = true /\
    py_int0 (str_drop 6 arg) = Ok i /\
    [wallet_B; wallet_A] = before ++ wallet_A :: after /\
    Forall (fun x => exists a, toy_address x i "main" None = Ok a /\
                               a <> addr) before /\
    toy_address wallet_A i "main" None = Ok addr.
Proof.
  assert (verify_address_command0 "wpkh(Default/0/5)?label=x&index=5"
          = Ok (wallet_A, Some 5%Z)) as E by (vm_compute; reflexivity).
  split; [exact E |].
  exact (verify_address_only_for_own_wallet
           [wallet_B; wallet_A] "main" "f00dbabe" toy_address toy_check
           toy_parse_path py_int0 "wpkh(Default/0/5)?label=x&index=5"
           wallet_A (Some 5%Z) E).
Defined.

End AddressesMore.
